(** * Offline tile cache for Leaflet: a shallow embedding of leaflet.offline.js

    The development follows the source file top to bottom:
    - [TileKey]: [initialize] and [_getTileKey] of [L.TileLayer.Offline];
    - [DBManager]: the IndexedDB wrapper ([open], [get], [put], [clear]);
    - [Fetcher]: [createTile], [_getTileFromCache], [_loadTileAndCache] and
      [_saveTileToCache], run against an explicit environment (network,
      canvas encoder, clock) with a trace of the observable effects;
    - [Enumerator]: [_calculateTilesForArea] and [_latLngToTile];
    - [Scheduler]: [_saveTilesImpl] as a step function over the callbacks
      the browser may deliver;
    - [Control]: [openDB], [_saveTiles] and [_rmTiles] of
      [L.Control.SaveTiles];
    - [Toggle]: the simulated download of map_layer_toggle.js.

    Strings are [string], integer-valued Numbers are [Z], latitudes and
    longitudes are real numbers, the percentage of the page's progress bar
    is computed in doubles, the object store is a [gmap] keyed by the
    record key. *)

From Stdlib Require Import ZArith QArith Qround Reals Machin Lra Lia Ascii String.
From Stdlib Require PrimFloat SpecFloat FloatOps Uint63.
From stdpp Require Import base gmap strings pretty list.

Local Open Scope string_scope.

(* ===================================================================== *)
(** ** Tile keys *)
(* ===================================================================== *)

Module TileKey.

(** Tile coordinates as Leaflet hands them to [createTile]: three integer
    valued Numbers.  A template literal renders such a Number by its
    decimal digits (with a leading minus sign when negative), which is what
    [pretty] computes on [Z]. *)
Record Coords := mkCoords { cz : Z; cx : Z; cy : Z }.

(** The constructor options of [L.TileLayer.Offline]; an absent or falsy
    option is [None] here. *)
Record CtorOptions := mkCtorOptions {
  opt_useCache : option bool;
  opt_saveToCache : option bool;
  opt_cacheStoreName : option string;
  opt_downloadOfflineTiles : option bool
}.

(** [c] is one of the letters x, y, z: the character class of the regular
    expression [/\{[xyz]\}/g]. *)
Definition is_xyz (c : ascii) : bool :=
  (Ascii.eqb c "x" || Ascii.eqb c "y" || Ascii.eqb c "z")%bool.

(** [url.replace(/\{[xyz]\}/g, '')]: a left-to-right scan that drops every
    non-overlapping occurrence of a placeholder. *)
Fixpoint strip_placeholders (url : string) : string :=
  match url with
  | EmptyString => EmptyString
  | String a t =>
      match t with
      | String c (String b rest) =>
          if (Ascii.eqb a "{" && is_xyz c && Ascii.eqb b "}")%bool
          then strip_placeholders rest
          else String a (strip_placeholders t)
      | _ => String a (strip_placeholders t)
      end
  end.

(** [x || false] and [x || 'offline_tiles'] on an option value. *)
Definition or_false (o : option bool) : bool := default false o.
Definition or_store_name (o : option string) : string :=
  match o with
  | Some s => if String.eqb s "" then "offline_tiles" else s
  | None => "offline_tiles"
  end.

(** The fields [initialize] sets on the layer ([cacheDB] lives in the
    fetcher's state, since it is a mutable object). *)
Record Layer := mkLayer {
  urlTemplate : string;
  useCache : bool;
  saveToCache : bool;
  cacheStoreName : string;
  downloadOfflineTiles : bool;
  _cacheKeyPrefix : string
}.

Definition initialize (url : string) (options : CtorOptions) : Layer :=
  {| urlTemplate := url;
     useCache := or_false (opt_useCache options);
     saveToCache := or_false (opt_saveToCache options);
     cacheStoreName := or_store_name (opt_cacheStoreName options);
     downloadOfflineTiles := or_false (opt_downloadOfflineTiles options);
     _cacheKeyPrefix := strip_placeholders url |}.

(** The template literal of [_getTileKey] applied to a prefix. *)
Definition tile_key (prefix : string) (coords : Coords) : string :=
  prefix +:+ "_" +:+ pretty (cz coords) +:+ "_" +:+ pretty (cx coords)
         +:+ "_" +:+ pretty (cy coords).

Definition _getTileKey (this : Layer) (coords : Coords) : string :=
  tile_key (_cacheKeyPrefix this) coords.

(** [occurs c s]: the character [c] appears in [s]. *)
Fixpoint occurs (c : ascii) (s : string) : bool :=
  match s with
  | EmptyString => false
  | String a t => (Ascii.eqb a c || occurs c t)%bool
  end.

End TileKey.


(* ===================================================================== *)
(** ** The IndexedDB wrapper *)
(* ===================================================================== *)

Module DBManager.

(** Why a promise was rejected. *)
Inductive Reason :=
  | NotSupported      (* 'IndexedDB not supported' *)
  | OpenFailed        (* request.onerror of indexedDB.open *)
  | NoSuchStore       (* db.transaction throws inside the executor *)
  | RequestFailed     (* request.onerror of a store request *)
  | ImageFailed       (* img.onerror *)
  | EncodeFailed      (* an exception between getContext and toDataURL *)
  | NoCacheDB.        (* options.cacheDB is null when dereferenced *)

(** A settled promise. *)
Inductive Settled (A : Type) :=
  | Resolved (a : A)
  | Rejected (r : Reason).
Arguments Resolved {A} a.
Arguments Rejected {A} r.

(** The record the cache stores; [mapName] is only set by the bulk
    download. *)
Record Entry := mkEntry {
  key : string;
  url : string;
  timestamp : Z;
  mapName : option string
}.

(** The browser's side of IndexedDB: whether [window.indexedDB] exists, the
    databases by name (each a map from object store name to the records of
    that store, keyed by their key path), whether [indexedDB.open] ends in
    [onerror], which store requests end in [onerror], and how many opens and
    store requests were made so far. *)
Record Browser := mkBrowser {
  indexedDB : bool;
  databases : gmap string (gmap string (gmap string Entry));
  open_error : bool;
  request_error : nat -> bool;
  opened : nat;
  requested : nat
}.

Record Manager := mkManager {
  dbName : string;
  _db : option string   (* the open connection, named by its database *)
}.

(** [initialize]: [dbName || 'leaflet_offline']. *)
Definition initialize (name : option string) : Manager :=
  {| dbName := match name with
               | Some s => if String.eqb s "" then "leaflet_offline" else s
               | None => "leaflet_offline"
               end;
     _db := None |}.

(** [request.onupgradeneeded]. *)
Definition onupgradeneeded (stores : gmap string (gmap string Entry))
  : gmap string (gmap string Entry) :=
  match stores !! "offline_tiles" with
  | Some _ => stores
  | None => <["offline_tiles" := ∅]> stores
  end.

(** [indexedDB.open(name, 1)] when it succeeds: a database that does not
    exist yet is created and upgraded. *)
Definition backend_open (name : string) (w : Browser) : Browser :=
  {| indexedDB := indexedDB w;
     databases := match databases w !! name with
                  | Some _ => databases w
                  | None => <[name := onupgradeneeded ∅]> (databases w)
                  end;
     open_error := open_error w;
     request_error := request_error w;
     opened := S (opened w);
     requested := requested w |}.

Definition count_open (w : Browser) : Browser :=
  {| indexedDB := indexedDB w; databases := databases w;
     open_error := open_error w; request_error := request_error w;
     opened := S (opened w); requested := requested w |}.

Definition count_request (w : Browser) : Browser :=
  {| indexedDB := indexedDB w; databases := databases w;
     open_error := open_error w; request_error := request_error w;
     opened := opened w; requested := S (requested w) |}.

Definition with_databases (w : Browser)
    (dbs : gmap string (gmap string (gmap string Entry))) : Browser :=
  {| indexedDB := indexedDB w; databases := dbs;
     open_error := open_error w; request_error := request_error w;
     opened := opened w; requested := requested w |}.

Definition open (this : Manager) (w : Browser)
  : Settled string * Manager * Browser :=
  match _db this with
  | Some db => (Resolved db, this, w)
  | None =>
      if negb (indexedDB w) then (Rejected NotSupported, this, w)
      else if open_error w then (Rejected OpenFailed, this, count_open w)
      else (Resolved (dbName this),
            {| dbName := dbName this; _db := Some (dbName this) |},
            backend_open (dbName this) w)
  end.

(** The object store a transaction on [db] reaches. *)
Definition objectStore (w : Browser) (db storeName : string)
  : option (gmap string Entry) :=
  databases w !! db ≫= fun stores => stores !! storeName.

Definition get (this : Manager) (w : Browser) (storeName k : string)
  : Settled (option Entry) * Manager * Browser :=
  match open this w with
  | (Rejected r, this', w') => (Rejected r, this', w')
  | (Resolved db, this', w') =>
      match objectStore w' db storeName with
      | None => (Rejected NoSuchStore, this', w')
      | Some store =>
          if request_error w' (requested w')
          then (Rejected RequestFailed, this', count_request w')
          else (Resolved (store !! k), this', count_request w')
      end
  end.

Definition put (this : Manager) (w : Browser) (storeName : string)
    (value : Entry) : Settled unit * Manager * Browser :=
  match open this w with
  | (Rejected r, this', w') => (Rejected r, this', w')
  | (Resolved db, this', w') =>
      match databases w' !! db with
      | None => (Rejected NoSuchStore, this', w')
      | Some stores =>
          match stores !! storeName with
          | None => (Rejected NoSuchStore, this', w')
          | Some store =>
              if request_error w' (requested w')
              then (Rejected RequestFailed, this', count_request w')
              else (Resolved tt, this',
                    count_request
                      (with_databases w'
                         (<[db := <[storeName := <[key value := value]> store]>
                                    stores]> (databases w'))))
          end
      end
  end.

Definition clear (this : Manager) (w : Browser) (storeName : string)
  : Settled unit * Manager * Browser :=
  match open this w with
  | (Rejected r, this', w') => (Rejected r, this', w')
  | (Resolved db, this', w') =>
      match databases w' !! db with
      | None => (Rejected NoSuchStore, this', w')
      | Some stores =>
          match stores !! storeName with
          | None => (Rejected NoSuchStore, this', w')
          | Some _ =>
              if request_error w' (requested w')
              then (Rejected RequestFailed, this', count_request w')
              else (Resolved tt, this',
                    count_request
                      (with_databases w'
                         (<[db := <[storeName := ∅]> stores]> (databases w'))))
          end
      end
  end.

End DBManager.

(* ===================================================================== *)
(** ** Cache-aside tile resolution *)
(* ===================================================================== *)

Module Fetcher.
Import TileKey.

(** What the browser answers to an image request: the load fails, or the
    image arrives; [png] is then what drawing it on a canvas and calling
    [toDataURL('image/png')] gives, [None] when that throws. *)
Inductive NetOutcome :=
  | LoadError
  | Loaded (png : option string).

(** The surroundings of one resolution: Leaflet's [getTileUrl]; the answer
    to the n-th image request this file's code makes; [Date.now()]; how the
    load that the base class's [createTile] starts ends when nothing
    replaces it, and whether it ends before the cache read has settled (it
    is replaced by the [src] assigned after the read otherwise). *)
Record Env := mkEnv {
  getTileUrl : Coords -> string;
  net : nat -> NetOutcome;
  now : Z;
  base_net : NetOutcome;
  base_first : bool
}.

Inductive LogMsg :=
  | UsingCachedTile (k : string)
  | ErrorRetrievingFromCache
  | SavedTileToCache (k : string)
  | ErrorSavingTileToCache
  | NetworkErrorUsingCachedTile (k : string).

(** The two image elements a request can come from. *)
Inductive Element := TileImg | SaveImg.

(** Observable effects, in the order they happen. *)
Inductive Event :=
  | NetRequest (el : Element) (u : string)   (* src = a tile URL *)
  | ShowCached (u : string)                  (* tile.src = cachedUrl *)
  | CacheGet (storeName k : string)          (* cacheDB.get *)
  | CachePut (storeName : string) (e : DBManager.Entry)  (* cacheDB.put *)
  | OriginalOnLoad      (* the onload the base class left is run *)
  | OriginalOnError     (* the onerror the base class left is run *)
  | Done (error : bool)                      (* done(null, tile) / done(e, tile) *)
  | Log (m : LogMsg).

(** The [onload] and [onerror] properties of the tile element: as the base
    class left them (set or null), or the closures of [_loadTileAndCache]
    with what they capture. *)
Inductive LoadHandler :=
  | KeptOnLoad (present : bool)
  | SaveOnLoad (tileUrl k : string) (originalOnLoad done : bool).

Inductive ErrorHandler :=
  | KeptOnError (present : bool)
  | FallbackOnError (k : string) (originalOnError done : bool).

Record Tile := mkTile {
  src : option string;
  onload : LoadHandler;
  onerror : ErrorHandler
}.

(** [L.TileLayer.prototype.createTile.call(this, coords, done)] is Leaflet's
    code: it creates the image element, adds a load listener that calls
    [done(null, tile)] and an error listener that calls [done(e, tile)],
    assigns [tile.src = this.getTileUrl(coords)] and returns the element.
    Leaflet sets no [onload] / [onerror] property; whether the element has
    one is left open here ([options.errorTileUrl] is taken to be empty, its
    default).  The listeners were added before any property of the element
    is set below, so on an event they run first. *)
Record BaseTile := mkBaseTile {
  base_onload : bool;
  base_onerror : bool
}.

Definition of_base (b : BaseTile) (u : string) : Tile :=
  {| src := Some u; onload := KeptOnLoad (base_onload b);
     onerror := KeptOnError (base_onerror b) |}.

(** What the tile element is loading when control returns to the browser:
    nothing, the request the base class made, the [n]-th request of this
    file's code, or a data URL. *)
Inductive Pending :=
  | Idle
  | BaseLoad
  | NetLoad (n : nat)
  | DataLoad.

Record State := mkState {
  layer : Layer;
  cacheDB : option DBManager.Manager;
  browser : DBManager.Browser;
  issued : nat        (* image requests made so far by this file's code *)
}.

(** Computations thread the state and append to the trace. *)
Definition M (A : Type) : Type := State -> A * State * list Event.

Definition ret {A} (a : A) : M A := fun st => (a, st, []).
Definition bind {A B} (m : M A) (f : A -> M B) : M B := fun st =>
  let '(a, st1, t1) := m st in
  let '(b, st2, t2) := f a st1 in
  (b, st2, (t1 ++ t2)%list).
Definition emit (e : Event) : M unit := fun st => (tt, st, [e]).
Definition when (b : bool) (m : M unit) : M unit := if b then m else ret tt.

Notation "'let*' x ':=' m 'in' k" := (bind m (fun x => k))
  (at level 10, x name, m at level 100, k at level 200).
Notation "m '>>' k" := (bind m (fun _ => k))
  (at level 100, k at level 200, right associativity).

Definition trace_of {A} (r : A * State * list Event) : list Event := r.2.
Definition state_of {A} (r : A * State * list Event) : State := r.1.2.
Definition value_of {A} (r : A * State * list Event) : A := r.1.1.

Section WithEnv.
Variable E : Env.

(** [entry && entry.url]: the URL of a record that is there and whose URL
    is not the empty string. *)
Definition truthy_url (entry : option DBManager.Entry) : option string :=
  match entry with
  | Some e => if String.eqb (DBManager.url e) "" then None
              else Some (DBManager.url e)
  | None => None
  end.

Definition _getTileFromCache (k : string) : M (option string) := fun st =>
  match cacheDB st with
  | None => (None, st, [])
  | Some db =>
      let '(r, db', w') :=
        DBManager.get db (browser st) (cacheStoreName (layer st)) k in
      let st' := mkState (layer st) (Some db') w' (issued st) in
      let asked := CacheGet (cacheStoreName (layer st)) k in
      match r with
      | DBManager.Resolved entry => (truthy_url entry, st', [asked])
      | DBManager.Rejected _ =>
          (None, st', [asked; Log ErrorRetrievingFromCache])
      end
  end.

(** [img.src = ...] on a network URL: the request gets the next number. *)
Definition request (el : Element) (u : string) : M nat := fun st =>
  (issued st,
   mkState (layer st) (cacheDB st) (browser st) (S (issued st)),
   [NetRequest el u]).

(** [_saveTileToCache] up to [img.src = tileUrl]: the promise is pending on
    the new image. *)
Definition _saveTileToCache (tileUrl k : string) : M nat :=
  request SaveImg tileUrl.

(** [img.onload] / [img.onerror] of that image: how the promise settles. *)
Definition _saveTileToCache_settle (n : nat) (k : string)
  : M (DBManager.Settled unit) := fun st =>
  match net E n with
  | LoadError => (DBManager.Rejected DBManager.ImageFailed, st, [])
  | Loaded None => (DBManager.Rejected DBManager.EncodeFailed, st, [])
  | Loaded (Some dataUrl) =>
      match cacheDB st with
      | None => (DBManager.Rejected DBManager.NoCacheDB, st, [])
      | Some db =>
          let value := DBManager.mkEntry k dataUrl (now E) None in
          let '(r, db', w') :=
            DBManager.put db (browser st) (cacheStoreName (layer st)) value in
          (r, mkState (layer st) (Some db') w' (issued st),
           [CachePut (cacheStoreName (layer st)) value])
      end
  end.

Definition _loadTileAndCache (tile : Tile) (coords : Coords) (k : string)
    (done : bool) : M (Tile * Pending) := fun st =>
  let originalOnLoad :=
    match onload tile with KeptOnLoad p => p | SaveOnLoad _ _ _ _ => true end in
  let originalOnError :=
    match onerror tile with KeptOnError p => p | FallbackOnError _ _ _ => true end in
  let tileUrl := getTileUrl E coords in
  let '(n, st1, t1) := request TileImg tileUrl st in
  if (saveToCache (layer st) && bool_decide (is_Some (cacheDB st)))%bool
  then (({| src := Some tileUrl;
            onload := SaveOnLoad tileUrl k originalOnLoad done;
            onerror := FallbackOnError k originalOnError done |}, NetLoad n),
        st1, t1)
  else (({| src := Some tileUrl; onload := onload tile;
            onerror := onerror tile |}, NetLoad n), st1, t1).

(** The browser delivers a load event to the tile element: Leaflet's
    listener calls [done(null, tile)], then the [onload] property runs. *)
Definition tile_onload (done : bool) (tile : Tile) : M unit :=
  when done (emit (Done false)) >>
  match onload tile with
  | KeptOnLoad present => when present (emit OriginalOnLoad)
  | SaveOnLoad tileUrl k originalOnLoad done' =>
      let* n := _saveTileToCache tileUrl k in
      when originalOnLoad (emit OriginalOnLoad) >>
      when done' (emit (Done false)) >>
      let* r := _saveTileToCache_settle n k in
      match r with
      | DBManager.Resolved _ => emit (Log (SavedTileToCache k))
      | DBManager.Rejected _ => emit (Log ErrorSavingTileToCache)
      end
  end.

(** The browser delivers an error event to the tile element: Leaflet's
    listener calls [done(e, tile)], then the [onerror] property runs. *)
Definition tile_onerror (done : bool) (tile : Tile) : M (Tile * Pending) :=
  when done (emit (Done true)) >>
  match onerror tile with
  | KeptOnError present =>
      when present (emit OriginalOnError) >> ret (tile, Idle)
  | FallbackOnError k originalOnError done' =>
      let* cachedUrl := _getTileFromCache k in
      match cachedUrl with
      | Some u =>
          emit (Log (NetworkErrorUsingCachedTile k)) >>
          emit (ShowCached u) >>
          ret ({| src := Some u; onload := onload tile;
                  onerror := onerror tile |}, DataLoad)
      | None =>
          when originalOnError (emit OriginalOnError) >>
          when done' (emit (Done true)) >>
          ret (tile, Idle)
      end
  end.

(** The event of the load the base class started, when it comes before the
    cache read has settled: the element is still as the base class left
    it. *)
Definition base_event (done : bool) (tile : Tile) : M unit :=
  if base_first E then
    match base_net E with
    | Loaded _ => tile_onload done tile
    | LoadError => tile_onerror done tile >> ret tt
    end
  else ret tt.

(** [createTile], with the callback of [.then] on the cache read.  The
    base class's call comes first and points the element at the network
    URL.  The [.catch] after [.then] has nothing to catch here:
    [_getTileFromCache] turns a rejected read into [null], and the callback
    of [.then] only assigns [tile.src], logs, or calls [_loadTileAndCache].
    With [useCache] off the base tile is returned as it is, loading. *)
Definition createTile (base : BaseTile) (coords : Coords) (done : bool)
  : M (Tile * Pending) := fun st =>
  let tileUrl := getTileUrl E coords in
  let tile := of_base base tileUrl in
  (emit (NetRequest TileImg tileUrl) >>
   if useCache (layer st) then
     let k := _getTileKey (layer st) coords in
     let* cachedUrl := _getTileFromCache k in
     base_event done tile >>
     match cachedUrl with
     | Some u =>
         emit (ShowCached u) >>
         emit (Log (UsingCachedTile k)) >>
         ret ({| src := Some u; onload := onload tile;
                 onerror := onerror tile |}, DataLoad)
     | None => _loadTileAndCache tile coords k done
     end
   else ret (tile, BaseLoad)) st.

(** The browser finishes what the tile element is loading.  A cached data
    URL always decodes; a network load ends as the environment says. *)
Definition deliver (done : bool) (tp : Tile * Pending) : M (Tile * Pending) :=
  let '(tile, p) := tp in
  match p with
  | Idle => ret (tile, Idle)
  | DataLoad => tile_onload done tile >> ret (tile, Idle)
  | BaseLoad =>
      match base_net E with
      | Loaded _ => tile_onload done tile >> ret (tile, Idle)
      | LoadError => tile_onerror done tile
      end
  | NetLoad n =>
      match net E n with
      | Loaded _ => tile_onload done tile >> ret (tile, Idle)
      | LoadError => tile_onerror done tile
      end
  end.

(** [createTile] followed by the browser's events.  Two deliveries bring
    the tile element to rest: the first load may fail and be replaced by
    the cached image, whose load is the second. *)
Definition run_to_rest (base : BaseTile) (coords : Coords) (done : bool)
  : M (Tile * Pending) :=
  let* tp := createTile base coords done in
  let* tp1 := deliver done tp in
  deliver done tp1.

(** One single-tile resolution and the tile element it ends with. *)
Definition resolve (base : BaseTile) (coords : Coords) (done : bool)
  : M Tile :=
  let* tp2 := run_to_rest base coords done in
  ret (fst tp2).

End WithEnv.

(** The store of the layer holds the record [e] under the key [k]. *)
Definition holds (st : State) (k : string) (e : DBManager.Entry) : Prop :=
  exists db objs,
    cacheDB st = Some db
    /\ DBManager.objectStore (browser st) (DBManager.dbName db)
                             (cacheStoreName (layer st)) = Some objs
    /\ objs !! k = Some e.

(** The next read of the store goes through: the manager holds the
    connection to its database or can open it, and the next store request
    does not end in [onerror]. *)
Definition readable (st : State) : Prop :=
  exists db,
    cacheDB st = Some db
    /\ (DBManager._db db = Some (DBManager.dbName db)
        \/ (DBManager._db db = None
            /\ DBManager.indexedDB (browser st) = true
            /\ DBManager.open_error (browser st) = false))
    /\ DBManager.request_error (browser st)
                               (DBManager.requested (browser st)) = false.

(** The state after one more network request. *)
Definition bump (st : State) : State :=
  mkState (layer st) (cacheDB st) (browser st) (S (issued st)).

(** The event of a call guarded by [if (handler)]. *)
Definition opt_ev (b : bool) (e : Event) : list Event :=
  if b then [e] else [].

(** What an event on a tile element still as the base class left it adds:
    the call of [done] by Leaflet's listener, then the property. *)
Definition on_base_load (base : BaseTile) (done : bool) : list Event :=
  (opt_ev done (Done false) ++ opt_ev (base_onload base) OriginalOnLoad)%list.
Definition on_base_error (base : BaseTile) (done : bool) : list Event :=
  (opt_ev done (Done true) ++ opt_ev (base_onerror base) OriginalOnError)%list.

(** The events of the base class's load when it ends before the cache read
    has settled. *)
Definition early_events (E : Env) (base : BaseTile) (done : bool)
  : list Event :=
  if base_first E then
    match base_net E with
    | Loaded _ => on_base_load base done
    | LoadError => on_base_error base done
    end
  else [].

(** The log line after the save promise settled. *)
Definition save_log (k : string) (r : DBManager.Settled unit) : Event :=
  match r with
  | DBManager.Resolved _ => Log (SavedTileToCache k)
  | DBManager.Rejected _ => Log ErrorSavingTileToCache
  end.

(** Write-back is on: [saveToCache && cacheDB]. *)
Definition write_back (st : State) : bool :=
  (saveToCache (layer st) && bool_decide (is_Some (cacheDB st)))%bool.

(** The [cacheDB.put] calls the save path makes once it is entered: one,
    when its own request for the tile URL loads and the image encodes. *)
Definition save_puts (E : Env) (st : State) (k : string) : list Event :=
  match net E (S (issued st)) with
  | Loaded (Some png) =>
      [CachePut (cacheStoreName (layer st))
                (DBManager.mkEntry k png (now E) None)]
  | _ => []
  end.

(** Counting events. *)
Definition is_put (e : Event) : bool :=
  match e with CachePut _ _ => true | _ => false end.
Definition is_get (e : Event) : bool :=
  match e with CacheGet _ _ => true | _ => false end.
Definition is_request (e : Event) : bool :=
  match e with NetRequest _ _ => true | _ => false end.
Definition is_error (e : Event) : bool :=
  match e with OriginalOnError | Done true => true | _ => false end.
Definition is_log (e : Event) : bool :=
  match e with Log _ => true | _ => false end.
Definition count (p : Event -> bool) (t : list Event) : nat :=
  length (List.filter p t).

End Fetcher.

(* ===================================================================== *)
(** ** From a bounding box to tile coordinates *)
(* ===================================================================== *)

Module Enumerator.
Import TileKey.

(** Latitudes and longitudes are Numbers.  The projection uses [Math.log],
    [Math.tan] and [Math.cos]; it is embedded over the real numbers, which
    leaves the rounding of doubles out.  For latitudes strictly between -90
    and 90 the argument of the logarithm is positive and [_latLngToTile]
    below is the code's value; beyond, the code's row is NaN or infinite
    (see [row_kind]), and statements about rows carry the hypothesis that
    the latitude is in between. *)
Record LatLng := mkLatLng { lat : R; lng : R }.

Record LatLngBounds := mkBounds {
  getNorthEast : LatLng;
  getSouthWest : LatLng
}.

Record TileXY := mkTileXY { x : Z; y : Z }.

Definition _latLngToTile (lat lng : R) (zoom : Z) : TileXY :=
  let n := powerRZ 2 zoom in
  {| x := Zfloor ((lng + 180) / 360 * n);
     y := Zfloor ((1 - ln (tan (lat * PI / 180) + 1 / cos (lat * PI / 180))
                        / PI) / 2 * n) |}.

(** The integers a loop [for (let i = lo; i <= hi; i++)] visits. *)
Definition range (lo hi : Z) : list Z :=
  map (fun i => (lo + Z.of_nat i)%Z) (seq 0 (Z.to_nat (hi - lo + 1))).

(** The body of the loop over zoom levels, for a zoom that is not skipped. *)
Definition tiles_at_zoom (bounds : LatLngBounds) (zoom : Z) : list Coords :=
  let northEast := getNorthEast bounds in
  let southWest := getSouthWest bounds in
  let neTile := _latLngToTile (lat northEast) (lng northEast) zoom in
  let swTile := _latLngToTile (lat southWest) (lng southWest) zoom in
  let xMin := Z.min (x neTile) (x swTile) in
  let xMax := Z.max (x neTile) (x swTile) in
  let yMin := Z.min (y neTile) (y swTile) in
  let yMax := Z.max (y neTile) (y swTile) in
  flat_map (fun tx => map (fun ty => mkCoords zoom tx ty) (range yMin yMax))
           (range xMin xMax).

(** [zoomlevels] is the control's option of that name, [None] when null. *)
Definition _calculateTilesForArea (zoomlevels : option (list Z))
    (bounds : LatLngBounds) (minZoom maxZoom : Z) : list Coords :=
  let zoomLevels := default [minZoom; maxZoom] zoomlevels in
  flat_map (fun zoom =>
              if ((zoom <? minZoom) || (zoom >? maxZoom))%Z then []
              else tiles_at_zoom bounds zoom)
           zoomLevels.

(** How a call ends: it returns a value or it throws. *)
Inductive Completion (A : Type) :=
  | Returns (v : A)
  | Throws (error : string).
Arguments Returns {A} v.
Arguments Throws {A} error.

(** What [Math.log] gets in the row formula, by the sign of the cosine of
    the latitude.  The argument is (1 + sin) / cos: positive for a latitude
    strictly between -90 and 90 degrees, where the row is the integer of
    [_latLngToTile]; negative where the cosine is negative (between 90 and
    270 degrees, and so on), where [Math.log] gives NaN and the row is NaN.
    At 90 and -90 degrees themselves the cosine is zero over the reals but
    [Math.cos] of the nearest double is not: there the doubles decide (at
    -90 the row comes out infinite and the loop over [y] pushes until the
    array is full), which this embedding leaves out. *)
Inductive RowKind := NumberRow | NaNRow | EdgeRow.

Definition row_kind (lat : R) : RowKind :=
  let c := cos (lat * PI / 180) in
  if Rlt_dec 0 c then NumberRow
  else if Rlt_dec c 0 then NaNRow
  else EdgeRow.

(** The greatest length of an array: the [push] that would pass it throws a
    RangeError.  (Memory is taken to suffice for every array the language
    allows.) *)
Definition max_array_length : Z := 4294967295.

(** How the loops that push [tiles] for [bounds] end.  With the rows of
    both corners numbers, the array is returned, unless the list outgrows
    an array.  With a NaN row, [yMin] and [yMax] are NaN, the loop over [y]
    never runs and the array stays empty.  [None] where the doubles
    decide. *)
Definition pushed (bounds : LatLngBounds) (tiles : list Coords)
  : option (Completion (list Coords)) :=
  match row_kind (lat (getNorthEast bounds)),
        row_kind (lat (getSouthWest bounds)) with
  | NumberRow, NumberRow =>
      if (Z.of_nat (length tiles) <=? max_array_length)%Z
      then Some (Returns tiles)
      else Some (Throws "RangeError: Invalid array length")
  | EdgeRow, _ | _, EdgeRow => None
  | _, _ => Some (Returns [])
  end.

(** A call of [_calculateTilesForArea].  Its body has no [throw]. *)
Definition enumerate (zoomlevels : option (list Z)) (bounds : LatLngBounds)
    (minZoom maxZoom : Z) : option (Completion (list Coords)) :=
  pushed bounds (_calculateTilesForArea zoomlevels bounds minZoom maxZoom).

(** The tiles of one zoom level in an enumeration. *)
Definition at_zoom (z : Z) (tiles : list Coords) : list Coords :=
  List.filter (fun c => (cz c =? z)%Z) tiles.

(** A tile index is valid at zoom [z] when it lies in [0, 2^z). *)
Definition in_grid (c : Coords) : Prop :=
  (0 <= cx c < 2 ^ cz c)%Z /\ (0 <= cy c < 2 ^ cz c)%Z.

(** The Mercator ordinate the row formula divides by pi. *)
Definition mercator (lat : R) : R :=
  ln (tan (lat * PI / 180) + 1 / cos (lat * PI / 180)).

End Enumerator.

(* ===================================================================== *)
(** ** The bulk download *)
(* ===================================================================== *)

Module Scheduler.
Import TileKey.

(** The values [Math.round(count / total * 100)] can take. *)
Inductive Num :=
  | NaN
  | Infinity
  | Int (z : Z).

(** [Math.round] of a rational: the nearest integer, halves up. *)
Definition Math_round (q : Q) : Z := Qfloor (q + (1 # 2))%Q.

(** The percentage of the events.  The quotient is taken exactly here and
    in doubles by the source; the two agree at [count = 0] and at
    [count = total], in order and in bounds, which is what the statements
    below are about, and may be one apart where the exact value ends in a
    half. *)
Definition progress_of (count total : Z) : Num :=
  if (total =? 0)%Z then (if (count =? 0)%Z then NaN else Infinity)
  else Int (Math_round (inject_Z count / inject_Z total * 100)%Q).

(** What [this._baseLayer.fire] is called with. *)
Inductive LayerEvent :=
  | savestart (total : Z) (progress : Num)
  | saveprogress (total : Z) (progress : Num)
  | savecomplete (total : Z).

(** Where the image of one tile stands. *)
Inductive TileStatus :=
  | Waiting                               (* its batch has not started *)
  | Loading                               (* img.src is set *)
  | Storing (value : DBManager.Entry)     (* cacheDB.put is pending *)
  | Finished.                             (* count was incremented for it *)

(** The closure state of one [_saveTilesImpl] call together with the layer
    and the store it works on. *)
Record Job := mkJob {
  baseLayer : Layer;
  getTileUrl : Coords -> string;
  cacheDB : DBManager.Manager;
  browser : DBManager.Browser;
  _tilesforSave : list Coords;
  mapName : string;
  count : Z;
  status : list TileStatus;
  timer : option nat;                (* the pending setTimeout and its startIdx *)
  requests : list string;            (* img.src assignments, oldest first *)
  fired : list LayerEvent            (* events fired, oldest first *)
}.

Definition total (j : Job) : Z := Z.of_nat (length (_tilesforSave j)).

(** The callbacks the browser can deliver to a running job. *)
Inductive Callback :=
  | img_onload (i : nat) (png : option string) (now : Z)
  | img_onerror (i : nat)
  | put_settled (i : nat)
  | timeout.

Definition set_status (j : Job) (i : nat) (s : TileStatus) : Job :=
  mkJob (baseLayer j) (getTileUrl j) (cacheDB j) (browser j)
        (_tilesforSave j) (mapName j) (count j) (<[i := s]> (status j))
        (timer j) (requests j) (fired j).

(** [count++] for tile [i]. *)
Definition finish (j : Job) (i : nat) : Job :=
  mkJob (baseLayer j) (getTileUrl j) (cacheDB j) (browser j)
        (_tilesforSave j) (mapName j) (count j + 1) (<[i := Finished]> (status j))
        (timer j) (requests j) (fired j).

Definition fire (j : Job) (evs : list LayerEvent) : Job :=
  mkJob (baseLayer j) (getTileUrl j) (cacheDB j) (browser j)
        (_tilesforSave j) (mapName j) (count j) (status j)
        (timer j) (requests j) (fired j ++ evs)%list.

Definition with_store (j : Job) (db : DBManager.Manager)
    (w : DBManager.Browser) : Job :=
  mkJob (baseLayer j) (getTileUrl j) db w
        (_tilesforSave j) (mapName j) (count j) (status j)
        (timer j) (requests j) (fired j).

(** The loop of [processBatch]: an image is created for each tile of the
    batch and pointed at the tile's URL. *)
Fixpoint start_images (j : Job) (i n : nat) : Job :=
  match n with
  | O => j
  | S n' =>
      match _tilesforSave j !! i with
      | Some tile =>
          let j1 := set_status j i Loading in
          start_images
            (mkJob (baseLayer j1) (getTileUrl j1) (cacheDB j1) (browser j1)
                   (_tilesforSave j1) (mapName j1) (count j1) (status j1)
                   (timer j1) (requests j1 ++ [getTileUrl j1 tile])%list
                   (fired j1))
            (S i) n'
      | None => j
      end
  end.

Definition processBatch (startIdx batchSize : nat) (j : Job) : Job :=
  let endIdx := Nat.min (startIdx + batchSize) (length (_tilesforSave j)) in
  let j1 := start_images j startIdx (endIdx - startIdx) in
  mkJob (baseLayer j1) (getTileUrl j1) (cacheDB j1) (browser j1)
        (_tilesforSave j1) (mapName j1) (count j1) (status j1)
        (if (endIdx <? length (_tilesforSave j))%nat then Some endIdx else None)
        (requests j1) (fired j1).

(** [_saveTilesImpl(mapName)] up to the return of [processBatch(0, 10)].
    The base layer is a Leaflet layer, so [fire] is there.  Without a
    [cacheDB] the function logs an error and returns. *)
Definition _saveTilesImpl (base : Layer) (url_of : Coords -> string)
    (db : option DBManager.Manager) (w : DBManager.Browser)
    (tiles : list Coords) (name : option string) : option Job :=
  match db with
  | None => None
  | Some m =>
      let layer1 := mkLayer (urlTemplate base) (useCache base) true
                            (cacheStoreName base) (downloadOfflineTiles base)
                            (_cacheKeyPrefix base) in
      let count0 := 0%Z in
      let total0 := Z.of_nat (length tiles) in
      let progress := progress_of count0 total0 in
      let j := mkJob layer1 url_of m w tiles
                     (match name with
                      | Some s => if String.eqb s "" then "default" else s
                      | None => "default"
                      end)
                     count0 (replicate (length tiles) Waiting) None []
                     [savestart total0 progress] in
      Some (processBatch 0 10 j)
  end.

(** One callback.  [None] when the browser cannot deliver it in this state
    (no such image is loading, no such put is pending, no timer is set).
    The listeners of the layer's events are taken not to throw, so the
    [.catch] after [.then] only sees a rejected put. *)
Definition step (j : Job) (cb : Callback) : option Job :=
  match cb with
  | img_onload i png now =>
      match status j !! i, _tilesforSave j !! i with
      | Some Loading, Some tile =>
          match png with
          | None => Some (finish j i)            (* catch (e): count++ *)
          | Some dataUrl =>
              Some (set_status j i
                      (Storing (DBManager.mkEntry
                                  (tile_key (_cacheKeyPrefix (baseLayer j)) tile)
                                  dataUrl now (Some (mapName j)))))
          end
      | _, _ => None
      end
  | img_onerror i =>
      match status j !! i with
      | Some Loading => Some (finish j i)        (* count++ *)
      | _ => None
      end
  | put_settled i =>
      match status j !! i with
      | Some (Storing value) =>
          let '(r, db', w') :=
            DBManager.put (cacheDB j) (browser j)
                          (cacheStoreName (baseLayer j)) value in
          let j1 := finish (with_store j db' w') i in
          match r with
          | DBManager.Resolved _ =>
              let progress := progress_of (count j1) (total j1) in
              let j2 := fire j1 [saveprogress (total j1) progress] in
              if (count j2 =? total j2)%Z
              then Some (fire j2 [savecomplete (total j2)])
              else Some j2
          | DBManager.Rejected _ => Some j1      (* .catch: count++ *)
          end
      | _ => None
      end
  | timeout =>
      match timer j with
      | Some startIdx => Some (processBatch startIdx 10 j)
      | None => None
      end
  end.

(** A sequence of callbacks, oldest first. *)
Fixpoint run (j : Job) (cbs : list Callback) : option Job :=
  match cbs with
  | [] => Some j
  | cb :: rest =>
      match step j cb with
      | Some j' => run j' rest
      | None => None
      end
  end.

(** Tiles whose [count++] has happened. *)
Definition is_finished (s : TileStatus) : bool :=
  match s with Finished => true | _ => false end.
Fixpoint finished (l : list TileStatus) : Z :=
  match l with
  | [] => 0
  | s :: r => ((if is_finished s then 1 else 0) + finished r)%Z
  end.

(** What holds of a job at every moment: one status per tile; [count] is
    the number of finished tiles; the tiles from the pending timer's start
    index on are still waiting; and once [savecomplete] was fired, [count]
    equals the total and that event is the last one fired, and the only
    one of its kind. *)
Definition is_complete (e : LayerEvent) : bool :=
  match e with savecomplete _ => true | _ => false end.

Record Invariant (j : Job) : Prop := mkInvariant {
  inv_length : length (status j) = length (_tilesforSave j);
  inv_count : count j = finished (status j);
  inv_timer : forall s i, timer j = Some s -> (s <= i)%nat ->
                (i < length (status j))%nat -> status j !! i = Some Waiting;
  inv_complete : List.existsb is_complete (fired j) = true ->
                 count j = total j
                 /\ exists pre, fired j = (pre ++ [savecomplete (total j)])%list
                              /\ List.existsb is_complete pre = false
}.


End Scheduler.

(* ===================================================================== *)
(** ** Sample layers, stores and networks *)
(* ===================================================================== *)

Module Examples.
Import TileKey Fetcher.

Definition osm : string := "https://tile.openstreetmap.org/{z}/{x}/{y}.png".

Definition tile_url (c : Coords) : string :=
  "https://tile.openstreetmap.org/" +:+ pretty (cz c) +:+ "/"
    +:+ pretty (cx c) +:+ "/" +:+ pretty (cy c) +:+ ".png".

(** A layer that reads the cache and writes back, and one that only reads. *)
Definition caching_layer : Layer :=
  initialize osm (mkCtorOptions (Some true) (Some true) None None).
Definition reading_layer : Layer :=
  initialize osm (mkCtorOptions (Some true) None None None).

Definition fresh_browser : DBManager.Browser :=
  DBManager.mkBrowser true ∅ false (fun _ => false) 0 0.
Definition browser_without_indexedDB : DBManager.Browser :=
  DBManager.mkBrowser false ∅ false (fun _ => false) 0 0.

Definition png : string := "data:image/png;base64,iVBORw0KGgo=".

(** Every request loads; no request loads; only the tile element's request
    loads (the anonymous image of the save path is refused).  In all three
    the cache read settles before the load the base class started ends. *)
Definition online : Env :=
  mkEnv tile_url (fun _ => Loaded (Some png)) 1700000000000
        (Loaded (Some png)) false.
Definition offline : Env :=
  mkEnv tile_url (fun _ => LoadError) 1700000000001 LoadError false.
Definition display_only : Env :=
  mkEnv tile_url (fun n => match n with O => Loaded (Some png) | _ => LoadError end)
        1700000000002 (Loaded (Some png)) false.

(** The network is down and the load the base class started has failed
    before the cache read settles. *)
Definition offline_at_once : Env :=
  mkEnv tile_url (fun _ => LoadError) 1700000000003 LoadError true.

Definition cold : State :=
  mkState caching_layer (Some (DBManager.initialize None)) fresh_browser 0.
Definition cold_reading : State :=
  mkState reading_layer (Some (DBManager.initialize None)) fresh_browser 0.

Definition plain_tile : BaseTile := mkBaseTile false false.
Definition tile_1_0_1 : Coords := mkCoords 1 0 1.

(** The state after the tile was resolved once with the network up: the
    store holds its record. *)
Definition warm : State :=
  state_of (resolve online plain_tile tile_1_0_1 true cold).

(** The same store, but its next request ends in [onerror]. *)
Definition warm_flaky : State :=
  mkState (layer warm) (cacheDB warm)
          (DBManager.mkBrowser
             (DBManager.indexedDB (browser warm))
             (DBManager.databases (browser warm))
             (DBManager.open_error (browser warm))
             (fun n => Nat.eqb n (DBManager.requested (browser warm)))
             (DBManager.opened (browser warm))
             (DBManager.requested (browser warm)))
          (issued warm).

(** Tiles for the bulk download: the zoom-0 tile and the four zoom-1 tiles. *)
Definition world_0_1 : list Coords :=
  [mkCoords 0 0 0; mkCoords 1 0 0; mkCoords 1 0 1; mkCoords 1 1 0;
   mkCoords 1 1 1].

(** The callbacks of a tile whose image loads and whose record is stored. *)
Definition stored (i : nat) : list Scheduler.Callback :=
  [Scheduler.img_onload i (Some png) 1700000000000; Scheduler.put_settled i].

(** A bulk download of [tiles] followed by the callbacks [cbs]. *)
Definition download (tiles : list Coords) (cbs : list Scheduler.Callback)
  : option Scheduler.Job :=
  match Scheduler._saveTilesImpl caching_layer tile_url
          (Some (DBManager.initialize None)) fresh_browser tiles None with
  | Some j0 => Scheduler.run j0 cbs
  | None => None
  end.

(** The job of a download that was started, and the job it has become after
    some callbacks; the job without tiles stands in when there is none. *)
Definition no_job : Scheduler.Job :=
  Scheduler.mkJob caching_layer tile_url (DBManager.initialize None)
                  fresh_browser [] "default" 0 [] None [] [].
Definition started (tiles : list Coords) : Scheduler.Job :=
  default no_job (Scheduler._saveTilesImpl caching_layer tile_url
                    (Some (DBManager.initialize None)) fresh_browser tiles None).
Definition after (tiles : list Coords) (cbs : list Scheduler.Callback)
  : Scheduler.Job :=
  default no_job (Scheduler.run (started tiles) cbs).

(** The whole world; a box reaching past the Mercator limit, to 85.1
    degrees north and south. *)
Definition world_bounds : Enumerator.LatLngBounds :=
  Enumerator.mkBounds (Enumerator.mkLatLng 85.0511287798 180)
                      (Enumerator.mkLatLng (-85.0511287798) (-180)).
Definition polar_bounds : Enumerator.LatLngBounds :=
  Enumerator.mkBounds (Enumerator.mkLatLng 85.1 10)
                      (Enumerator.mkLatLng (-85.1) (-10)).

(** The box of the one point at latitude 0, longitude 0. *)
Definition origin_bounds : Enumerator.LatLngBounds :=
  Enumerator.mkBounds (Enumerator.mkLatLng 0 0) (Enumerator.mkLatLng 0 0).

End Examples.

(* ===================================================================== *)
(** ** Records, rectangles and batches; the page and the control *)
(* ===================================================================== *)

Module Records.
Import DBManager.

(** The record stored under [k] in the object store [storeName] of the
    database [db], if that database and that store exist. *)
Definition record (w : Browser) (db storeName k : string) : option Entry :=
  objectStore w db storeName ≫= fun objs => objs !! k.

(** Every object store of every database is named 'offline_tiles': what
    holds when the databases were all created by [open]. *)
Definition only_offline_tiles (w : Browser) : Prop :=
  forall db stores s,
    databases w !! db = Some stores -> is_Some (stores !! s) ->
    s = "offline_tiles".

(** The manager holds no connection, or the one to its own database. *)
Definition own_connection (this : Manager) : Prop :=
  _db this = None \/ _db this = Some (dbName this).

End Records.

Module Area.
Import TileKey Enumerator.

#[global] Instance Coords_eq_dec : EqDecision Coords.
Proof. solve_decision. Defined.

(** The tile [c] lies in the rectangle the two corners of [bounds] span at
    the zoom level of [c]. *)
Definition in_rectangle (bounds : LatLngBounds) (c : Coords) : Prop :=
  let ne := _latLngToTile (lat (getNorthEast bounds))
                          (lng (getNorthEast bounds)) (cz c) in
  let sw := _latLngToTile (lat (getSouthWest bounds))
                          (lng (getSouthWest bounds)) (cz c) in
  (Z.min (x ne) (x sw) <= cx c <= Z.max (x ne) (x sw))%Z
  /\ (Z.min (y ne) (y sw) <= cy c <= Z.max (y ne) (y sw))%Z.

(** The tile of a point. *)
Definition tile_of (la lo : R) (zoom : Z) : Coords :=
  mkCoords zoom (x (_latLngToTile la lo zoom)) (y (_latLngToTile la lo zoom)).

End Area.

Module Samples.
Import TileKey Fetcher.

(** A layer that asks for an object store of its own. *)
Definition named_store_layer : Layer :=
  initialize Examples.osm
    (mkCtorOptions (Some true) (Some true) (Some "tiles") None).
Definition cold_named_store : State :=
  mkState named_store_layer (Some (DBManager.initialize None))
          Examples.fresh_browser 0.

(** Twelve tiles of one row at zoom 4. *)
Definition row_of_twelve : list Coords :=
  map (fun i => mkCoords 4 (Z.of_nat i) 0) (seq 0 12).

End Samples.

Module Batches.
Import TileKey Scheduler.

Definition is_timeout (cb : Callback) : bool :=
  match cb with timeout => true | _ => false end.

(** How many tiles have had their image created: all of them once no timer
    is pending, and those before the timer's start index otherwise. *)
Definition started_tiles (j : Job) : nat :=
  match timer j with
  | Some s => s
  | None => length (_tilesforSave j)
  end.

(** The percentages of the [saveprogress] events, oldest first. *)
Definition progress_values (evs : list LayerEvent) : list Z :=
  flat_map (fun e => match e with
                     | saveprogress _ (Int p) => [p]
                     | _ => []
                     end) evs.

(** The total an event carries. *)
Definition total_of (e : LayerEvent) : Z :=
  match e with
  | savestart t _ | saveprogress t _ | savecomplete t => t
  end.

(** A list of integers that never goes down. *)
Fixpoint ascending (l : list Z) : Prop :=
  match l with
  | [] => True
  | p :: rest => Forall (fun q => (p <= q)%Z) rest /\ ascending rest
  end.

(** [Math.round(count / total * 100)] by integer division. *)
Definition percent (count total : Z) : Z := (200 * count + total) / (2 * total).

(** A record a pending [put] is about to store belongs to its tile. *)
Definition stores_own_tile (j : Job) : Prop :=
  forall i value,
    status j !! i = Some (Storing value) ->
    exists tile,
      _tilesforSave j !! i = Some tile
      /\ DBManager.key value = tile_key (_cacheKeyPrefix (baseLayer j)) tile
      /\ DBManager.mapName value = Some (mapName j).

(** Where the batches stand after [k] timeouts. *)
Record Batched (url_of : Coords -> string) (tiles : list Coords) (k : nat)
    (j : Job) : Prop := mkBatched {
  bat_url : getTileUrl j = url_of;
  bat_tiles : _tilesforSave j = tiles;
  bat_started : started_tiles j = Nat.min (10 * S k) (length tiles);
  bat_timer : forall s, timer j = Some s -> (s < length tiles)%nat;
  bat_requests : requests j = map url_of (take (started_tiles j) tiles)
}.

(** What the events fired so far show: one total, percentages that never
    go down and never pass the share of finished tiles. *)
Record Progressing (j : Job) : Prop := mkProgressing {
  prog_total : Forall (fun e => total_of e = total j) (fired j);
  prog_ascending : ascending (progress_values (fired j));
  prog_bound : Forall (fun p => (0 <= p <= percent (count j) (total j))%Z)
                      (progress_values (fired j))
}.

End Batches.

Module Toggle.
Import TileKey Enumerator.

(** [latLngToTile] of map_layer_toggle.js: the same formula as the
    control's [_latLngToTile], written out a second time in the source; as
    there, it is the code's value for latitudes strictly between -90 and
    90 degrees. *)
Definition latLngToTile (lat lng : R) (zoom : Z) : TileXY :=
  let n := powerRZ 2 zoom in
  {| x := Zfloor ((lng + 180) / 360 * n);
     y := Zfloor ((1 - ln (tan (lat * PI / 180) + 1 / cos (lat * PI / 180))
                        / PI) / 2 * n) |}.

Record TileRange := mkTileRange { xMin : Z; xMax : Z; yMin : Z; yMax : Z }.

(** The first lines of the loop body over [z], the same in
    [downloadCurrentMapArea] and in [downloadLayerTiles]: the tiles of the
    north-west and the south-east corner and the range they span. *)
Definition tile_range (bounds : LatLngBounds) (z : Z) : TileRange :=
  let northEast := getNorthEast bounds in
  let southWest := getSouthWest bounds in
  let nwTile := latLngToTile (lat northEast) (lng southWest) z in
  let seTile := latLngToTile (lat southWest) (lng northEast) z in
  {| xMin := Z.min (x nwTile) (x seTile);
     xMax := Z.max (x nwTile) (x seTile);
     yMin := Z.min (y nwTile) (y seTile);
     yMax := Z.max (y nwTile) (y seTile) |}.

(** What one pass of the loop of [downloadCurrentMapArea] adds to
    [tilesCount], and the loop. *)
Definition tiles_in (bounds : LatLngBounds) (z : Z) : Z :=
  let r := tile_range bounds z in
  ((xMax r - xMin r + 1) * (yMax r - yMin r + 1))%Z.

Definition count_tiles (bounds : LatLngBounds) (minZoom maxZoom : Z) : Z :=
  fold_left (fun tilesCount z => (tilesCount + tiles_in bounds z)%Z)
            (range minZoom maxZoom) 0%Z.

Inductive LayerId := satelliteLayer | streetLayer.

(** A pending [setTimeout]: the one [downloadLayerTiles] sets for a tile
    (10 ms), or the one that hides the progress box (500 ms). *)
Inductive Timer :=
  | tile_timer (layer : LayerId) (tile : Coords)
  | hide_timer.

(** [downloadLayerTiles]: one timer per tile, in the order of the loops.
    [level_timers] is one pass of the loop over [z]. *)
Definition level_timers (layer : LayerId) (bounds : LatLngBounds) (z : Z)
  : list Timer :=
  let r := tile_range bounds z in
  flat_map (fun tx => map (fun ty => tile_timer layer (mkCoords z tx ty))
                          (range (yMin r) (yMax r)))
           (range (xMin r) (xMax r)).

Definition downloadLayerTiles (layer : LayerId) (bounds : LatLngBounds)
    (minZoom maxZoom : Z) : list Timer :=
  flat_map (level_timers layer bounds) (range minZoom maxZoom).

(** The variables the closures of one [downloadCurrentMapArea] call share,
    the parts of the page they write, and the timers that are pending. *)
Record Page := mkPage {
  bounds : LatLngBounds;
  minZoom : Z;
  maxZoom : Z;
  tilesCount : Z;
  downloadedTiles : Z;
  shown : bool;        (* progressContainer.style.display is 'block' *)
  width : Q;           (* progressBar.style.width: the Number before '%' *)
  text : Z;            (* progressText.textContent: the Number before '%' *)
  alerts : nat;        (* calls of alert *)
  pending : list Timer
}.

(** [bounds] and [zoom] are what [window.map] answers; [width0] and [text0]
    are what the progress bar showed before.  The three elements of the
    progress box are taken to be in the page. *)
Definition downloadCurrentMapArea (b : LatLngBounds) (zoom : Z)
    (width0 : Q) (text0 : Z) : Page :=
  let minZoom := Z.max (zoom - 2) 0 in
  let maxZoom := Z.min (zoom + 2) 19 in
  let tilesCount := count_tiles b minZoom maxZoom in
  mkPage b minZoom maxZoom tilesCount 0 true width0 text0 0
         (downloadLayerTiles satelliteLayer b minZoom maxZoom).

(** A count as a Number: a double, which holds every integer from 0 to
    2^53 exactly. *)
Definition Number_of_count (z : Z) : PrimFloat.float :=
  PrimFloat.of_uint63 (Uint63.of_Z z).

(** The rational a finite double is.  (A quotient of positive counts is
    finite; zero stands in for NaN and the infinities.) *)
Definition rational_of (d : PrimFloat.float) : Q :=
  match FloatOps.Prim2SF d with
  | SpecFloat.S754_finite s m e =>
      let v := (inject_Z (Z.pos m) * Qpower 2 e)%Q in
      if s then (- v)%Q else v
  | _ => 0%Q
  end.

(** The first three statements of both progress callbacks, with
    [progress = 1]: the quotient and the product are those of doubles, and
    [Math.round] is taken of the double.  (With [tilesCount = 0] no timer
    is set, so the quotient is never taken with a zero divisor.) *)
Definition show_progress (p : Page) (rest : list Timer) : Page :=
  let downloaded := (downloadedTiles p + 1)%Z in
  let totalProgress :=
    PrimFloat.mul
      (PrimFloat.div (Number_of_count downloaded)
                     (Number_of_count (tilesCount p * 2)))
      (Number_of_count 100) in
  mkPage (bounds p) (minZoom p) (maxZoom p) (tilesCount p) downloaded
         (shown p) (rational_of totalProgress)
         (Scheduler.Math_round (rational_of totalProgress))
         (alerts p) rest.

Definition schedule (p : Page) (timers : list Timer) : Page :=
  mkPage (bounds p) (minZoom p) (maxZoom p) (tilesCount p) (downloadedTiles p)
         (shown p) (width p) (text p) (alerts p) (pending p ++ timers).

(** The [i]-th pending timer fires; [None] when there is none. *)
Definition fire (i : nat) (p : Page) : option Page :=
  match pending p !! i with
  | None => None
  | Some t =>
      let rest := delete i (pending p) in
      match t with
      | tile_timer satelliteLayer _ =>
          let p1 := show_progress p rest in
          if (tilesCount p1 <=? downloadedTiles p1)%Z
          then Some (schedule p1 (downloadLayerTiles streetLayer (bounds p1)
                                    (minZoom p1) (maxZoom p1)))
          else Some p1
      | tile_timer streetLayer _ =>
          let p1 := show_progress p rest in
          if (tilesCount p1 * 2 <=? downloadedTiles p1)%Z
          then Some (schedule p1 [hide_timer])
          else Some p1
      | hide_timer =>
          Some (mkPage (bounds p) (minZoom p) (maxZoom p) (tilesCount p)
                       (downloadedTiles p) false 0 0 (S (alerts p)) rest)
      end
  end.

(** Timers fire one after the other; each step names the pending timer
    that fires. *)
Fixpoint run (p : Page) (steps : list nat) : option Page :=
  match steps with
  | [] => Some p
  | i :: rest =>
      match fire i p with
      | Some p' => run p' rest
      | None => None
      end
  end.

Definition tile_of_timer (t : Timer) : option Coords :=
  match t with
  | tile_timer _ c => Some c
  | hide_timer => None
  end.

Definition is_tile_timer (layer : LayerId) (t : Timer) : Prop :=
  match t with
  | tile_timer l _ => l = layer
  | hide_timer => False
  end.

(** The tiles a list of timers stands for, in order. *)
Definition tiles_of (timers : list Timer) : list Coords :=
  flat_map (fun t => match t with
                     | tile_timer _ c => [c]
                     | hide_timer => []
                     end) timers.

(** Where the download stands after [k] timers have fired, [n] being the
    number of tiles of one layer. *)
Record Stage (b : LatLngBounds) (lo hi n k : Z) (p : Page) : Prop := mkStage {
  stage_bounds : bounds p = b;
  stage_minZoom : minZoom p = lo;
  stage_maxZoom : maxZoom p = hi;
  stage_count : tilesCount p = n;
  stage_range : (0 <= k <= 2 * n + 1)%Z;
  stage_downloaded : downloadedTiles p = Z.min k (2 * n);
  stage_alerts : alerts p = if (k =? 2 * n + 1)%Z then 1%nat else 0%nat;
  stage_shown : shown p = negb (k =? 2 * n + 1)%Z;
  stage_satellite :
    (k < n)%Z ->
    Forall (is_tile_timer satelliteLayer) (pending p)
    /\ Z.of_nat (length (pending p)) = (n - k)%Z;
  stage_street :
    (n <= k < 2 * n)%Z ->
    Forall (is_tile_timer streetLayer) (pending p)
    /\ Z.of_nat (length (pending p)) = (2 * n - k)%Z;
  stage_hide : k = (2 * n)%Z -> pending p = [hide_timer];
  stage_done : k = (2 * n + 1)%Z -> pending p = [];
  stage_reset : k = (2 * n + 1)%Z -> width p = 0%Q /\ text p = 0%Z
}.

End Toggle.

Module Control.
Import TileKey Enumerator.

(** What the map the control was added to answers. *)
Record Map := mkMap { getBounds : LatLngBounds; getZoom : Z }.

(** The options of [L.Control.SaveTiles] that the code reads, after
    [L.setOptions] merged the given ones over the defaults; a null or absent
    option is [None], a callback option is [true] when a function is given. *)
Record Options := mkOptions {
  maxZoom : Z;
  bounds : option LatLngBounds;
  confirm : bool;
  confirmRemoval : bool;
  zoomlevels : option (list Z);
  dbName : option string
}.

Definition default_options : Options :=
  mkOptions 19 None false false None (Some "leaflet_offline_tiles").

(** [options.cacheDB] of the base layer: null, a manager the layer was
    given, or the very object the control holds in [_dbManager]. *)
Inductive LayerDB :=
  | NoDB
  | OwnDB (m : DBManager.Manager)
  | ControlDB.

(** What the control's methods say and fire. *)
Inductive Effect :=
  | LogDatabaseOpened           (* console.log in openDB *)
  | LogErrorOpeningBeforeSave   (* console.error in _saveTiles *)
  | AlertNoStorage              (* alert in _saveTiles *)
  | LogErrorOpeningBeforeRemove (* console.error in _rmTiles *)
  | AlertNoAccess               (* alert in _rmTiles *)
  | LogNoCacheDBForSaving       (* console.error in _saveTilesImpl *)
  | LogNoCacheDBForRemoving     (* console.error in _rmTilesImpl *)
  | LogErrorClearing            (* console.error in _rmTilesImpl *)
  | CallConfirm                 (* options.confirm(this, _saveTilesImpl) *)
  | CallConfirmRemoval          (* options.confirmRemoval(_rmTilesImpl) *)
  | FireRemoveComplete.         (* _baseLayer.fire('removecomplete') *)

(** The base layer (absent when the control was built without one), its
    [getTileUrl], the browser's databases, and what was said so far. *)
Record World := mkWorld {
  baseLayer : option Layer;
  layerDB : LayerDB;
  getTileUrl : Coords -> string;
  browser : DBManager.Browser;
  effects : list Effect
}.

Record SaveTiles := mkSaveTiles {
  options : Options;
  _dbManager : option DBManager.Manager;
  _tilesforSave : option (list Coords);
  _map : option Map
}.

(** [initialize]; [onAdd] for what it keeps of the map. *)
Definition initialize (opts : Options) : SaveTiles :=
  mkSaveTiles opts None None None.

Definition onAdd (map : Map) (this : SaveTiles) : SaveTiles :=
  mkSaveTiles (options this) (_dbManager this) (_tilesforSave this) (Some map).

Definition say (w : World) (e : list Effect) : World :=
  mkWorld (baseLayer w) (layerDB w) (getTileUrl w) (browser w)
          (effects w ++ e).

(** The manager [_baseLayer.options.cacheDB] denotes. *)
Definition layer_manager (this : SaveTiles) (w : World)
  : option DBManager.Manager :=
  match layerDB w with
  | NoDB => None
  | OwnDB m => Some m
  | ControlDB => _dbManager this
  end.

(** That manager after one of its methods ran. *)
Definition set_layer_manager (this : SaveTiles) (w : World)
    (m : DBManager.Manager) (b : DBManager.Browser) : SaveTiles * World :=
  match layerDB w with
  | ControlDB =>
      (mkSaveTiles (options this) (Some m) (_tilesforSave this) (_map this),
       mkWorld (baseLayer w) ControlDB (getTileUrl w) b (effects w))
  | _ =>
      (this, mkWorld (baseLayer w) (OwnDB m) (getTileUrl w) b (effects w))
  end.

Definition openDB (this : SaveTiles) (w : World)
  : DBManager.Settled string * SaveTiles * World :=
  let '(m, w1) :=
    match _dbManager this with
    | Some m => (m, w)
    | None =>
        (DBManager.initialize (dbName (options this)),
         match baseLayer w, layerDB w with
         | Some _, NoDB =>
             mkWorld (baseLayer w) ControlDB (getTileUrl w) (browser w)
                     (effects w)
         | _, _ => w
         end)
    end in
  let '(r, m', b') := DBManager.open m (browser w1) in
  let this' := mkSaveTiles (options this) (Some m') (_tilesforSave this)
                           (_map this) in
  let w2 := mkWorld (baseLayer w1) (layerDB w1) (getTileUrl w1) b' (effects w1) in
  match r with
  | DBManager.Resolved db =>
      (DBManager.Resolved db, this', say w2 [LogDatabaseOpened])
  | DBManager.Rejected reason => (DBManager.Rejected reason, this', w2)
  end.

(** [Math.min(...l)] and [Math.max(...l)]; [None] is the infinity they give
    for an empty array. *)
Definition Math_min (l : list Z) : option Z :=
  match l with
  | [] => None
  | z :: rest => Some (fold_left Z.min rest z)
  end.
Definition Math_max (l : list Z) : option Z :=
  match l with
  | [] => None
  | z :: rest => Some (fold_left Z.max rest z)
  end.

(** How a click on 'Save tiles' ends. *)
Inductive SaveOutcome :=
  | SaveAlerted                    (* the catch branch ran *)
  | SaveAwaitsConfirm              (* options.confirm was handed control *)
  | SaveWithoutCacheDB             (* _saveTilesImpl returned at its guard *)
  | SaveStarted (j : Scheduler.Job).

(** [_saveTilesImpl()] as the control calls it: on the base layer's fields,
    [getTileUrl] and manager.  A control without base layer throws at
    [this._baseLayer.options]. *)
Definition saveTilesImpl_call (this : SaveTiles) (w : World)
    (tiles : list Coords) : option (option Scheduler.Job) :=
  match baseLayer w with
  | None => None
  | Some layer =>
      Some (Scheduler._saveTilesImpl layer (getTileUrl w)
              (layer_manager this w) (browser w) tiles None)
  end.

(** [this.options.bounds || this._map.getBounds()]; [None] when the call
    throws because [this._map] is undefined. *)
Definition save_bounds (this : SaveTiles) : option LatLngBounds :=
  match bounds (options this) with
  | Some b => Some b
  | None => getBounds <$> _map this
  end.

(** The tiles the [then] callback of [_saveTiles] computes; [None] when it
    throws because [this._map] is undefined where it is needed.  With an
    empty array of zoom levels the bounds are infinite and the loop of
    [_calculateTilesForArea] runs over nothing. *)
Definition tiles_to_save (this : SaveTiles) : option (list Coords) :=
  let opts := options this in
  match save_bounds this with
  | None => None
  | Some b =>
      match zoomlevels opts with
      | Some zs =>
          match Math_min zs, Math_max zs with
          | Some minZoom, Some maxZoom =>
              Some (_calculateTilesForArea (Some zs) b minZoom maxZoom)
          | _, _ => Some []
          end
      | None =>
          match _map this with
          | Some map =>
              Some (_calculateTilesForArea None b (getZoom map) (maxZoom opts))
          | None => None
          end
      end
  end.

Definition with_saveToCache (w : World) : World :=
  mkWorld (match baseLayer w with
           | Some l => Some (mkLayer (urlTemplate l) (useCache l) true
                                     (cacheStoreName l) (downloadOfflineTiles l)
                                     (_cacheKeyPrefix l))
           | None => None
           end)
          (layerDB w) (getTileUrl w) (browser w) (effects w).

(** How the first four statements of the [then] callback of [_saveTiles]
    end: with the array [_calculateTilesForArea] returned, or with what was
    thrown, by [this._map.getBounds()] or [this._map.getZoom()] on a control
    that is on no map, or by the [push] that outgrows an array.  [None]
    where the doubles decide (see [pushed]). *)
Definition calculated (this : SaveTiles) : option (Completion (list Coords)) :=
  match save_bounds this, tiles_to_save this with
  | Some b, Some tiles => pushed b tiles
  | _, _ => Some (Throws "TypeError: this._map is undefined")
  end.

(** A click on 'Save tiles', up to the first batch of [_saveTilesImpl].
    Whatever the [then] callback throws, the [catch] callback reports as a
    database that could not be opened; [_tilesforSave] is assigned only when
    the array was returned. *)
Definition _saveTiles (this : SaveTiles) (w : World)
  : option (SaveOutcome * SaveTiles * World) :=
  let '(r, this1, w1) := openDB this w in
  let failed := say w1 [LogErrorOpeningBeforeSave; AlertNoStorage] in
  match r with
  | DBManager.Rejected _ => Some (SaveAlerted, this1, failed)
  | DBManager.Resolved _ =>
      match calculated this1 with
      | None => None
      | Some (Throws _) => Some (SaveAlerted, this1, failed)
      | Some (Returns tiles) =>
          let this2 := mkSaveTiles (options this1) (_dbManager this1)
                                   (Some tiles) (_map this1) in
          if confirm (options this1)
          then Some (SaveAwaitsConfirm, this2, say w1 [CallConfirm])
          else
            match saveTilesImpl_call this2 w1 tiles with
            | None => Some (SaveAlerted, this2, failed)
            | Some None =>
                Some (SaveWithoutCacheDB, this2,
                      say w1 [LogNoCacheDBForSaving])
            | Some (Some j) =>
                Some (SaveStarted j, this2, with_saveToCache w1)
            end
      end
  end.

(** How a click on 'Remove tiles' ends. *)
Inductive RemoveOutcome :=
  | RemoveAlerted
  | RemoveAwaitsConfirm
  | RemoveWithoutCacheDB
  | RemoveFailed (reason : DBManager.Reason)
  | Removed.

Definition _rmTilesImpl (this : SaveTiles) (w : World)
  : option (RemoveOutcome * SaveTiles * World) :=
  match baseLayer w with
  | None => None
  | Some layer =>
      match layer_manager this w with
      | None =>
          Some (RemoveWithoutCacheDB, this, say w [LogNoCacheDBForRemoving])
      | Some m =>
          let '(r, m', b') :=
            DBManager.clear m (browser w) (cacheStoreName layer) in
          let '(this', w') := set_layer_manager this w m' b' in
          match r with
          | DBManager.Resolved _ =>
              Some (Removed, this', say w' [FireRemoveComplete])
          | DBManager.Rejected reason =>
              Some (RemoveFailed reason, this', say w' [LogErrorClearing])
          end
      end
  end.

Definition _rmTiles (this : SaveTiles) (w : World)
  : RemoveOutcome * SaveTiles * World :=
  let '(r, this1, w1) := openDB this w in
  let failed := say w1 [LogErrorOpeningBeforeRemove; AlertNoAccess] in
  match r with
  | DBManager.Rejected _ => (RemoveAlerted, this1, failed)
  | DBManager.Resolved _ =>
      if confirmRemoval (options this1)
      then (RemoveAwaitsConfirm, this1, say w1 [CallConfirmRemoval])
      else
        match _rmTilesImpl this1 w1 with
        | None => (RemoveAlerted, this1, failed)
        | Some out => out
        end
  end.

(** The state [createTile] of the base layer runs in. *)
Definition fetcher_state (this : SaveTiles) (w : World) (layer : Layer)
    (issued : nat) : Fetcher.State :=
  Fetcher.mkState layer (layer_manager this w) (browser w) issued.

(** A control as [L.control.savetiles(layer)] builds it and a page where
    the layer has no [cacheDB] yet; the same control on a map showing the
    whole world at zoom 1; a control for the point (0, 0) at zoom 1. *)
Definition new_control : SaveTiles := initialize default_options.
Definition new_page : World :=
  mkWorld (Some Examples.caching_layer) NoDB Examples.tile_url
          Examples.fresh_browser [].
Definition page_without_indexedDB : World :=
  mkWorld (Some Examples.caching_layer) NoDB Examples.tile_url
          Examples.browser_without_indexedDB [].
Definition world_map : Map := mkMap Examples.world_bounds 1.
Definition control_on_map : SaveTiles := onAdd world_map new_control.
Definition control_of_origin : SaveTiles :=
  initialize (mkOptions 19 (Some Examples.origin_bounds) false false
                        (Some [1%Z]) (Some "leaflet_offline_tiles")).

End Control.

(* ===================================================================== *)
(** * Properties *)
(* ===================================================================== *)

(** ** Tile keys are injective *)

Section KeyFacts.
Import TileKey.

Lemma append_nil (t : string) : "" +:+ t = t.
Proof. reflexivity. Qed.

Lemma append_cons (a : ascii) (s t : string) :
  String a s +:+ t = String a (s +:+ t).
Proof. reflexivity. Qed.

Lemma occurs_app c s t :
  occurs c (s +:+ t) = (occurs c s || occurs c t)%bool.
Proof.
  induction s as [|a s IH]; [done|].
  rewrite append_cons. simpl. rewrite IH. by destruct (Ascii.eqb a c).
Qed.

(** The digits [pretty] produces are never underscores. *)
Lemma pretty_N_char_not_underscore n : Ascii.eqb (pretty_N_char n) "_" = false.
Proof. unfold pretty_N_char. by repeat case_match. Qed.

Lemma pretty_N_go_occurs x s :
  occurs "_" (pretty_N_go x s) = occurs "_" s.
Proof.
  revert s. induction (N.lt_wf_0 x) as [x _ IH]; intros s.
  destruct (decide (x = 0)%N) as [->|Hx].
  - by rewrite pretty_N_go_0.
  - rewrite pretty_N_go_step by lia.
    rewrite IH by (apply N.div_lt; lia).
    simpl. by rewrite pretty_N_char_not_underscore.
Qed.

Lemma pretty_N_no_underscore (n : N) : occurs "_" (pretty n) = false.
Proof.
  unfold pretty, pretty_N. case_decide; [done|].
  by rewrite pretty_N_go_occurs.
Qed.

Lemma pretty_Z_no_underscore (z : Z) : occurs "_" (pretty z) = false.
Proof.
  destruct z as [|p|p]; unfold pretty, pretty_Z; [done| |].
  - apply pretty_N_no_underscore.
  - rewrite occurs_app. simpl. apply pretty_N_no_underscore.
Qed.

(** Splitting at the last underscore is unambiguous. *)
Lemma last_underscore_inj s1 s2 t1 t2 :
  occurs "_" t1 = false -> occurs "_" t2 = false ->
  s1 +:+ "_" +:+ t1 = s2 +:+ "_" +:+ t2 ->
  s1 = s2 /\ t1 = t2.
Proof.
  intros H1 H2. revert s2.
  induction s1 as [|a s1 IH]; intros [|b s2] Heq;
    rewrite ?append_cons, ?append_nil in Heq.
  - by injection Heq.
  - injection Heq as _ Ht. rewrite Ht, occurs_app in H1.
    simpl in H1.
    by rewrite orb_true_r in H1.
  - injection Heq as _ Ht. rewrite <- Ht, occurs_app in H2.
    simpl in H2.
    by rewrite orb_true_r in H2.
  - injection Heq as Hab Ht. destruct (IH _ Ht) as [-> ->]. by subst.
Qed.

Lemma append_assoc (s t u : string) : s +:+ t +:+ u = (s +:+ t) +:+ u.
Proof.
  induction s as [|c s IH]; [done|].
  change (String c (s +:+ t +:+ u) = String c ((s +:+ t) +:+ u)).
  by rewrite IH.
Qed.

Lemma append_assoc_sep (p a b : string) :
  p +:+ "_" +:+ a +:+ "_" +:+ b = (p +:+ "_" +:+ a) +:+ "_" +:+ b.
Proof. by rewrite (append_assoc "_" a), (append_assoc p). Qed.

Lemma tile_key_inj p1 p2 c1 c2 :
  tile_key p1 c1 = tile_key p2 c2 -> p1 = p2 /\ c1 = c2.
Proof.
  destruct c1 as [z1 x1 y1], c2 as [z2 x2 y2]. unfold tile_key; simpl.
  intros H.
  rewrite (append_assoc_sep p1), (append_assoc_sep p2) in H.
  rewrite (append_assoc_sep (p1 +:+ "_" +:+ pretty z1)),
          (append_assoc_sep (p2 +:+ "_" +:+ pretty z2)) in H.
  apply last_underscore_inj in H as [H Hy];
    [|apply pretty_Z_no_underscore..].
  apply last_underscore_inj in H as [H Hx];
    [|apply pretty_Z_no_underscore..].
  apply last_underscore_inj in H as [H Hz];
    [|apply pretty_Z_no_underscore..].
  apply (inj pretty) in Hx, Hy, Hz. by subst.
Qed.

(** C1.  Two layers built from URL templates [url1] and [url2] give the
    tiles [c1] and [c2] the same key exactly when the templates agree once
    their placeholders are stripped and the coordinates are the same: equal
    inputs always give equal keys (the key is a function of them), and a
    difference in the stripped template or in any of z, x, y gives
    different keys. *)
Theorem tile_key_deterministic_injective
    (url1 url2 : string) (o1 o2 : CtorOptions) (c1 c2 : Coords) :
  _getTileKey (initialize url1 o1) c1 = _getTileKey (initialize url2 o2) c2
  <-> strip_placeholders url1 = strip_placeholders url2 /\ c1 = c2.
Proof.
  unfold _getTileKey, initialize; simpl. split.
  - apply tile_key_inj.
  - by intros [-> ->].
Qed.

End KeyFacts.

(** ** The store: opening, reading again *)

Section StoreFacts.
Import DBManager.

(** A manager that answered an [open] with a connection holds it. *)
Lemma open_resolved_holds this w db this' w' :
  open this w = (Resolved db, this', w') -> _db this' = Some db.
Proof.
  unfold open. destruct (_db this) as [h|] eqn:Hdb.
  - intros [= <- <- <-]. done.
  - destruct (negb (indexedDB w)); [done|].
    destruct (open_error w); [done|].
    by intros [= <- <- <-].
Qed.

Lemma open_held this w db :
  _db this = Some db -> open this w = (Resolved db, this, w).
Proof. unfold open. by intros ->. Qed.

(** A read of a record that is in the store finds it, when the manager holds
    the connection or can open it and the request does not fail. *)
Lemma get_present this w storeName k objs e :
  objectStore w (dbName this) storeName = Some objs ->
  objs !! k = Some e ->
  (_db this = Some (dbName this)
   \/ (_db this = None /\ indexedDB w = true /\ open_error w = false)) ->
  request_error w (requested w) = false ->
  exists this' w',
    get this w storeName k = (Resolved (Some e), this', w')
    /\ dbName this' = dbName this /\ _db this' = Some (dbName this)
    /\ databases w' = databases w
    /\ requested w' = S (requested w)
    /\ request_error w' = request_error w.
Proof.
  intros Hstore Hk Hconn Hok. unfold get, open.
  destruct Hconn as [Hdb|(Hdb & Hidb & Herr)]; rewrite Hdb.
  - rewrite Hstore, Hok, Hk. eexists _, _. by repeat split.
  - rewrite Hidb, Herr. simpl.
    assert (Hsame : databases (backend_open (dbName this) w) = databases w).
    { unfold backend_open; simpl. unfold objectStore in Hstore.
      by destruct (databases w !! dbName this). }
    unfold objectStore in *. rewrite Hsame.
    destruct (databases w !! dbName this) as [stores|]; [|done].
    simpl in *. rewrite Hstore, Hok, Hk.
    eexists _, _. by repeat split.
Qed.

(** C9.  [open] on a manager that holds a connection hands that connection
    back and leaves the manager and the browser as they were: a second
    [open] after a successful one makes no new [indexedDB.open] call.  On a
    manager without a connection, [open] is rejected with 'IndexedDB not
    supported' when [window.indexedDB] is absent. *)
Theorem open_idempotent_and_unavailable (this : Manager) (w : Browser) :
  (forall db this' w',
      open this w = (Resolved db, this', w') ->
      forall w2, open this' w2 = (Resolved db, this', w2))
  /\ (_db this = None -> indexedDB w = false ->
      open this w = (Rejected NotSupported, this, w)).
Proof.
  split.
  - intros db this' w' Hopen w2.
    apply open_held. eapply open_resolved_holds; exact Hopen.
  - intros Hnone Habsent. unfold open. by rewrite Hnone, Habsent.
Qed.

(** A fresh manager in a browser with IndexedDB opens its database; the
    second [open] returns the same connection and counts no further
    [indexedDB.open]; without IndexedDB the first [open] is rejected. *)
Lemma open_idempotent_and_unavailable_witness :
  (exists m1 w1,
      open (initialize None) Examples.fresh_browser
        = (Resolved "leaflet_offline", m1, w1)
      /\ opened w1 = 1%nat
      /\ open m1 w1 = (Resolved "leaflet_offline", m1, w1))
  /\ open (initialize None) Examples.browser_without_indexedDB
     = (Rejected NotSupported, initialize None,
        Examples.browser_without_indexedDB).
Proof.
  split.
  - eexists _, _. split; [reflexivity|]. split; [reflexivity|].
    apply (proj1 (open_idempotent_and_unavailable
                    (initialize None) Examples.fresh_browser) _ _ _ eq_refl).
  - apply (proj2 (open_idempotent_and_unavailable
                    (initialize None) Examples.browser_without_indexedDB));
      reflexivity.
Defined.

End StoreFacts.

(** ** Single-tile resolution *)

Section FetcherFacts.
Import TileKey Fetcher.

Ltac unfold_resolve :=
  unfold resolve, run_to_rest, createTile, deliver, base_event, tile_onload,
    tile_onerror, _loadTileAndCache, _saveTileToCache, request, bind, ret,
    emit, when, of_base, trace_of, state_of, value_of, count in *.

Ltac same_trace :=
  simpl; rewrite <- ?app_assoc; simpl; rewrite ?app_nil_r; reflexivity.

(** What one read of the cache does to the state and adds to the trace. *)
Lemma read_shape k st v st' t :
  _getTileFromCache k st = (v, st', t) ->
  layer st' = layer st /\ issued st' = issued st
  /\ ((cacheDB st = None /\ st' = st /\ t = [] /\ v = None)
      \/ (is_Some (cacheDB st) /\ is_Some (cacheDB st')
          /\ (t = [CacheGet (cacheStoreName (layer st)) k]
              \/ (t = [CacheGet (cacheStoreName (layer st)) k;
                       Log ErrorRetrievingFromCache] /\ v = None)))).
Proof.
  unfold _getTileFromCache. destruct (cacheDB st) as [db|] eqn:Hdb.
  - destruct (DBManager.get _ _ _ _) as [[r db'] w'].
    destruct r as [entry|reason]; intros [= <- <- <-]; simpl;
      (split; [done|split; [done|right]]); eauto 6.
  - intros [= <- <- <-]. eauto 8.
Qed.

(** What settling the save promise does. *)
Lemma settle_shape E n k st r st' t :
  _saveTileToCache_settle E n k st = (r, st', t) ->
  layer st' = layer st /\ issued st' = issued st
  /\ ((t = [] /\ st' = st
       /\ (net E n = LoadError \/ net E n = Loaded None \/ cacheDB st = None))
      \/ (exists png db,
             net E n = Loaded (Some png) /\ cacheDB st = Some db
             /\ t = [CachePut (cacheStoreName (layer st))
                       (DBManager.mkEntry k png (now E) None)])).
Proof.
  unfold _saveTileToCache_settle.
  destruct (net E n) as [|[png|]].
  - intros [= <- <- <-]. eauto 8.
  - destruct (cacheDB st) as [db|] eqn:Hdb.
    + destruct (DBManager.put _ _ _ _) as [[r0 db'] w'].
      intros [= <- <- <-]. simpl. split; [done|split; [done|right]]. eauto.
    + intros [= <- <- <-]. eauto 8.
  - intros [= <- <- <-]. eauto 8.
Qed.

(** After the two deliveries nothing is loading any more. *)
Lemma run_to_rest_is_idle E base coords done st :
  snd (value_of (run_to_rest E base coords done st)) = Idle.
Proof.
  unfold_resolve.
  destruct (useCache (layer st)); simpl;
    [destruct (_getTileFromCache _ st) as [[[c|] st1] t1]; simpl|];
    destruct (base_first E), (base_net E), done, (base_onload base),
      (base_onerror base); simpl; try reflexivity;
    repeat match goal with
      | |- context [(saveToCache ?l && ?d)%bool] =>
          destruct (saveToCache l && d)%bool; simpl
      | |- context [net E ?n] => destruct (net E n); simpl
      | |- context [_getTileFromCache ?a ?b] =>
          destruct (_getTileFromCache a b) as [[[?|] ?] ?]; simpl
      | |- context [_saveTileToCache_settle ?a ?b ?c ?d] =>
          destruct (_saveTileToCache_settle a b c d) as [[[] ?] ?]; simpl
      end; reflexivity.
Qed.

(** *** The trace of a resolution, case by case *)

Section Traces.
Variable E : Env.
Variables (base : BaseTile) (coords : Coords) (done : bool) (st : State).

Let k := _getTileKey (layer st) coords.
Let u := getTileUrl E coords.
Let early := early_events E base done.

Ltac cases_of_base :=
  unfold early, early_events, on_base_load, on_base_error;
  destruct (base_first E), (base_net E), done, (base_onload base),
    (base_onerror base).

Lemma resolve_without_cache :
  useCache (layer st) = false ->
  resolve E base coords done st =
    (of_base base u, st,
     NetRequest TileImg u
       :: match base_net E with
          | Loaded _ => on_base_load base done
          | LoadError => on_base_error base done
          end).
Proof.
  intros H. unfold_resolve. rewrite H. fold u.
  unfold on_base_load, on_base_error.
  destruct (base_net E), done, (base_onload base), (base_onerror base);
    reflexivity.
Qed.

Lemma resolve_hit c st1 t1 :
  useCache (layer st) = true ->
  _getTileFromCache k st = (Some c, st1, t1) ->
  resolve E base coords done st =
    ({| src := Some c; onload := KeptOnLoad (base_onload base);
        onerror := KeptOnError (base_onerror base) |},
     st1,
     NetRequest TileImg u
       :: t1 ++ early ++ [ShowCached c; Log (UsingCachedTile k)]
          ++ on_base_load base done)%list.
Proof.
  intros Huse Hread. unfold_resolve. rewrite Huse. fold k u. rewrite Hread.
  cases_of_base; same_trace.
Qed.

Lemma resolve_miss_plain st1 t1 :
  useCache (layer st) = true ->
  _getTileFromCache k st = (None, st1, t1) ->
  write_back st1 = false ->
  resolve E base coords done st =
    ({| src := Some u; onload := KeptOnLoad (base_onload base);
        onerror := KeptOnError (base_onerror base) |},
     bump st1,
     NetRequest TileImg u
       :: t1 ++ early ++ [NetRequest TileImg u]
          ++ match net E (issued st1) with
             | Loaded _ => on_base_load base done
             | LoadError => on_base_error base done
             end)%list.
Proof.
  intros Huse Hread Hwb. unfold write_back in Hwb. unfold_resolve.
  rewrite Huse. fold k u. rewrite Hread.
  cases_of_base; simpl; rewrite Hwb; simpl;
    destruct (net E (issued st1)); same_trace.
Qed.

Lemma resolve_miss_saved st1 t1 png r st2 t2 :
  useCache (layer st) = true ->
  _getTileFromCache k st = (None, st1, t1) ->
  write_back st1 = true ->
  net E (issued st1) = Loaded png ->
  _saveTileToCache_settle E (S (issued st1)) k (bump (bump st1))
    = (r, st2, t2) ->
  resolve E base coords done st =
    ({| src := Some u;
        onload := SaveOnLoad u k (base_onload base) done;
        onerror := FallbackOnError k (base_onerror base) done |},
     st2,
     NetRequest TileImg u
       :: t1 ++ early ++ [NetRequest TileImg u]
          ++ opt_ev done (Done false) ++ [NetRequest SaveImg u]
          ++ opt_ev (base_onload base) OriginalOnLoad
          ++ opt_ev done (Done false)
          ++ t2 ++ [save_log k r])%list.
Proof.
  intros Huse Hread Hwb Hnet Hsettle. unfold write_back in Hwb.
  unfold bump in Hsettle. simpl in Hsettle. unfold_resolve.
  rewrite Huse. fold k u. rewrite Hread.
  cases_of_base; simpl; rewrite Hwb; simpl; rewrite Hnet; simpl;
    rewrite Hsettle; destruct r; same_trace.
Qed.

Lemma resolve_miss_failed st1 t1 st3 t3 :
  useCache (layer st) = true ->
  _getTileFromCache k st = (None, st1, t1) ->
  write_back st1 = true ->
  net E (issued st1) = LoadError ->
  _getTileFromCache k (bump st1) = (None, st3, t3) ->
  resolve E base coords done st =
    ({| src := Some u;
        onload := SaveOnLoad u k (base_onload base) done;
        onerror := FallbackOnError k (base_onerror base) done |},
     st3,
     NetRequest TileImg u
       :: t1 ++ early ++ [NetRequest TileImg u]
          ++ opt_ev done (Done true) ++ t3
          ++ opt_ev (base_onerror base) OriginalOnError
          ++ opt_ev done (Done true))%list.
Proof.
  intros Huse Hread Hwb Hnet Hfall. unfold write_back in Hwb.
  unfold bump in Hfall. unfold_resolve.
  rewrite Huse. fold k u. rewrite Hread.
  cases_of_base; simpl; rewrite Hwb; simpl; rewrite Hnet; simpl;
    rewrite Hfall; same_trace.
Qed.

Lemma resolve_miss_recovered st1 t1 c st3 t3 r st4 t4 :
  useCache (layer st) = true ->
  _getTileFromCache k st = (None, st1, t1) ->
  write_back st1 = true ->
  net E (issued st1) = LoadError ->
  _getTileFromCache k (bump st1) = (Some c, st3, t3) ->
  _saveTileToCache_settle E (issued st3) k (bump st3) = (r, st4, t4) ->
  resolve E base coords done st =
    ({| src := Some c;
        onload := SaveOnLoad u k (base_onload base) done;
        onerror := FallbackOnError k (base_onerror base) done |},
     st4,
     NetRequest TileImg u
       :: t1 ++ early ++ [NetRequest TileImg u]
          ++ opt_ev done (Done true) ++ t3
          ++ [Log (NetworkErrorUsingCachedTile k); ShowCached c]
          ++ opt_ev done (Done false) ++ [NetRequest SaveImg u]
          ++ opt_ev (base_onload base) OriginalOnLoad
          ++ opt_ev done (Done false)
          ++ t4 ++ [save_log k r])%list.
Proof.
  intros Huse Hread Hwb Hnet Hfall Hsettle. unfold write_back in Hwb.
  unfold bump in Hfall, Hsettle. simpl in Hsettle. unfold_resolve.
  rewrite Huse. fold k u. rewrite Hread.
  cases_of_base; simpl; rewrite Hwb; simpl; rewrite Hnet; simpl;
    rewrite Hfall; simpl; rewrite Hsettle; destruct r; same_trace.
Qed.

End Traces.

Lemma count_app p (t1 t2 : list Event) :
  count p (t1 ++ t2) = (count p t1 + count p t2)%nat.
Proof. unfold count. by rewrite List.filter_app, length_app. Qed.

Lemma count_opt_ev p b e :
  count p (opt_ev b e) = if (b && p e)%bool then 1%nat else 0%nat.
Proof. unfold count. destruct b; simpl; [|done]. by destruct (p e). Qed.

Lemma count_cons p e (t : list Event) :
  count p (e :: t) = ((if p e then 1 else 0) + count p t)%nat.
Proof. unfold count. simpl. by destruct (p e). Qed.

Lemma count_nil p : count p [] = 0%nat.
Proof. done. Qed.

(** Calls of [done] and of the handlers the base class left are neither
    requests nor reads nor writes. *)
Lemma count_on_base_load p base done :
  p (Done false) = false -> p OriginalOnLoad = false ->
  count p (on_base_load base done) = 0%nat.
Proof.
  intros H1 H2. unfold on_base_load.
  rewrite count_app, !count_opt_ev, H1, H2. by rewrite !andb_false_r.
Qed.

Lemma count_on_base_error p base done :
  p (Done true) = false -> p OriginalOnError = false ->
  count p (on_base_error base done) = 0%nat.
Proof.
  intros H1 H2. unfold on_base_error.
  rewrite count_app, !count_opt_ev, H1, H2. by rewrite !andb_false_r.
Qed.

Lemma count_early p E base done :
  p (Done false) = false -> p OriginalOnLoad = false ->
  p (Done true) = false -> p OriginalOnError = false ->
  count p (early_events E base done) = 0%nat.
Proof.
  intros H1 H2 H3 H4. unfold early_events.
  destruct (base_first E); [|done].
  destruct (base_net E);
    [by apply count_on_base_error|by apply count_on_base_load].
Qed.

Ltac count_split :=
  repeat first [rewrite count_cons | rewrite count_app
               | rewrite count_opt_ev | rewrite count_nil].

Ltac count_trace :=
  count_split;
  rewrite ?count_early, ?count_on_base_load, ?count_on_base_error
    by reflexivity;
  simpl; rewrite ?andb_false_r, ?andb_true_r; simpl;
  try reflexivity; try lia.

(** A read that finds a record with a non-empty URL. *)
Lemma read_hit k st db e db' w' :
  cacheDB st = Some db ->
  DBManager.get db (browser st) (cacheStoreName (layer st)) k
    = (DBManager.Resolved (Some e), db', w') ->
  DBManager.url e <> "" ->
  _getTileFromCache k st
    = (Some (DBManager.url e),
       mkState (layer st) (Some db') w' (issued st),
       [CacheGet (cacheStoreName (layer st)) k]).
Proof.
  intros Hdb Hget Hurl. unfold _getTileFromCache. rewrite Hdb, Hget.
  simpl. apply String.eqb_neq in Hurl. by rewrite Hurl.
Qed.

(** A read adds only [CacheGet] and log events, and one [CacheGet] when
    there is a [cacheDB]. *)
Lemma read_events k st v st' t :
  _getTileFromCache k st = (v, st', t) ->
  Forall (fun e => (is_get e || is_log e)%bool = true) t
  /\ count is_get t = match cacheDB st with Some _ => 1 | None => 0 end%nat.
Proof.
  intros H. destruct (read_shape _ _ _ _ _ H) as (_ & _ & Hs).
  destruct Hs as [(Hdb & _ & -> & _)|([db Hdb] & _ & [->|[-> _]])];
    rewrite Hdb; split; try done; repeat constructor.
Qed.

(** Settling the save promise adds at most one event, a [CachePut]. *)
Lemma settle_events E n k st r st' t :
  _saveTileToCache_settle E n k st = (r, st', t) ->
  Forall (fun e => is_put e = true) t /\ (length t <= 1)%nat.
Proof.
  intros H. destruct (settle_shape _ _ _ _ _ _ _ H) as (_ & _ & Hs).
  destruct Hs as [(-> & _)|(png & db & _ & _ & ->)]; split; simpl;
    try lia; repeat constructor.
Qed.

Lemma filter_none (p q : Event -> bool) (t : list Event) :
  Forall (fun e => q e = true) t ->
  (forall e, q e = true -> p e = false) ->
  List.filter p t = [].
Proof.
  intros Hall Hpq. induction Hall as [|e t He _ IH]; [done|].
  simpl. by rewrite (Hpq e He).
Qed.

Lemma count_none (p q : Event -> bool) (t : list Event) :
  Forall (fun e => q e = true) t ->
  (forall e, q e = true -> p e = false) ->
  count p t = 0%nat.
Proof. intros. unfold count. by erewrite filter_none. Qed.

Lemma get_or_log_not_put e : (is_get e || is_log e)%bool = true -> is_put e = false.
Proof. by destruct e. Qed.
Lemma get_or_log_not_request e :
  (is_get e || is_log e)%bool = true -> is_request e = false.
Proof. by destruct e. Qed.
Lemma get_or_log_not_error e :
  (is_get e || is_log e)%bool = true -> is_error e = false.
Proof. by destruct e. Qed.
Lemma put_not_request e : is_put e = true -> is_request e = false.
Proof. by destruct e. Qed.
Lemma put_not_error e : is_put e = true -> is_error e = false.
Proof. by destruct e. Qed.
Lemma put_not_get e : is_put e = true -> is_get e = false.
Proof. by destruct e. Qed.

(** A read keeps write-back as it is. *)
Lemma read_keeps_write_back k st v st' t :
  _getTileFromCache k st = (v, st', t) -> write_back st' = write_back st.
Proof.
  intros H. destruct (read_shape _ _ _ _ _ H) as (Hl & _ & Hs).
  unfold write_back. rewrite Hl. f_equal.
  destruct Hs as [(_ & -> & _)|(H1 & H2 & _)]; [done|].
  by rewrite !bool_decide_eq_true_2.
Qed.

(** A resolution whose record is in a readable store: the base class has
    requested the network URL, the tile ends up showing the cached URL,
    nothing else is requested, nothing is written, and the record stays. *)
Lemma resolve_when_held E base coords done st e :
  useCache (layer st) = true ->
  holds st (_getTileKey (layer st) coords) e ->
  DBManager.url e <> "" ->
  readable st ->
  let r := resolve E base coords done st in
  src (value_of r) = Some (DBManager.url e)
  /\ (exists rest,
        trace_of r = NetRequest TileImg (getTileUrl E coords) :: rest
        /\ count is_request rest = 0%nat
        /\ In (ShowCached (DBManager.url e)) rest)
  /\ count is_put (trace_of r) = 0%nat
  /\ layer (state_of r) = layer st
  /\ holds (state_of r) (_getTileKey (layer st) coords) e
  /\ (DBManager.request_error (browser st)
                              (S (DBManager.requested (browser st))) = false ->
      readable (state_of r)).
Proof.
  intros Huse (db & objs & Hdb & Hstore & Hk) Hurl (db0 & Hdb0 & Hconn & Hok) r.
  rewrite Hdb in Hdb0. injection Hdb0 as <-.
  destruct (get_present db (browser st) _ _ objs e Hstore Hk Hconn Hok)
    as (db' & w' & Hget & Hname & Hconn' & Hdbs & Hreq & Herr).
  pose proof (read_hit _ _ _ _ _ _ Hdb Hget Hurl) as Hread.
  assert (Hr : r = _)
    by exact (resolve_hit E base coords done st _ _ _ Huse Hread).
  rewrite Hr. unfold trace_of, state_of, value_of; cbn [fst snd].
  split; [done|]. split.
  { eexists. split; [reflexivity|]. split; [count_trace|].
    apply in_or_app. right. apply in_or_app. right. by left. }
  split; [count_trace|].
  split; [done|]. split.
  - exists db', objs. simpl. split; [done|]. split; [|done].
    unfold DBManager.objectStore in *. by rewrite Hname, Hdbs.
  - intros Hnext. exists db'. simpl. split; [done|]. split.
    + left. by rewrite Hname.
    + by rewrite Herr, Hreq.
Qed.

(** Every resolution begins with the base class's request. *)
Lemma resolve_requests_first E base coords done st :
  exists rest,
    trace_of (resolve E base coords done st)
    = NetRequest TileImg (getTileUrl E coords) :: rest.
Proof.
  unfold resolve, run_to_rest, bind, trace_of.
  assert (Hc : exists v st1 t1,
             createTile E base coords done st
             = (v, st1, NetRequest TileImg (getTileUrl E coords) :: t1)).
  { unfold createTile, bind, emit. cbv zeta.
    match goal with
    | |- context [match ?X with pair _ _ => _ end] =>
        destruct X as [[b st2] t2]
    end.
    by eexists _, _, _. }
  destruct Hc as (v & st1 & t1 & ->).
  destruct (deliver E done v st1) as [[v1 st2] t2].
  destruct (deliver E done v1 st2) as [[v2 st3] t3].
  cbn. by eexists.
Qed.

(** C2.  The code at a cache hit.  Whatever the store holds, the first
    thing a resolution does is the base class's request of the network
    URL: [createTile] calls [L.TileLayer.prototype.createTile] before it
    looks into the cache.  With the cache in use, when the store holds a
    record for the tile's key whose URL is not empty and the store can be
    read, the tile is then pointed at the cached URL; that request is the
    only one, and nothing is written.  The record stays, and resolving the
    same tile again (the next store request not failing) requests the
    network URL again, once. *)
Theorem cache_hit_requests_the_network
    (E : Env) (base : BaseTile) (coords : Coords) (done : bool) (st : State) :
  let r := resolve E base coords done st in
  exists rest,
    trace_of r = NetRequest TileImg (getTileUrl E coords) :: rest
    /\ forall e : DBManager.Entry,
        useCache (layer st) = true ->
        holds st (_getTileKey (layer st) coords) e ->
        DBManager.url e <> "" ->
        readable st ->
        src (value_of r) = Some (DBManager.url e)
        /\ count is_request rest = 0%nat
        /\ In (ShowCached (DBManager.url e)) rest
        /\ count is_put (trace_of r) = 0%nat
        /\ holds (state_of r) (_getTileKey (layer st) coords) e
        /\ (DBManager.request_error (browser st)
                                    (S (DBManager.requested (browser st)))
            = false ->
            forall (E2 : Env) (base2 : BaseTile) (done2 : bool),
              let r2 := resolve E2 base2 coords done2 (state_of r) in
              src (value_of r2) = Some (DBManager.url e)
              /\ count is_request (trace_of r2) = 1%nat
              /\ count is_put (trace_of r2) = 0%nat).
Proof.
  intros r. destruct (resolve_requests_first E base coords done st)
    as [rest Hfirst].
  fold r in Hfirst. exists rest. split; [done|].
  intros e Huse Hheld Hurl Hread.
  destruct (resolve_when_held E base coords done st e Huse Hheld Hurl Hread)
    as (H1 & (rest' & Ht & Hreq & Hshow) & H3 & Hl & H4 & H5).
  fold r in H1, Ht, H3, Hl, H4, H5.
  assert (Hrest : rest' = rest) by congruence. subst rest'.
  split; [done|]. split; [done|]. split; [done|].
  split; [done|]. split; [done|].
  intros Hnext E2 base2 done2 r2.
  rewrite <- Hl in H4, Huse.
  destruct (resolve_when_held E2 base2 coords done2 (state_of r) e
              Huse H4 Hurl (H5 Hnext))
    as (G1 & (rest2 & Gt & Greq & _) & G3 & _).
  fold r2 in G1, Gt, G3.
  split; [done|]. split; [|done]. by rewrite Gt, count_cons, Greq.
Qed.

(** The number of [cacheDB.put] calls of a resolution, case by case. *)
Lemma puts_of_settle E n k st r st' t :
  _saveTileToCache_settle E n k st = (r, st', t) ->
  is_Some (cacheDB st) ->
  List.filter is_put t =
    match net E n with
    | Loaded (Some png) =>
        [CachePut (cacheStoreName (layer st))
                  (DBManager.mkEntry k png (now E) None)]
    | _ => []
    end.
Proof.
  intros H [db Hdb]. destruct (settle_shape _ _ _ _ _ _ _ H) as (_ & _ & Hs).
  destruct Hs as [(-> & _ & [Hn|[Hn|Hn]])|(png & db0 & Hn & _ & ->)];
    rewrite ?Hn; try done. congruence.
Qed.

Lemma filter_put_app (t1 t2 : list Event) :
  List.filter is_put (t1 ++ t2) = (List.filter is_put t1 ++ List.filter is_put t2)%list.
Proof. apply List.filter_app. Qed.

Lemma filter_put_opt_ev b e : is_put e = false -> List.filter is_put (opt_ev b e) = [].
Proof. intros H. destruct b; simpl; [|done]. by rewrite H. Qed.

Lemma save_log_not_put k r : is_put (save_log k r) = false.
Proof. by destruct r. Qed.

Lemma filter_put_request el u (t : list Event) :
  List.filter is_put (NetRequest el u :: t) = List.filter is_put t.
Proof. reflexivity. Qed.

Lemma filter_put_on_base_load base done :
  List.filter is_put (on_base_load base done) = [].
Proof. unfold on_base_load. by destruct done, (base_onload base). Qed.

Lemma filter_put_on_base_error base done :
  List.filter is_put (on_base_error base done) = [].
Proof. unfold on_base_error. by destruct done, (base_onerror base). Qed.

Lemma filter_put_early E base done :
  List.filter is_put (early_events E base done) = [].
Proof.
  unfold early_events. destruct (base_first E); [|done].
  destruct (base_net E);
    [apply filter_put_on_base_error|apply filter_put_on_base_load].
Qed.

Ltac put_filter :=
  rewrite ?filter_put_request, ?filter_put_app;
  rewrite ?filter_put_early, ?filter_put_on_base_load,
    ?filter_put_on_base_error;
  repeat (rewrite filter_put_opt_ev by reflexivity);
  simpl; rewrite ?save_log_not_put, ?app_nil_r; simpl.

Lemma puts_of_resolve E base coords done st :
  let k := _getTileKey (layer st) coords in
  let rd := _getTileFromCache k st in
  List.filter is_put (trace_of (resolve E base coords done st)) =
    if (useCache (layer st) && write_back st)%bool then
      match value_of rd, net E (issued st) with
      | Some _, _ => []
      | None, Loaded _ => save_puts E st k
      | None, LoadError =>
          match value_of (_getTileFromCache k (bump (state_of rd))) with
          | Some _ => save_puts E st k
          | None => []
          end
      end
    else [].
Proof.
  intros k rd. subst rd.
  destruct (useCache (layer st)) eqn:Huse; simpl.
  2:{ rewrite resolve_without_cache by done. unfold trace_of; cbn [snd].
      destruct (base_net E); by put_filter. }
  destruct (_getTileFromCache k st) as [[v st1] t1] eqn:Hread.
  pose proof (read_keeps_write_back _ _ _ _ _ Hread) as Hwb.
  destruct (read_shape _ _ _ _ _ Hread) as (Hl & Hi & _).
  destruct (read_events _ _ _ _ _ Hread) as (Ht1 & _).
  pose proof (filter_none is_put _ t1 Ht1 get_or_log_not_put) as Hp1.
  unfold value_of, state_of; cbn [fst snd].
  destruct v as [c|].
  { rewrite (resolve_hit E base coords done st c st1 t1 Huse Hread).
    unfold trace_of; cbn [snd]. put_filter. rewrite Hp1.
    by destruct (write_back st). }
  destruct (write_back st) eqn:Hwb0.
  2:{ rewrite (resolve_miss_plain E base coords done st st1 t1 Huse Hread Hwb).
      unfold trace_of; cbn [snd]. put_filter. rewrite Hp1.
      destruct (net E (issued st1)); by put_filter. }
  assert (Hdb1 : is_Some (cacheDB st1)).
  { unfold write_back in Hwb. apply andb_true_iff in Hwb as [_ Hwb].
    by apply bool_decide_eq_true in Hwb. }
  rewrite <- Hi.
  destruct (net E (issued st1)) as [|png] eqn:Hnet.
  - destruct (_getTileFromCache k (bump st1)) as [[v2 st3] t3] eqn:Hfall.
    destruct (read_shape _ _ _ _ _ Hfall) as (Hl3 & Hi3 & Hs3).
    destruct (read_events _ _ _ _ _ Hfall) as (Ht3 & _).
    pose proof (filter_none is_put _ t3 Ht3 get_or_log_not_put) as Hp3.
    cbn [fst snd]. destruct v2 as [c|].
    + destruct (_saveTileToCache_settle E (issued st3) k (bump st3))
        as [[r st4] t4] eqn:Hsettle.
      rewrite (resolve_miss_recovered E base coords done st st1 t1 c st3 t3
                 r st4 t4 Huse Hread Hwb Hnet Hfall Hsettle).
      unfold trace_of; cbn [snd]. put_filter. rewrite Hp1, Hp3.
      assert (Hdb3 : is_Some (cacheDB (bump st3))).
      { destruct Hs3 as [(Hn & _)|(_ & H3 & _)]; [|done].
        simpl in Hn. destruct Hdb1 as [? Hdb1]. congruence. }
      rewrite (puts_of_settle _ _ _ _ _ _ _ Hsettle Hdb3).
      unfold save_puts. simpl in Hi3, Hl3. simpl.
      rewrite Hi3, Hl3, Hl, Hi, ?app_nil_r.
      by destruct (net E (S (issued st))) as [|[?|]].
    + rewrite (resolve_miss_failed E base coords done st st1 t1 st3 t3
                 Huse Hread Hwb Hnet Hfall).
      unfold trace_of; cbn [snd]. put_filter. by rewrite Hp1, Hp3.
  - destruct (_saveTileToCache_settle E (S (issued st1)) k (bump (bump st1)))
      as [[r st2] t2] eqn:Hsettle.
    rewrite (resolve_miss_saved E base coords done st st1 t1 png r st2 t2
               Huse Hread Hwb Hnet Hsettle).
    unfold trace_of; cbn [snd]. put_filter. rewrite Hp1.
    rewrite (puts_of_settle _ _ _ _ _ _ _ Hsettle Hdb1).
    unfold save_puts. simpl. rewrite Hl, Hi, ?app_nil_r.
    by destruct (net E (S (issued st))) as [|[?|]].
Qed.

(** The case analysis behind every statement about a resolution that uses
    the cache: hit; miss without write-back; miss with write-back and the
    display load failing, the fallback read hitting or missing; miss with
    write-back and the display load succeeding. *)
Ltac resolve_cases E base coords done st Huse :=
  destruct (_getTileFromCache (_getTileKey (layer st) coords) st)
    as [[v st1] t1] eqn:Hread;
  pose proof (read_keeps_write_back _ _ _ _ _ Hread) as Hwb;
  destruct (read_shape _ _ _ _ _ Hread) as (Hl & Hi & Hs1);
  destruct (read_events _ _ _ _ _ Hread) as (Ht1 & Hg1);
  destruct v as [c|];
  [ rewrite (resolve_hit E base coords done st c st1 t1 Huse Hread)
  | destruct (write_back st) eqn:Hwb0;
    [ destruct (net E (issued st1)) as [|png] eqn:Hnet;
      [ destruct (_getTileFromCache (_getTileKey (layer st) coords) (bump st1))
          as [[v2 st3] t3] eqn:Hfall;
        destruct (read_shape _ _ _ _ _ Hfall) as (Hl3 & Hi3 & Hs3);
        destruct (read_events _ _ _ _ _ Hfall) as (Ht3 & Hg3);
        destruct v2 as [c|];
        [ destruct (_saveTileToCache_settle E (issued st3)
                      (_getTileKey (layer st) coords) (bump st3))
            as [[r st4] t4] eqn:Hsettle;
          destruct (settle_events _ _ _ _ _ _ _ Hsettle) as (Ht4 & Hn4);
          rewrite (resolve_miss_recovered E base coords done st st1 t1 c
                     st3 t3 r st4 t4 Huse Hread Hwb Hnet Hfall Hsettle)
        | rewrite (resolve_miss_failed E base coords done st st1 t1 st3 t3
                     Huse Hread Hwb Hnet Hfall) ]
      | destruct (_saveTileToCache_settle E (S (issued st1))
                    (_getTileKey (layer st) coords) (bump (bump st1)))
          as [[r st2] t2] eqn:Hsettle;
        destruct (settle_events _ _ _ _ _ _ _ Hsettle) as (Ht2 & Hn2);
        rewrite (resolve_miss_saved E base coords done st st1 t1 png r st2 t2
                   Huse Hread Hwb Hnet Hsettle) ]
    | rewrite (resolve_miss_plain E base coords done st st1 t1
                 Huse Hread Hwb) ] ];
  unfold trace_of, value_of, state_of; cbn [fst snd].

Lemma save_log_not_request k r : is_request (save_log k r) = false.
Proof. by destruct r. Qed.
Lemma save_log_not_error k r : is_error (save_log k r) = false.
Proof. by destruct r. Qed.
Lemma save_log_not_get k r : is_get (save_log k r) = false.
Proof. by destruct r. Qed.

(** With a [cacheDB] there, a read asks the store exactly once. *)
Lemma write_back_has_db st : write_back st = true -> is_Some (cacheDB st).
Proof.
  unfold write_back. intros H. apply andb_true_iff in H as [_ H].
  by apply bool_decide_eq_true in H.
Qed.

Lemma read_one_get k st v st' t :
  _getTileFromCache k st = (v, st', t) -> is_Some (cacheDB st) ->
  count is_get t = 1%nat.
Proof.
  intros H [db Hdb]. destruct (read_events _ _ _ _ _ H) as (_ & Hg).
  by rewrite Hdb in Hg.
Qed.

(** C4 (as amended).  With the cache in use and write-back on, when the
    first read misses and the display request fails, the store is read
    once more: two reads in all, the second after the failed request and
    after Leaflet's own error listener has called [done] with the error.
    If that fallback read hits, the tile is pointed at the cached URL.  If
    it misses, the error goes to the original error handler and to [done],
    each when it is there, and nothing else follows. *)
Theorem network_failure_falls_back
    (E : Env) (base : BaseTile) (coords : Coords) (done : bool) (st : State) :
  let k := _getTileKey (layer st) coords in
  let u := getTileUrl E coords in
  let rd := _getTileFromCache k st in
  let fb := _getTileFromCache k (bump (state_of rd)) in
  let r := resolve E base coords done st in
  useCache (layer st) = true ->
  write_back st = true ->
  value_of rd = None ->
  net E (issued st) = LoadError ->
  count is_get (trace_of r) = 2%nat
  /\ exists rest,
       trace_of r
       = (NetRequest TileImg u :: trace_of rd ++ early_events E base done
            ++ [NetRequest TileImg u] ++ opt_ev done (Done true)
            ++ trace_of fb ++ rest)%list
       /\ count is_get rest = 0%nat
       /\ (value_of fb = None ->
           rest = (opt_ev (base_onerror base) OriginalOnError
                     ++ opt_ev done (Done true))%list)
       /\ (forall c, value_of fb = Some c ->
           src (value_of r) = Some c
           /\ exists rest', rest = (Log (NetworkErrorUsingCachedTile k)
                                     :: ShowCached c :: rest')%list).
Proof.
  intros k u rd fb r Huse. subst k u rd fb r.
  unfold value_of at 1. unfold state_of at 1.
  resolve_cases E base coords done st Huse; try rewrite Hfall;
    cbn [fst snd]; intros Hwb1 Hmiss Hnet0; try discriminate;
    try congruence.
  - (* the fallback read hits *)
    pose proof (read_one_get _ _ _ _ _ Hread (write_back_has_db _ Hwb0)) as G1.
    assert (Hwb3 : write_back (bump st1) = true) by exact Hwb.
    pose proof (read_one_get _ _ _ _ _ Hfall (write_back_has_db _ Hwb3)) as G3.
    assert (G4 : count is_get t4 = 0%nat)
      by exact (count_none is_get _ t4 Ht4 put_not_get).
    split.
    + count_split.
      rewrite count_early by reflexivity.
      rewrite G1, G3, G4, save_log_not_get. simpl.
      rewrite !andb_false_r. simpl. lia.
    + eexists. split; [reflexivity|]. split; [|split; [done|]].
      * count_split.
        rewrite G4, save_log_not_get. simpl. by rewrite !andb_false_r.
      * intros c0 [= <-]. split; [done|]. by eexists.
  - (* the fallback read misses *)
    pose proof (read_one_get _ _ _ _ _ Hread (write_back_has_db _ Hwb0)) as G1.
    assert (Hwb3 : write_back (bump st1) = true) by exact Hwb.
    pose proof (read_one_get _ _ _ _ _ Hfall (write_back_has_db _ Hwb3)) as G3.
    split.
    + count_split.
      rewrite count_early by reflexivity.
      rewrite G1, G3. simpl. rewrite !andb_false_r. simpl. lia.
    + eexists. split; [reflexivity|]. split; [|split; [done|done]].
      count_split. simpl. by rewrite !andb_false_r.
Qed.

(** C3 (as amended).  One resolution calls [cacheDB.put] at most once.  It
    calls it not at all when the cache is not in use, on a cache hit, and
    when write-back is off.  On a miss with write-back on and the display
    request loading, it calls it exactly once, with the record of the key
    and the encoded image, when the save path's own request for the tile
    URL loads and the image encodes; and not at all when that request
    fails or the encoding throws. *)
Theorem store_writes_per_resolve
    (E : Env) (base : BaseTile) (coords : Coords) (done : bool) (st : State) :
  let k := _getTileKey (layer st) coords in
  let rd := _getTileFromCache k st in
  let tr := trace_of (resolve E base coords done st) in
  (count is_put tr <= 1)%nat
  /\ (useCache (layer st) = false -> count is_put tr = 0%nat)
  /\ (is_Some (value_of rd) -> count is_put tr = 0%nat)
  /\ (write_back st = false -> count is_put tr = 0%nat)
  /\ (useCache (layer st) = true -> write_back st = true ->
      value_of rd = None ->
      forall p, net E (issued st) = Loaded p ->
        (forall png, net E (S (issued st)) = Loaded (Some png) ->
           List.filter is_put tr =
             [CachePut (cacheStoreName (layer st))
                       (DBManager.mkEntry k png (now E) None)])
        /\ (net E (S (issued st)) = LoadError
              \/ net E (S (issued st)) = Loaded None ->
            count is_put tr = 0%nat)).
Proof.
  intros k rd tr. unfold count. subst tr.
  rewrite (puts_of_resolve E base coords done st). fold k. fold rd.
  unfold save_puts. fold k.
  split; [|split; [|split; [|split]]].
  - destruct (useCache (layer st) && write_back st)%bool; [|simpl; lia].
    destruct (value_of rd); [simpl; lia|].
    destruct (net E (issued st));
      [destruct (value_of (_getTileFromCache k (bump (state_of rd))))|];
      destruct (net E (S (issued st))) as [|[?|]]; simpl; lia.
  - by intros ->.
  - intros [c Hc]. rewrite Hc. by destruct (_ && _)%bool.
  - intros ->. by rewrite andb_false_r.
  - intros -> -> -> p ->. simpl. split.
    + by intros png ->.
    + by intros [->| ->].
Qed.

Lemma filter_request_opt_ev b e :
  is_request e = false -> List.filter is_request (opt_ev b e) = [].
Proof. intros H. destruct b; simpl; [|done]. by rewrite H. Qed.

Lemma filter_request_on_base_load base done :
  List.filter is_request (on_base_load base done) = [].
Proof. unfold on_base_load. by destruct done, (base_onload base). Qed.

Lemma filter_request_on_base_error base done :
  List.filter is_request (on_base_error base done) = [].
Proof. unfold on_base_error. by destruct done, (base_onerror base). Qed.

Lemma filter_request_early E base done :
  List.filter is_request (early_events E base done) = [].
Proof.
  unfold early_events. destruct (base_first E); [|done].
  destruct (base_net E);
    [apply filter_request_on_base_error|apply filter_request_on_base_load].
Qed.

Ltac request_filter :=
  repeat (progress (simpl;
                    rewrite ?List.filter_app, ?filter_request_early,
                      ?filter_request_on_base_load,
                      ?filter_request_on_base_error));
  repeat (rewrite filter_request_opt_ev by reflexivity);
  simpl; rewrite ?save_log_not_request, ?app_nil_r; simpl.

Lemma in_opt_ev e b e' : In e (opt_ev b e') -> e = e'.
Proof. destruct b; simpl; [intros [H|[]]; by symmetry|intros []]. Qed.

(** No [cacheDB.put] among the events of a read. *)
Lemma read_no_put k st v st' t s e :
  _getTileFromCache k st = (v, st', t) -> ~ In (CachePut s e) t.
Proof.
  intros H Hin. destruct (read_events _ _ _ _ _ H) as (Hall & _).
  rewrite List.Forall_forall in Hall. by apply Hall in Hin.
Qed.

(** The events of a tile as the base class left it are calls. *)
Lemma in_on_base_load e base done :
  In e (on_base_load base done) -> e = Done false \/ e = OriginalOnLoad.
Proof.
  unfold on_base_load. intros H. apply in_app_or in H as [H|H];
    apply in_opt_ev in H; auto.
Qed.

Lemma in_on_base_error e base done :
  In e (on_base_error base done) -> e = Done true \/ e = OriginalOnError.
Proof.
  unfold on_base_error. intros H. apply in_app_or in H as [H|H];
    apply in_opt_ev in H; auto.
Qed.

Lemma in_early e E base done :
  In e (early_events E base done) ->
  e = Done false \/ e = OriginalOnLoad \/ e = Done true \/ e = OriginalOnError.
Proof.
  unfold early_events. destruct (base_first E); [|done].
  destruct (base_net E); intros H;
    [apply in_on_base_error in H|apply in_on_base_load in H]; tauto.
Qed.

(** Nor among the events of the base class's load. *)
Lemma early_no_put E base done s e :
  ~ In (CachePut s e) (early_events E base done).
Proof.
  unfold early_events, on_base_load, on_base_error.
  destruct (base_first E), (base_net E), done, (base_onload base),
    (base_onerror base); simpl; intuition discriminate.
Qed.

Ltac find_put Hin :=
  repeat (simpl in Hin;
          match type of Hin with
          | In _ (opt_ev _ _) => apply in_opt_ev in Hin
          | In _ (_ ++ _)%list => apply in_app_or in Hin as [Hin|Hin]
          | _ \/ _ => destruct Hin as [Hin|Hin]
          | False => destruct Hin
          | _ = _ => discriminate Hin
          end).

(** C10 (as amended).  On a cache miss with write-back on, the tile element
    is pointed at the tile URL twice: by the base class before the cache is
    read, and by [_loadTileAndCache] after the miss.  When that load
    succeeds, the save path points a new image at the same URL: three
    requests.  When it fails and the fallback read misses, the save path is
    not entered and the two requests are all.  Whenever the resolution
    calls [cacheDB.put], three requests for the URL come before the call,
    the last of them the save path's. *)
Theorem write_back_requests_three_times
    (E : Env) (base : BaseTile) (coords : Coords) (done : bool) (st : State) :
  let k := _getTileKey (layer st) coords in
  let u := getTileUrl E coords in
  let rd := _getTileFromCache k st in
  let fb := _getTileFromCache k (bump (state_of rd)) in
  let tr := trace_of (resolve E base coords done st) in
  useCache (layer st) = true ->
  write_back st = true ->
  value_of rd = None ->
  (exists rest,
      List.filter is_request tr
      = NetRequest TileImg u :: NetRequest TileImg u :: rest
      /\ (rest = [] \/ rest = [NetRequest SaveImg u]))
  /\ (forall p, net E (issued st) = Loaded p ->
        List.filter is_request tr
          = [NetRequest TileImg u; NetRequest TileImg u; NetRequest SaveImg u])
  /\ (net E (issued st) = LoadError -> value_of fb = None ->
        List.filter is_request tr
          = [NetRequest TileImg u; NetRequest TileImg u])
  /\ (forall s e, In (CachePut s e) tr ->
        exists pre post,
          tr = (pre ++ CachePut s e :: post)%list
          /\ List.filter is_request pre
               = [NetRequest TileImg u; NetRequest TileImg u;
                  NetRequest SaveImg u]).
Proof.
  intros k u rd fb tr Huse. subst k u rd fb tr.
  unfold value_of at 1. unfold state_of at 1.
  resolve_cases E base coords done st Huse; try rewrite Hfall;
    cbn [fst snd]; intros Hwb1 Hmiss; try discriminate.
  - (* display load fails, fallback read hits *)
    pose proof (filter_none is_request _ t1 Ht1 get_or_log_not_request) as R1.
    pose proof (filter_none is_request _ t3 Ht3 get_or_log_not_request) as R3.
    pose proof (filter_none is_request _ t4 Ht4 put_not_request) as R4.
    split; [|split; [|split]].
    + request_filter. rewrite R1, R3, R4. simpl. eauto.
    + intros p Hp. rewrite <- Hi in Hp. congruence.
    + intros _ Hc. discriminate Hc.
    + intros s e Hin. find_put Hin;
        try (by apply (read_no_put _ _ _ _ _ s e Hread) in Hin);
        try (by apply (read_no_put _ _ _ _ _ s e Hfall) in Hin);
        try (by destruct r);
        try (by apply early_no_put in Hin).
      destruct t4 as [|e4 [|? ?]]; [done| |simpl in Hn4; lia].
      destruct Hin as [->|[]].
      exists (NetRequest TileImg (getTileUrl E coords)
                :: t1 ++ early_events E base done
                ++ [NetRequest TileImg (getTileUrl E coords)]
                ++ opt_ev done (Done true) ++ t3
                ++ [Log (NetworkErrorUsingCachedTile
                           (_getTileKey (layer st) coords));
                    ShowCached c]
                ++ opt_ev done (Done false)
                ++ [NetRequest SaveImg (getTileUrl E coords)]
                ++ opt_ev (base_onload base) OriginalOnLoad
                ++ opt_ev done (Done false))%list,
             [save_log (_getTileKey (layer st) coords) r].
      split; [by repeat (progress (simpl; rewrite <- ?app_assoc))|].
      request_filter. by rewrite R1, R3.
  - (* display load fails, fallback read misses *)
    pose proof (filter_none is_request _ t1 Ht1 get_or_log_not_request) as R1.
    pose proof (filter_none is_request _ t3 Ht3 get_or_log_not_request) as R3.
    split; [|split; [|split]].
    + request_filter. rewrite R1, R3. simpl. eauto.
    + intros p Hp. rewrite <- Hi in Hp. congruence.
    + intros _ _. request_filter. by rewrite R1, R3.
    + intros s e Hin. find_put Hin;
        try (by apply (read_no_put _ _ _ _ _ s e Hread) in Hin);
        try (by apply (read_no_put _ _ _ _ _ s e Hfall) in Hin);
        try (by apply early_no_put in Hin).
  - (* display load succeeds *)
    pose proof (filter_none is_request _ t1 Ht1 get_or_log_not_request) as R1.
    pose proof (filter_none is_request _ t2 Ht2 put_not_request) as R2.
    split; [|split; [|split]].
    + request_filter. rewrite R1, R2. simpl. eauto.
    + intros _ _. request_filter. by rewrite R1, R2.
    + intros Hnet0. rewrite <- Hi in Hnet0. congruence.
    + intros s e Hin. find_put Hin;
        try (by apply (read_no_put _ _ _ _ _ s e Hread) in Hin);
        try (by destruct r);
        try (by apply early_no_put in Hin).
      destruct t2 as [|e2 [|? ?]]; [done| |simpl in Hn2; lia].
      destruct Hin as [->|[]].
      exists (NetRequest TileImg (getTileUrl E coords)
                :: t1 ++ early_events E base done
                ++ [NetRequest TileImg (getTileUrl E coords)]
                ++ opt_ev done (Done false)
                ++ [NetRequest SaveImg (getTileUrl E coords)]
                ++ opt_ev (base_onload base) OriginalOnLoad
                ++ opt_ev done (Done false))%list,
             [save_log (_getTileKey (layer st) coords) r].
      split; [by repeat (progress (simpl; rewrite <- ?app_assoc))|].
      request_filter. by rewrite R1.
Qed.

(** *** The statements on sample inputs *)

Import Examples.

(** A warm store: each resolution of the cached tile requests the network
    URL once and shows the cached image, also when the network is down. *)
Lemma cache_hit_requests_the_network_witness :
  src (value_of (resolve online plain_tile tile_1_0_1 true warm)) = Some png
  /\ (exists rest,
        trace_of (resolve online plain_tile tile_1_0_1 true warm)
        = NetRequest TileImg "https://tile.openstreetmap.org/1/0/1.png" :: rest
        /\ count is_request rest = 0%nat)
  /\ count is_request
       (trace_of (resolve offline plain_tile tile_1_0_1 true
                    (state_of (resolve online plain_tile tile_1_0_1 true warm))))
     = 1%nat.
Proof.
  assert (Hheld : holds warm (_getTileKey (layer warm) tile_1_0_1)
                        (DBManager.mkEntry
                           "https://tile.openstreetmap.org///.png_1_0_1" png
                           1700000000000 None)).
  { exists (default (DBManager.initialize None) (cacheDB warm)),
           (default ∅ (DBManager.objectStore (browser warm) "leaflet_offline"
                                             "offline_tiles")).
    split; [vm_compute; reflexivity|]. split; vm_compute; reflexivity. }
  assert (Hread : readable warm).
  { exists (default (DBManager.initialize None) (cacheDB warm)).
    split; [vm_compute; reflexivity|].
    split; [left; vm_compute; reflexivity|vm_compute; reflexivity]. }
  destruct (cache_hit_requests_the_network online plain_tile tile_1_0_1 true
              warm) as (rest & Ht & H).
  destruct (H _ eq_refl Hheld ltac:(discriminate) Hread)
    as (H1 & H2 & _ & _ & _ & H5).
  split; [exact H1|]. split; [by exists rest|].
  exact (proj1 (proj2 (H5 eq_refl offline plain_tile true))).
Defined.

(** Write-back on, the display request loads, the save path's request is
    refused: nothing is written. *)
Lemma write_back_on_fetch_ok_no_write :
  useCache (layer cold) = true
  /\ write_back cold = true
  /\ value_of (_getTileFromCache (_getTileKey (layer cold) tile_1_0_1) cold)
     = None
  /\ net display_only (issued cold) = Loaded (Some png)
  /\ count is_put
       (trace_of (resolve display_only plain_tile tile_1_0_1 true cold))
     = 0%nat.
Proof. vm_compute. repeat split. Qed.

(** With the network up the tile is written once. *)
Lemma store_writes_per_resolve_witness :
  List.filter is_put (trace_of (resolve online plain_tile tile_1_0_1 true cold))
  = [CachePut "offline_tiles"
       (DBManager.mkEntry "https://tile.openstreetmap.org///.png_1_0_1" png
                          1700000000000 None)].
Proof.
  destruct (store_writes_per_resolve online plain_tile tile_1_0_1 true cold)
    as (_ & _ & _ & _ & H).
  exact (proj1 (H eq_refl eq_refl eq_refl (Some png) eq_refl) png eq_refl).
Defined.

(** C4, as stated, fails twice.  The cache is read but write-back is off,
    nothing is cached and the network is down: the store is read once, not
    twice; what follows the failed request is the call of [done] by
    Leaflet's listener.  And with write-back on, on a store whose first
    read failed but which holds the tile: the fallback read hits and the
    tile shows the cached image, yet [done] was called with the error
    before, by Leaflet's listener. *)
Lemma no_fallback_without_write_back :
  (useCache (layer cold_reading) = true
   /\ is_Some (cacheDB cold_reading)
   /\ net offline (issued cold_reading) = LoadError
   /\ trace_of (resolve offline plain_tile tile_1_0_1 true cold_reading)
      = [NetRequest TileImg "https://tile.openstreetmap.org/1/0/1.png";
         CacheGet "offline_tiles" "https://tile.openstreetmap.org///.png_1_0_1";
         NetRequest TileImg "https://tile.openstreetmap.org/1/0/1.png";
         Done true]
   /\ count is_get
        (trace_of (resolve offline plain_tile tile_1_0_1 true cold_reading))
      = 1%nat)
  /\ (write_back warm_flaky = true
      /\ net offline (issued warm_flaky) = LoadError
      /\ src (value_of (resolve offline plain_tile tile_1_0_1 true warm_flaky))
         = Some png
      /\ trace_of (resolve offline plain_tile tile_1_0_1 true warm_flaky)
         = [NetRequest TileImg "https://tile.openstreetmap.org/1/0/1.png";
            CacheGet "offline_tiles"
                     "https://tile.openstreetmap.org///.png_1_0_1";
            Log ErrorRetrievingFromCache;
            NetRequest TileImg "https://tile.openstreetmap.org/1/0/1.png";
            Done true;
            CacheGet "offline_tiles"
                     "https://tile.openstreetmap.org///.png_1_0_1";
            Log (NetworkErrorUsingCachedTile
                   "https://tile.openstreetmap.org///.png_1_0_1");
            ShowCached png;
            Done false;
            NetRequest SaveImg "https://tile.openstreetmap.org/1/0/1.png";
            Done false;
            Log ErrorSavingTileToCache]).
Proof.
  split.
  - vm_compute. repeat split. by eexists.
  - by vm_compute.
Qed.

(** Network down with write-back on: on a cold store the fallback read
    misses and [done] gets the error a second time; on a store whose first
    read failed but which holds the tile, the fallback read hits and the
    tile shows the cached image. *)
Lemma network_failure_falls_back_witness :
  (count is_get (trace_of (resolve offline plain_tile tile_1_0_1 true cold))
     = 2%nat
   /\ exists pre,
        trace_of (resolve offline plain_tile tile_1_0_1 true cold)
        = (pre ++ [Done true])%list)
  /\ (count is_get
        (trace_of (resolve offline plain_tile tile_1_0_1 true warm_flaky))
      = 2%nat
      /\ src (value_of (resolve offline plain_tile tile_1_0_1 true warm_flaky))
         = Some png).
Proof.
  split.
  - destruct (network_failure_falls_back offline plain_tile tile_1_0_1 true cold
                eq_refl eq_refl eq_refl eq_refl)
      as (H1 & rest & Ht & _ & H3 & _).
    split; [exact H1|]. rewrite Ht, (H3 eq_refl).
    eexists. rewrite !app_comm_cons, !app_assoc. reflexivity.
  - destruct (network_failure_falls_back offline plain_tile tile_1_0_1 true
                warm_flaky eq_refl eq_refl eq_refl eq_refl)
      as (H1 & rest & _ & _ & _ & H4).
    split; [exact H1|]. exact (proj1 (H4 png eq_refl)).
Defined.

(** C10, as stated, fails twice, on a cache miss with write-back on.  With
    the network down the save path made no request: the tile element was
    pointed at the URL twice and that is all.  With the network up the
    tile was written back after three requests of its URL, not two. *)
Lemma failed_display_makes_no_save_request :
  useCache (layer cold) = true
  /\ write_back cold = true
  /\ value_of (_getTileFromCache (_getTileKey (layer cold) tile_1_0_1) cold)
     = None
  /\ List.filter is_request
       (trace_of (resolve offline plain_tile tile_1_0_1 true cold))
     = [NetRequest TileImg "https://tile.openstreetmap.org/1/0/1.png";
        NetRequest TileImg "https://tile.openstreetmap.org/1/0/1.png"]
  /\ List.filter is_request
       (trace_of (resolve online plain_tile tile_1_0_1 true cold))
     = [NetRequest TileImg "https://tile.openstreetmap.org/1/0/1.png";
        NetRequest TileImg "https://tile.openstreetmap.org/1/0/1.png";
        NetRequest SaveImg "https://tile.openstreetmap.org/1/0/1.png"]
  /\ count is_put (trace_of (resolve online plain_tile tile_1_0_1 true cold))
     = 1%nat.
Proof. vm_compute. repeat split. Qed.

(** With the network up, a cold resolution with write-back requests the tile
    URL three times, the third time from the save path. *)
Lemma write_back_requests_three_times_witness :
  List.filter is_request
    (trace_of (resolve online plain_tile tile_1_0_1 true cold))
  = [NetRequest TileImg "https://tile.openstreetmap.org/1/0/1.png";
     NetRequest TileImg "https://tile.openstreetmap.org/1/0/1.png";
     NetRequest SaveImg "https://tile.openstreetmap.org/1/0/1.png"].
Proof.
  destruct (write_back_requests_three_times online plain_tile tile_1_0_1 true
              cold eq_refl eq_refl eq_refl) as (_ & H & _).
  exact (H (Some png) eq_refl).
Defined.

End FetcherFacts.

(** ** The bulk download *)

Section SchedulerFacts.
Import TileKey Scheduler.

Lemma finished_bounds (l : list TileStatus) :
  (0 <= finished l <= Z.of_nat (length l))%Z.
Proof.
  induction l as [|s l IH]; simpl; [lia|]. destruct (is_finished s); lia.
Qed.

(** Replacing the status of a tile that is not finished. *)
Lemma finished_insert (l : list TileStatus) (i : nat) (s s' : TileStatus) :
  l !! i = Some s -> is_finished s = false ->
  finished (<[i := s']> l)
  = (finished l + if is_finished s' then 1 else 0)%Z.
Proof.
  revert i. induction l as [|a l IH]; intros [|i] Hl Hs; simpl in *; try done.
  - injection Hl as ->. rewrite Hs. destruct (is_finished s'); lia.
  - rewrite (IH i Hl Hs). lia.
Qed.

(** When every tile is counted, every tile is finished. *)
Lemma finished_all (l : list TileStatus) (i : nat) (s : TileStatus) :
  finished l = Z.of_nat (length l) -> l !! i = Some s -> s = Finished.
Proof.
  revert i. induction l as [|a l IH]; intros [|i] Hall Hl; simpl in *; try done.
  - injection Hl as ->. pose proof (finished_bounds l).
    destruct s; simpl in *; try lia. done.
  - pose proof (finished_bounds l).
    apply (IH i); [|done]. destruct (is_finished a); lia.
Qed.

(** The loop of [processBatch] touches only the statuses of its batch and
    the list of requests. *)
Lemma start_images_spec (n : nat) : forall (j : Job) (i : nat),
  length (status j) = length (_tilesforSave j) ->
  (forall i', (i <= i')%nat -> (i' < length (status j))%nat ->
              status j !! i' = Some Waiting) ->
  let j' := start_images j i n in
  count j' = count j /\ fired j' = fired j
  /\ _tilesforSave j' = _tilesforSave j /\ timer j' = timer j
  /\ baseLayer j' = baseLayer j /\ cacheDB j' = cacheDB j
  /\ browser j' = browser j /\ mapName j' = mapName j
  /\ length (status j') = length (status j)
  /\ finished (status j') = finished (status j)
  /\ (forall i', (i + n <= i')%nat -> status j' !! i' = status j !! i').
Proof.
  induction n as [|n IH]; intros j i Hlen Hwait; simpl; [by repeat split|].
  destruct (_tilesforSave j !! i) as [tile|] eqn:Htile; [|by repeat split].
  assert (Hi : (i < length (status j))%nat).
  { rewrite Hlen. by apply lookup_lt_Some in Htile. }
  match goal with |- context [start_images ?J _ _] => set (j1 := J) end.
  assert (Hlen1 : length (status j1) = length (_tilesforSave j1))
    by (simpl; by rewrite length_insert).
  assert (Hwait1 : forall i', (S i <= i')%nat ->
            (i' < length (status j1))%nat -> status j1 !! i' = Some Waiting).
  { intros i' Hle Hlt. simpl in *. rewrite length_insert in Hlt.
    rewrite list_lookup_insert_ne by lia. apply Hwait; lia. }
  destruct (IH j1 (S i) Hlen1 Hwait1)
    as (H1 & H2 & H3 & H4 & H5 & H6 & H7 & H8 & H9 & H10 & H11).
  repeat split; try (etrans; [eassumption|done]).
  - rewrite H9. simpl. by rewrite length_insert.
  - rewrite H10. simpl.
    rewrite (finished_insert _ i Waiting Loading); [simpl; lia| |done].
    apply Hwait; lia.
  - intros i' Hle. rewrite H11 by lia. simpl.
    apply list_lookup_insert_ne. lia.
Qed.

Lemma existsb_app_complete (l1 l2 : list LayerEvent) :
  List.existsb is_complete (l1 ++ l2)
  = (List.existsb is_complete l1 || List.existsb is_complete l2)%bool.
Proof. apply List.existsb_app. Qed.

(** [processBatch] from the timer's start index keeps the invariant. *)
Lemma processBatch_invariant (j : Job) (s : nat) :
  length (status j) = length (_tilesforSave j) ->
  count j = finished (status j) ->
  (forall i, (s <= i)%nat -> (i < length (status j))%nat ->
             status j !! i = Some Waiting) ->
  (List.existsb is_complete (fired j) = true ->
   count j = total j
   /\ exists pre, fired j = (pre ++ [savecomplete (total j)])%list
                /\ List.existsb is_complete pre = false) ->
  Invariant (processBatch s 10 j)
  /\ count (processBatch s 10 j) = count j
  /\ fired (processBatch s 10 j) = fired j
  /\ _tilesforSave (processBatch s 10 j) = _tilesforSave j.
Proof.
  intros Hlen Hcount Hwait Hcomplete. unfold processBatch.
  set (endIdx := Nat.min (s + 10) (length (_tilesforSave j))).
  destruct (start_images_spec (endIdx - s) j s Hlen Hwait)
    as (H1 & H2 & H3 & H4 & H5 & H6 & H7 & H8 & H9 & H10 & H11).
  split; [|by simpl].
  constructor; simpl.
  - by rewrite H9, H3.
  - by rewrite H1, H10.
  - intros s' i Hs' Hle Hlt.
    destruct (endIdx <? length (_tilesforSave j))%nat eqn:Hend; [|done].
    injection Hs' as <-. rewrite H11 by lia.
    apply Hwait; [lia|]. by rewrite <- H9.
  - rewrite H2, H1. unfold total. simpl. rewrite H3. exact Hcomplete.
Qed.

(** While some tile is not finished, [savecomplete] has not been fired. *)
Lemma pending_not_complete (j : Job) (i : nat) (s : TileStatus) :
  Invariant j -> status j !! i = Some s -> is_finished s = false ->
  List.existsb is_complete (fired j) = false.
Proof.
  intros [Hlen Hcount _ Hcomplete] Hi Hs.
  destruct (List.existsb is_complete (fired j)) eqn:Hex; [|done].
  destruct (Hcomplete eq_refl) as [Htotal _]. unfold total in Htotal.
  rewrite Hcount, <- Hlen in Htotal.
  rewrite (finished_all _ _ _ Htotal Hi) in Hs. done.
Qed.

(** [count++] for a tile that was not finished keeps the invariant. *)
Lemma finish_invariant (j : Job) (i : nat) (s : TileStatus) :
  Invariant j -> status j !! i = Some s -> is_finished s = false ->
  s <> Waiting -> Invariant (finish j i).
Proof.
  intros Hinv Hi Hs Hw.
  pose proof (pending_not_complete j i s Hinv Hi Hs) as Hnc.
  destruct Hinv as [Hlen Hcount Htimer Hcomplete].
  constructor; simpl.
  - by rewrite length_insert.
  - rewrite (finished_insert _ i s Finished Hi Hs). simpl. lia.
  - intros s0 i' Hs0 Hle Hlt. rewrite length_insert in Hlt.
    destruct (decide (i = i')) as [<-|Hne].
    + rewrite (Htimer s0 i Hs0 Hle Hlt) in Hi. congruence.
    + rewrite list_lookup_insert_ne by done. by apply (Htimer s0).
  - rewrite Hnc. done.
Qed.

Lemma set_status_invariant (j : Job) (i : nat) (s s' : TileStatus) :
  Invariant j -> status j !! i = Some s -> is_finished s = false ->
  s <> Waiting -> is_finished s' = false -> Invariant (set_status j i s').
Proof.
  intros Hinv Hi Hs Hw Hs'.
  pose proof (pending_not_complete j i s Hinv Hi Hs) as Hnc.
  destruct Hinv as [Hlen Hcount Htimer Hcomplete].
  constructor; simpl.
  - by rewrite length_insert.
  - rewrite (finished_insert _ i s s' Hi Hs). rewrite Hs'. lia.
  - intros s0 i' Hs0 Hle Hlt. rewrite length_insert in Hlt.
    destruct (decide (i = i')) as [<-|Hne].
    + rewrite (Htimer s0 i Hs0 Hle Hlt) in Hi. congruence.
    + rewrite list_lookup_insert_ne by done. by apply (Htimer s0).
  - rewrite Hnc. done.
Qed.

Lemma with_store_invariant (j : Job) db w :
  Invariant j -> Invariant (with_store j db w).
Proof. intros [? ? ? ?]. by constructor. Qed.

(** Every callback keeps the invariant. *)
Lemma step_invariant (j j' : Job) (cb : Callback) :
  Invariant j -> step j cb = Some j' -> Invariant j'.
Proof.
  intros Hinv. destruct cb as [i png now|i|i|]; simpl.
  - destruct (status j !! i) as [[| | |]|] eqn:Hi; try done.
    destruct (_tilesforSave j !! i) as [tile|]; [|done].
    destruct png as [dataUrl|]; intros [= <-].
    + by apply (set_status_invariant j i Loading).
    + by apply (finish_invariant j i Loading).
  - destruct (status j !! i) as [[| | |]|] eqn:Hi; try done.
    intros [= <-]. by apply (finish_invariant j i Loading).
  - destruct (status j !! i) as [[| |value|]|] eqn:Hi; try done.
    destruct (DBManager.put _ _ _ _) as [[r db'] w'].
    assert (Hfin : Invariant (finish (with_store j db' w') i)).
    { apply (finish_invariant _ i (Storing value));
        [by apply with_store_invariant|done..]. }
    destruct r as [[]|reason]; [|by intros [= <-]].
    pose proof (pending_not_complete j i _ Hinv Hi eq_refl) as Hnc.
    destruct Hfin as [Hlen Hcount Htimer _].
    destruct (_ =? _)%Z eqn:Hdone; intros [= <-]; constructor;
      unfold total in *; simpl in *; try done.
    + intros _. apply Z.eqb_eq in Hdone. split; [done|].
      eexists. split; [reflexivity|].
      rewrite existsb_app_complete, Hnc. done.
    + rewrite existsb_app_complete, Hnc. done.
  - destruct (timer j) as [s|] eqn:Ht; [|done]. intros [= <-].
    destruct Hinv as [Hlen Hcount Htimer Hcomplete].
    apply processBatch_invariant; try done.
    intros i Hle Hlt. by apply (Htimer s).
Qed.

Lemma run_invariant (cbs : list Callback) : forall (j j' : Job),
  Invariant j -> run j cbs = Some j' -> Invariant j'.
Proof.
  induction cbs as [|cb cbs IH]; intros j j' Hinv; simpl.
  - by intros [= <-].
  - destruct (step j cb) as [j1|] eqn:Hstep; [|done].
    intros Hrun. apply (IH j1); [|done]. by apply (step_invariant j j1 cb).
Qed.

(** The job [_saveTilesImpl] starts satisfies the invariant. *)
Lemma saveTilesImpl_invariant base url_of db w tiles name j0 :
  _saveTilesImpl base url_of db w tiles name = Some j0 -> Invariant j0.
Proof.
  unfold _saveTilesImpl. destruct db as [m|]; [|done]. intros [= <-].
  apply processBatch_invariant; simpl; try done.
  - by rewrite length_replicate.
  - induction (length tiles); simpl; [done|]. lia.
  - intros i _ Hlt. rewrite length_replicate in Hlt.
    by apply lookup_replicate_2.
Qed.

(** *** What each callback does to the counter and the events *)

Lemma img_onerror_silent (j j' : Job) (i : nat) :
  step j (img_onerror i) = Some j' ->
  count j' = (count j + 1)%Z /\ fired j' = fired j.
Proof.
  simpl. destruct (status j !! i) as [[| | |]|]; try done.
  by intros [= <-].
Qed.

Lemma encode_failure_silent (j j' : Job) (i : nat) (now : Z) :
  step j (img_onload i None now) = Some j' ->
  count j' = (count j + 1)%Z /\ fired j' = fired j.
Proof.
  simpl. destruct (status j !! i) as [[| | |]|]; try done.
  destruct (_tilesforSave j !! i); [|done]. by intros [= <-].
Qed.

Lemma put_rejected_silent (j j' : Job) (i : nat) value reason db' w' :
  status j !! i = Some (Storing value) ->
  DBManager.put (cacheDB j) (browser j) (cacheStoreName (baseLayer j)) value
    = (DBManager.Rejected reason, db', w') ->
  step j (put_settled i) = Some j' ->
  count j' = (count j + 1)%Z /\ fired j' = fired j.
Proof. simpl. intros -> ->. by intros [= <-]. Qed.

Lemma put_resolved_fires (j : Job) (i : nat) value db' w' :
  status j !! i = Some (Storing value) ->
  DBManager.put (cacheDB j) (browser j) (cacheStoreName (baseLayer j)) value
    = (DBManager.Resolved tt, db', w') ->
  exists j',
    step j (put_settled i) = Some j'
    /\ count j' = (count j + 1)%Z
    /\ fired j'
       = (fired j
            ++ saveprogress (total j) (progress_of (count j + 1) (total j))
            :: (if (count j + 1 =? total j)%Z
                then [savecomplete (total j)] else []))%list.
Proof.
  simpl. intros -> ->. unfold total. simpl.
  destruct (_ =? _)%Z; eexists; (split; [reflexivity|]); simpl;
    (split; [done|]); by rewrite <- ?app_assoc.
Qed.

(** The percentage of a finished job. *)
Lemma progress_of_all (t : Z) : (0 < t)%Z -> progress_of t t = Int 100.
Proof.
  intros Ht. unfold progress_of.
  destruct (t =? 0)%Z eqn:H0; [apply Z.eqb_eq in H0; lia|].
  f_equal. unfold Math_round.
  assert (Heq : (inject_Z t / inject_Z t * 100 + (1 # 2) == 201 # 2)%Q).
  { assert (~ (inject_Z t == 0)%Q).
    { unfold Qeq, inject_Z. simpl. lia. }
    field. done. }
  by rewrite Heq.
Qed.

(** Once [count] equals the total, no callback fires an event. *)
Lemma finished_job_is_silent (cbs : list Callback) : forall (j j' : Job),
  Invariant j -> count j = total j -> run j cbs = Some j' ->
  fired j' = fired j /\ count j' = count j.
Proof.
  induction cbs as [|cb cbs IH]; intros j j' Hinv Hall; simpl.
  - by intros [= <-].
  - destruct (step j cb) as [j1|] eqn:Hstep; [|done]. intros Hrun.
    pose proof (step_invariant j j1 cb Hinv Hstep) as Hinv1.
    assert (Hfin : forall i s, status j !! i = Some s -> s = Finished).
    { intros i s Hi. destruct Hinv as [Hlen Hcount _ _].
      apply (finished_all (status j) i); [|done].
      unfold total in Hall. by rewrite <- Hcount, Hlen. }
    assert (Hsame : fired j1 = fired j /\ count j1 = count j
                    /\ total j1 = total j).
    { destruct cb as [i png now|i|i|]; simpl in Hstep.
      - destruct (status j !! i) as [s|] eqn:Hi; [|done].
        rewrite (Hfin i s Hi) in Hstep. done.
      - destruct (status j !! i) as [s|] eqn:Hi; [|done].
        rewrite (Hfin i s Hi) in Hstep. done.
      - destruct (status j !! i) as [s|] eqn:Hi; [|done].
        rewrite (Hfin i s Hi) in Hstep. done.
      - destruct (timer j) as [s|] eqn:Ht; [|done].
        injection Hstep as <-. destruct Hinv as [Hlen Hcount Htimer Hcomplete].
        destruct (processBatch_invariant j s Hlen Hcount) as (_ & H1 & H2 & H3);
          [by intros i Hle Hlt; apply (Htimer s)|done|].
        unfold total. by rewrite H1, H2, H3. }
    destruct Hsame as (Hf & Hc & Ht).
    destruct (IH j1 j' Hinv1) as [H1 H2]; [lia|done|].
    split; congruence.
Qed.

Import Examples.

(** C7.  A bulk download of one tile whose image fails to load: the counter
    is incremented and reaches the total, but no [saveprogress] event is
    fired (and no [savecomplete] either); the only event is [savestart].
    The same job with the tile stored fires [saveprogress] with 100. *)
Theorem failed_tile_fires_no_progress :
  (count <$> download [tile_1_0_1] [img_onerror 0] = Some 1%Z
   /\ total <$> download [tile_1_0_1] [img_onerror 0] = Some 1%Z
   /\ fired <$> download [tile_1_0_1] [img_onerror 0]
      = Some [savestart 1 (Int 0)])
  /\ (count <$> download [tile_1_0_1] (stored 0) = Some 1%Z
      /\ fired <$> download [tile_1_0_1] (stored 0)
         = Some [savestart 1 (Int 0); saveprogress 1 (Int 100);
                 savecomplete 1]).
Proof. repeat split; vm_compute; reflexivity. Qed.

(** C8, as stated, fails twice.  Two tiles, the first stored and the second
    failing: [count] reaches the total and no [savecomplete] is fired.  And
    a download with one failed tile ends in the same [savecomplete] event
    as one without failures: the event carries the total only. *)
Lemma complete_event_missing_or_without_counts :
  (let run1 := download [mkCoords 1 0 0; mkCoords 1 0 1]
                        (stored 0 ++ [img_onerror 1]) in
   count <$> run1 = Some 2%Z /\ total <$> run1 = Some 2%Z
   /\ (fun j => List.existsb is_complete (fired j)) <$> run1 = Some false)
  /\ (let all_stored := download [mkCoords 1 0 0; mkCoords 1 0 1]
                                 (stored 0 ++ stored 1) in
      let one_failed := download [mkCoords 1 0 0; mkCoords 1 0 1]
                                 (img_onerror 0 :: stored 1) in
      (fun j => last (fired j)) <$> all_stored = Some (Some (savecomplete 2))
      /\ (fun j => last (fired j)) <$> one_failed
         = Some (Some (savecomplete 2))).
Proof. repeat split; vm_compute; reflexivity. Qed.

(** C8 (as amended).  In every run of a bulk download: when the put of a
    tile resolves and brings [count] to the total, [saveprogress] with 100
    and then [savecomplete] with the total are fired; and once
    [savecomplete] has been fired, [count] equals the total, the event is
    the last one fired and the only [savecomplete], and whatever callbacks
    follow fire nothing more. *)
Theorem complete_event_is_last
    (base : Layer) (url_of : Coords -> string)
    (db : option DBManager.Manager) (w : DBManager.Browser)
    (tiles : list Coords) (name : option string)
    (j0 j : Job) (cbs : list Callback) :
  _saveTilesImpl base url_of db w tiles name = Some j0 ->
  run j0 cbs = Some j ->
  (forall i value db' w',
      status j !! i = Some (Storing value) ->
      DBManager.put (cacheDB j) (browser j) (cacheStoreName (baseLayer j)) value
        = (DBManager.Resolved tt, db', w') ->
      (count j + 1)%Z = total j ->
      exists j',
        step j (put_settled i) = Some j'
        /\ count j' = total j'
        /\ fired j' = (fired j ++ [saveprogress (total j) (Int 100);
                                   savecomplete (total j)])%list)
  /\ (List.existsb is_complete (fired j) = true ->
      count j = total j
      /\ (exists pre, fired j = (pre ++ [savecomplete (total j)])%list
                      /\ List.existsb is_complete pre = false)
      /\ (forall more j', run j more = Some j' -> fired j' = fired j)).
Proof.
  intros Hstart Hrun.
  pose proof (saveTilesImpl_invariant _ _ _ _ _ _ _ Hstart) as Hinv0.
  pose proof (run_invariant cbs j0 j Hinv0 Hrun) as Hinv.
  split.
  - intros i value db' w' Hi Hput Hlast.
    destruct (put_resolved_fires j i value db' w' Hi Hput)
      as (j' & Hstep & Hcount & Hfired).
    exists j'. split; [done|].
    assert (Htotal : total j' = total j).
    { simpl in Hstep. rewrite Hi, Hput in Hstep. unfold total in *.
      simpl in Hstep. destruct (_ =? _)%Z in Hstep;
        by injection Hstep as <-. }
    split; [lia|].
    rewrite Hfired. apply Z.eqb_eq in Hlast as Hb. rewrite Hb.
    rewrite Hlast, progress_of_all; [done|].
    destruct Hinv as [_ Hc _ _]. pose proof (finished_bounds (status j)). lia.
  - intros Hex. destruct (inv_complete j Hinv Hex) as [Hall Hpre].
    split; [done|]. split; [done|].
    intros more j' Hmore.
    by destruct (finished_job_is_silent more j j' Hinv Hall Hmore).
Qed.

(** The five tiles of zoom 0 and 1, all stored: [savecomplete] is fired,
    [count] equals the total, and later callbacks fire nothing more. *)
Lemma complete_event_is_last_witness :
  let j := after world_0_1
                 (stored 0 ++ stored 1 ++ stored 2 ++ stored 3 ++ stored 4) in
  count j = total j
  /\ (exists pre, fired j = (pre ++ [savecomplete (total j)])%list
                  /\ List.existsb is_complete pre = false)
  /\ (forall more j', run j more = Some j' -> fired j' = fired j).
Proof.
  refine (proj2 (complete_event_is_last
                   caching_layer tile_url (Some (DBManager.initialize None))
                   fresh_browser world_0_1 None (started world_0_1)
                   (after world_0_1 (stored 0 ++ stored 1 ++ stored 2
                                       ++ stored 3 ++ stored 4))
                   (stored 0 ++ stored 1 ++ stored 2 ++ stored 3 ++ stored 4)
                   _ _) _);
    vm_compute; reflexivity.
Defined.

End SchedulerFacts.

(** ** Enumeration of tiles *)

Section EnumeratorFacts.
Import TileKey Enumerator.
Local Open Scope R_scope.

Lemma powerRZ_2_IZR (z : Z) : (0 <= z)%Z -> powerRZ 2 z = IZR (2 ^ z).
Proof.
  intros Hz. rewrite <- (Z2Nat.id z Hz).
  by rewrite <- pow_powerRZ, pow_IZR.
Qed.

(** The column of the east edge is [2^z], one past the last valid column;
    the column of the west edge is 0. *)
Lemma column_of_east_edge (lat : R) (z : Z) :
  (0 <= z)%Z -> x (_latLngToTile lat 180 z) = (2 ^ z)%Z.
Proof.
  intros Hz. unfold _latLngToTile; simpl.
  rewrite powerRZ_2_IZR by done.
  replace ((180 + 180) / 360 * IZR (2 ^ z)) with (IZR (2 ^ z)) by field.
  apply ZfloorZ.
Qed.

Lemma column_of_west_edge (lat : R) (z : Z) :
  x (_latLngToTile lat (-180) z) = 0%Z.
Proof.
  unfold _latLngToTile; simpl.
  replace ((-180 + 180) / 360 * powerRZ 2 z) with (IZR 0) by field.
  apply ZfloorZ.
Qed.

Lemma length_range (lo hi : Z) :
  length (range lo hi) = Z.to_nat (hi - lo + 1).
Proof. unfold range. by rewrite length_map, length_seq. Qed.

Lemma in_range (lo hi i : Z) : (lo <= i <= hi)%Z -> In i (range lo hi).
Proof.
  intros Hi. unfold range. apply in_map_iff.
  exists (Z.to_nat (i - lo)). split; [lia|].
  apply in_seq. lia.
Qed.

Lemma length_flat_map_const {A B} (f : A -> list B) (l : list A) (n : nat) :
  (forall a, length (f a) = n) -> length (flat_map f l) = (length l * n)%nat.
Proof.
  intros Hf. induction l as [|a l IH]; simpl; [done|].
  by rewrite length_app, Hf, IH.
Qed.

(** The number of tiles at one zoom level: columns times rows. *)
Lemma length_tiles_at_zoom (b : LatLngBounds) (z : Z) :
  let ne := _latLngToTile (lat (getNorthEast b)) (lng (getNorthEast b)) z in
  let sw := _latLngToTile (lat (getSouthWest b)) (lng (getSouthWest b)) z in
  Z.of_nat (length (tiles_at_zoom b z))
  = ((Z.max (x ne) (x sw) - Z.min (x ne) (x sw) + 1)
     * (Z.max (y ne) (y sw) - Z.min (y ne) (y sw) + 1))%Z.
Proof.
  intros ne sw. unfold tiles_at_zoom. fold ne sw.
  rewrite (length_flat_map_const _ _
             (length (range (Z.min (y ne) (y sw)) (Z.max (y ne) (y sw)))))
    by (intros; by rewrite length_map).
  rewrite !length_range. lia.
Qed.

(** Every tile of the rectangle is enumerated. *)
Lemma in_tiles_at_zoom (b : LatLngBounds) (z tx ty : Z) :
  let ne := _latLngToTile (lat (getNorthEast b)) (lng (getNorthEast b)) z in
  let sw := _latLngToTile (lat (getSouthWest b)) (lng (getSouthWest b)) z in
  (Z.min (x ne) (x sw) <= tx <= Z.max (x ne) (x sw))%Z ->
  (Z.min (y ne) (y sw) <= ty <= Z.max (y ne) (y sw))%Z ->
  In (mkCoords z tx ty) (tiles_at_zoom b z).
Proof.
  intros ne sw Hx Hy. unfold tiles_at_zoom. fold ne sw.
  apply in_flat_map. exists tx. split; [by apply in_range|].
  apply in_map. by apply in_range.
Qed.

(** A zoom level inside the bounds contributes its rectangle. *)
Lemma in_calculateTilesForArea zoomlevels b lo hi z c :
  In z (default [lo; hi] zoomlevels) -> (lo <= z <= hi)%Z ->
  In c (tiles_at_zoom b z) ->
  In c (_calculateTilesForArea zoomlevels b lo hi).
Proof.
  intros Hz Hb Hc. unfold _calculateTilesForArea.
  apply in_flat_map. exists z. split; [done|].
  destruct (z <? lo)%Z eqn:H1; [apply Z.ltb_lt in H1; lia|].
  destruct (z >? hi)%Z eqn:H2; [|done].
  apply Z.gtb_lt in H2. lia.
Qed.

Lemma calculateTilesForArea_single (b : LatLngBounds) (z : Z) :
  _calculateTilesForArea (Some [z]) b z z = tiles_at_zoom b z.
Proof.
  unfold _calculateTilesForArea. simpl.
  rewrite Z.ltb_irrefl. replace (z >? z)%Z with false.
  - simpl. apply app_nil_r.
  - symmetry. rewrite Z.gtb_ltb. apply Z.ltb_irrefl.
Qed.

Lemma tiles_at_zoom_nonempty (b : LatLngBounds) (z : Z) :
  exists c, In c (tiles_at_zoom b z) /\ cz c = z.
Proof.
  eexists (mkCoords z _ _). split; [|done].
  apply in_tiles_at_zoom; split; try reflexivity; lia.
Qed.

(** No power of four is a multiple of [2^z + 1]. *)
Lemma extra_column_not_power_of_four (z rows : Z) :
  (0 <= z)%Z -> ((2 ^ z + 1) * rows)%Z <> (4 ^ z)%Z.
Proof.
  intros Hz Heq.
  assert (Hpos : (0 < 2 ^ z)%Z) by (apply Z.pow_pos_nonneg; lia).
  change 4%Z with (2 * 2)%Z in Heq. rewrite Z.pow_mul_l in Heq.
  assert (Hdiv : (2 ^ z + 1 | 2 ^ z * 2 ^ z)%Z) by (exists rows; lia).
  apply Z.gauss in Hdiv.
  - apply Z.divide_pos_le in Hdiv; lia.
  - rewrite Z.gcd_comm, Z.add_comm, Z.gcd_add_diag_r. apply Z.gcd_1_r.
Qed.

(** The tiles of zoom [z] in an enumeration: the rectangle of [z], once for
    each time [z] is listed. *)
Lemma at_zoom_grid (z z' : Z) (cols rows : list Z) :
  at_zoom z (flat_map (fun tx => map (fun ty => mkCoords z' tx ty) rows) cols)
  = if (z' =? z)%Z
    then flat_map (fun tx => map (fun ty => mkCoords z' tx ty) rows) cols
    else [].
Proof.
  unfold at_zoom.
  induction cols as [|tx cols IH]; simpl; [by destruct (z' =? z)%Z|].
  rewrite List.filter_app, IH.
  assert (Hrow : List.filter (fun c => (cz c =? z)%Z)
                             (map (fun ty => mkCoords z' tx ty) rows)
                 = if (z' =? z)%Z then map (fun ty => mkCoords z' tx ty) rows
                   else []).
  { clear IH. induction rows as [|ty rows IHr]; simpl;
      [by destruct (z' =? z)%Z|].
    rewrite IHr. by destruct (z' =? z)%Z. }
  rewrite Hrow. by destruct (z' =? z)%Z.
Qed.

Lemma at_zoom_tiles_at_zoom (b : LatLngBounds) (z z' : Z) :
  at_zoom z (tiles_at_zoom b z')
  = if (z' =? z)%Z then tiles_at_zoom b z' else [].
Proof. unfold tiles_at_zoom. apply at_zoom_grid. Qed.

Lemma length_at_zoom (levels : list Z) (b : LatLngBounds) (lo hi z : Z) :
  (lo <= z <= hi)%Z ->
  length (at_zoom z (flat_map (fun zoom =>
                                 if ((zoom <? lo) || (zoom >? hi))%Z then []
                                 else tiles_at_zoom b zoom) levels))
  = (count_occ Z.eq_dec levels z * length (tiles_at_zoom b z))%nat.
Proof.
  intros Hz. induction levels as [|z' levels IH]; simpl; [done|].
  unfold at_zoom in *. rewrite List.filter_app, length_app, IH.
  destruct (Z.eq_dec z' z) as [->|Hne].
  - destruct (z <? lo)%Z eqn:H1; [apply Z.ltb_lt in H1; lia|].
    destruct (z >? hi)%Z eqn:H2; [apply Z.gtb_lt in H2; lia|].
    simpl. fold (at_zoom z (tiles_at_zoom b z)).
    rewrite at_zoom_tiles_at_zoom, Z.eqb_refl. lia.
  - destruct ((z' <? lo) || (z' >? hi))%Z; simpl; [done|].
    fold (at_zoom z (tiles_at_zoom b z')).
    rewrite at_zoom_tiles_at_zoom.
    destruct (z' =? z)%Z eqn:Heq; [apply Z.eqb_eq in Heq; lia|done].
Qed.

(** C5.  For a box from longitude -180 to 180 and a zoom level [z] that is
    requested and within the bounds, the tiles of zoom [z] form [2^z + 1]
    columns (0 to [2^z], the last one outside the grid) times at least one
    row: the list contains a tile of column [2^z], the number of its tiles
    of zoom [z] is a positive multiple of [2^z + 1] and so never [4^z], and
    at zoom 0 there are at least two. *)
Theorem whole_world_has_extra_column
    (zoomlevels : option (list Z)) (b : LatLngBounds) (lo hi z : Z) :
  lng (getSouthWest b) = -180 ->
  lng (getNorthEast b) = 180 ->
  (0 <= z)%Z -> (lo <= z <= hi)%Z ->
  In z (default [lo; hi] zoomlevels) ->
  let tiles := _calculateTilesForArea zoomlevels b lo hi in
  (exists k, (1 <= k)%Z
             /\ Z.of_nat (length (at_zoom z tiles)) = ((2 ^ z + 1) * k)%Z)
  /\ Z.of_nat (length (at_zoom z tiles)) <> (4 ^ z)%Z
  /\ (exists c, In c tiles /\ cz c = z /\ cx c = (2 ^ z)%Z /\ ~ in_grid c)
  /\ (z = 0%Z -> (2 <= length (at_zoom z tiles))%nat).
Proof.
  intros Hw He Hz Hb Hin tiles. subst tiles. unfold _calculateTilesForArea.
  rewrite (length_at_zoom _ b lo hi z Hb).
  pose proof (length_tiles_at_zoom b z) as Hlen. cbv zeta in Hlen.
  assert (Hpos : (0 < 2 ^ z)%Z) by (apply Z.pow_pos_nonneg; lia).
  set (ne := _latLngToTile (lat (getNorthEast b)) (lng (getNorthEast b)) z) in *.
  set (sw := _latLngToTile (lat (getSouthWest b)) (lng (getSouthWest b)) z) in *.
  assert (Hxe : x ne = (2 ^ z)%Z)
    by (unfold ne; rewrite He; by apply column_of_east_edge).
  assert (Hxw : x sw = 0%Z)
    by (unfold sw; rewrite Hw; apply column_of_west_edge).
  rewrite Hxe, Hxw in Hlen.
  rewrite Z.max_l, Z.min_r in Hlen by lia.
  replace (2 ^ z - 0 + 1)%Z with (2 ^ z + 1)%Z in Hlen by lia.
  set (rows := (Z.max (y ne) (y sw) - Z.min (y ne) (y sw) + 1)%Z) in *.
  assert (Hrows : (1 <= rows)%Z) by (unfold rows; lia).
  assert (Hocc : (1 <= count_occ Z.eq_dec (default [lo; hi] zoomlevels) z)%nat).
  { apply (count_occ_In Z.eq_dec) in Hin. lia. }
  set (m := count_occ Z.eq_dec (default [lo; hi] zoomlevels) z) in *.
  assert (Hsize : Z.of_nat (m * length (tiles_at_zoom b z))
                  = ((2 ^ z + 1) * (Z.of_nat m * rows))%Z)
    by (rewrite Nat2Z.inj_mul, Hlen; ring).
  split; [|split; [|split]].
  - exists (Z.of_nat m * rows)%Z. split; [nia|done].
  - rewrite Hsize. by apply extra_column_not_power_of_four.
  - exists (mkCoords z (2 ^ z) (y ne)). split.
    + apply (in_calculateTilesForArea _ _ _ _ z); [done..|].
      apply in_tiles_at_zoom; fold ne sw; lia.
    + simpl. repeat split. unfold in_grid. simpl. lia.
  - intros ->. simpl in Hsize. nia.
Qed.

(** The whole world at zoom 0: at least two tiles, one of them in column 1. *)
Lemma whole_world_has_extra_column_witness :
  (2 <= length (at_zoom 0 (_calculateTilesForArea (Some [0%Z])
                                                    Examples.world_bounds 0 0)))%nat
  /\ exists c, In c (_calculateTilesForArea (Some [0%Z]) Examples.world_bounds 0 0)
               /\ cz c = 0%Z /\ cx c = 1%Z /\ ~ in_grid c.
Proof.
  destruct (whole_world_has_extra_column (Some [0%Z]) Examples.world_bounds 0 0 0
              eq_refl eq_refl ltac:(lia) ltac:(lia) (or_introl eq_refl))
    as (_ & _ & H3 & H4).
  split; [exact (H4 eq_refl)|exact H3].
Defined.

(** The row of a corner north of the Mercator limit is negative; the row of
    a corner south of it is [2^z] or more. *)
Lemma row_north_of_limit (la lo : R) (z : Z) :
  PI < mercator la -> (y (_latLngToTile la lo z) < 0)%Z.
Proof.
  intros Hm. unfold _latLngToTile; simpl. fold (mercator la).
  pose proof PI_RGT_0 as Hpi.
  pose proof (powerRZ_lt 2 z ltac:(lra)) as Hn.
  set (n := powerRZ 2 z) in *.
  assert (Hq : 1 < mercator la / PI).
  { apply (Rmult_lt_reg_r PI); [done|]. unfold Rdiv.
    rewrite Rmult_assoc, Rinv_l by lra. lra. }
  assert (Harg : (1 - mercator la / PI) / 2 * n < 0) by nra.
  pose proof (Zfloor_bound ((1 - mercator la / PI) / 2 * n)) as [Hfl _].
  apply lt_IZR. lra.
Qed.

Lemma row_south_of_limit (la lo : R) (z : Z) :
  (0 <= z)%Z -> mercator la < - PI ->
  (2 ^ z <= y (_latLngToTile la lo z))%Z.
Proof.
  intros Hz Hm. unfold _latLngToTile; simpl. fold (mercator la).
  pose proof PI_RGT_0 as Hpi.
  rewrite powerRZ_2_IZR by done.
  assert (Hn : 0 < IZR (2 ^ z)) by (apply IZR_lt, Z.pow_pos_nonneg; lia).
  set (n := IZR (2 ^ z)) in *.
  assert (Hq : mercator la / PI < -1).
  { apply (Rmult_lt_reg_r PI); [done|]. unfold Rdiv.
    rewrite Rmult_assoc, Rinv_l by lra. lra. }
  assert (Harg : n <= (1 - mercator la / PI) / 2 * n) by nra.
  by apply Zfloor_lub.
Qed.

(** *** The Mercator ordinate at 85.1 degrees *)

(** pi is below 3.1421: three terms of the series for
    [2 atan (1/3) + atan (1/7)]. *)
Lemma PI_upper : PI <= 3.1421.
Proof.
  pose proof (PI_2_3_7_ineq 1) as [_ H].
  unfold PI_2_3_7_tg, tg_alt, Ratan_seq in H. simpl in H. lra.
Qed.

Lemma exp_le_inv (t : R) : 0 <= t < 1 -> exp t <= / (1 - t).
Proof.
  intros [H0 H1].
  pose proof (exp_ineq1_le (- t)) as H.
  rewrite exp_Ropp in H.
  pose proof (exp_pos t) as Hp.
  apply (Rmult_le_reg_r (1 - t)); [lra|].
  rewrite Rinv_l by lra.
  apply (Rmult_le_compat_l (exp t)) in H; [|lra].
  rewrite Rinv_r in H by lra. lra.
Qed.

Lemma exp_square_le (t b b' : R) :
  exp t <= b -> b * b <= b' -> exp (2 * t) <= b'.
Proof.
  intros H Hb. replace (2 * t) with (t + t) by ring. rewrite exp_plus.
  pose proof (exp_pos t). nra.
Qed.

(** [exp pi] is below 23.27: bound [exp (3.1421 / 1024)] and square ten
    times, rounding up. *)
Lemma exp_PI_upper : exp PI <= 23.2645486877.
Proof.
  apply Rle_trans with (exp 3.1421).
  { pose proof PI_upper as H. destruct H as [H|H].
    - left. by apply exp_increasing.
    - rewrite H. lra. }
  assert (H : exp (3.1421 / 1024) <= 1.0030779015).
  { eapply Rle_trans; [apply exp_le_inv; lra|].
    apply (Rmult_le_reg_r (1 - 3.1421 / 1024)); [lra|].
    rewrite Rinv_l by lra. lra. }
  apply (exp_square_le _ _ 1.0061652765) in H; [|lra].
  apply (exp_square_le _ _ 1.0123685637) in H; [|lra].
  apply (exp_square_le _ _ 1.0248901088) in H; [|lra].
  apply (exp_square_le _ _ 1.0503997352) in H; [|lra].
  apply (exp_square_le _ _ 1.1033396038) in H; [|lra].
  apply (exp_square_le _ _ 1.2173582814) in H; [|lra].
  apply (exp_square_le _ _ 1.4819611853) in H; [|lra].
  apply (exp_square_le _ _ 2.1962089548) in H; [|lra].
  apply (exp_square_le _ _ 4.8233337732) in H; [|lra].
  apply (exp_square_le _ _ 23.2645486877) in H; [|lra].
  match type of H with
  | exp ?t <= _ => replace t with 3.1421 in H by field
  end.
  exact H.
Qed.

Lemma cos_lower (a : R) : 0 <= a <= PI / 2 -> 1 - a * a / 2 <= cos a.
Proof.
  intros [H0 H1]. pose proof PI_RGT_0.
  destruct (cos_bound a 0) as [Hb _]; [lra|lra|].
  unfold cos_approx, cos_term in Hb. simpl in Hb. lra.
Qed.

(** A latitude of 85.1 degrees is north of the Mercator limit. *)
Lemma mercator_85_1 : PI < mercator 85.1.
Proof.
  unfold mercator.
  pose proof PI_RGT_0 as Hpi. pose proof PI_upper as Hup.
  pose proof PI2_1 as Hlow.
  set (phi := 85.1 * PI / 180).
  set (eps := PI / 2 - phi).
  assert (Heps : 0 < eps <= 0.0855349445) by (unfold eps, phi; lra).
  assert (Hphi : 0 < phi < PI / 2) by (unfold phi; lra).
  assert (Hcos : cos phi = sin eps) by (unfold eps; by rewrite sin_shift).
  assert (Hsin : sin phi = cos eps) by (unfold eps; by rewrite cos_shift).
  assert (Hs0 : 0 < sin eps) by (apply sin_gt_0; lra).
  assert (Hs1 : sin eps < eps) by (apply sin_lt_x; lra).
  assert (Hc : 1 - eps * eps / 2 <= cos eps) by (apply cos_lower; lra).
  assert (Hval : 23.3 < tan phi + 1 / cos phi).
  { unfold tan. rewrite Hcos, Hsin.
    replace (cos eps / sin eps + 1 / sin eps) with ((cos eps + 1) / sin eps)
      by (field; lra).
    apply (Rmult_lt_reg_r (sin eps)); [done|].
    unfold Rdiv. rewrite Rmult_assoc, Rinv_l by lra. nra. }
  pose proof exp_PI_upper as He.
  rewrite <- (ln_exp PI) at 1. apply ln_increasing; [apply exp_pos|]. lra.
Qed.

(** The ordinate is odd in the latitude. *)
Lemma mercator_opp (la : R) :
  -90 < la < 90 -> mercator (- la) = - mercator la.
Proof.
  intros Hla. unfold mercator. pose proof PI_RGT_0 as Hpi.
  set (phi := la * PI / 180).
  replace (- la * PI / 180) with (- phi) by (unfold phi; lra).
  assert (Hphi : - (PI / 2) < phi < PI / 2) by (unfold phi; split; nra).
  assert (Hcos : 0 < cos phi) by (apply cos_gt_0; lra).
  pose proof (sin2_cos2 phi) as Hsc. unfold Rsqr in Hsc.
  pose proof (SIN_bound phi) as [Hs1 Hs2].
  rewrite tan_neg, cos_neg. unfold tan.
  set (s := sin phi) in *. set (c := cos phi) in *.
  assert (H1s : 0 < 1 + s) by nra.
  replace (- (s / c) + 1 / c) with (/ (s / c + 1 / c)).
  - apply ln_Rinv.
    replace (s / c + 1 / c) with ((1 + s) / c) by (field; lra).
    apply Rdiv_lt_0_compat; lra.
  - replace (s / c + 1 / c) with ((1 + s) / c) by (field; lra).
    rewrite Rinv_div.
    apply (Rmult_eq_reg_r ((1 + s) * c)); [|nra].
    replace (c / (1 + s) * ((1 + s) * c)) with (c * c) by (field; lra).
    replace ((- (s / c) + 1 / c) * ((1 + s) * c)) with ((1 - s) * (1 + s))
      by (field; lra).
    nra.
Qed.

Lemma mercator_minus_85_1 : mercator (-85.1) < - PI.
Proof.
  replace (-85.1) with (Ropp 85.1) by lra.
  rewrite mercator_opp by lra. pose proof mercator_85_1. lra.
Qed.

(** Between -90 and 90 degrees the rows are numbers. *)
Lemma row_kind_number (la : R) : -90 < la < 90 -> row_kind la = NumberRow.
Proof.
  intros Hla. unfold row_kind. cbv zeta. pose proof PI_RGT_0 as Hpi.
  assert (Hc : 0 < cos (la * PI / 180)) by (apply cos_gt_0; nra).
  by destruct (Rlt_dec 0 (cos (la * PI / 180))).
Qed.

(** A list that fits an array is returned, for corners between the poles. *)
Lemma pushed_fits (b : LatLngBounds) (tiles : list Coords) :
  -90 < lat (getNorthEast b) < 90 -> -90 < lat (getSouthWest b) < 90 ->
  (Z.of_nat (length tiles) <= max_array_length)%Z ->
  pushed b tiles = Some (Returns tiles).
Proof.
  intros Hne Hsw Hfits. unfold pushed.
  rewrite (row_kind_number _ Hne), (row_kind_number _ Hsw).
  by rewrite (proj2 (Z.leb_le _ _) Hfits).
Qed.

Lemma Zfloor_within (v : R) (a b : Z) :
  IZR a <= v -> v < IZR b + 1 -> (a <= Zfloor v <= b)%Z.
Proof.
  intros Ha Hb. split; [by apply Zfloor_lub|].
  pose proof (Zfloor_bound v) as [Hfl _].
  assert (H : (Zfloor v < b + 1)%Z); [|lia].
  apply lt_IZR. rewrite plus_IZR. lra.
Qed.

(** The ordinate of 85.1 degrees is small: the argument of the logarithm
    is below 26. *)
Lemma mercator_85_1_upper : mercator 85.1 < 25.
Proof.
  unfold mercator.
  pose proof PI_RGT_0 as Hpi. pose proof PI_upper as Hup.
  pose proof PI2_3_2 as Hlow.
  set (phi := 85.1 * PI / 180).
  set (eps := PI / 2 - phi).
  assert (Heps : 0.0816 < eps <= 0.0855349445) by (unfold eps, phi; lra).
  assert (Hcos : cos phi = sin eps) by (unfold eps; by rewrite sin_shift).
  assert (Hsin : sin phi = cos eps) by (unfold eps; by rewrite cos_shift).
  assert (Hs : 0.08 <= sin eps).
  { destruct (sin_bound eps 0) as [Hb _]; [lra|lra|].
    unfold sin_approx, sin_term in Hb. simpl in Hb. nra. }
  pose proof (COS_bound eps) as [_ Hc1].
  assert (Hval : 0 < tan phi + 1 / cos phi < 26).
  { unfold tan. rewrite Hcos, Hsin.
    replace (cos eps / sin eps + 1 / sin eps) with ((cos eps + 1) / sin eps)
      by (field; lra).
    assert (Hc0 : 0 < cos eps) by (apply cos_gt_0; lra).
    split; [apply Rdiv_lt_0_compat; lra|].
    apply (Rmult_lt_reg_r (sin eps)); [lra|].
    unfold Rdiv. rewrite Rmult_assoc, Rinv_l by lra. nra. }
  pose proof (exp_ineq1 25 ltac:(lra)) as He.
  rewrite <- (ln_exp 25). apply ln_increasing; lra.
Qed.

(** At zoom 0 a latitude whose ordinate is within 25 of zero has a row
    between -4 and 4. *)
Lemma row_at_zoom_0 (la lo : R) :
  -25 < mercator la < 25 -> (-4 <= y (_latLngToTile la lo 0) <= 4)%Z.
Proof.
  intros Hm. unfold _latLngToTile. cbn [y]. fold (mercator la).
  pose proof PI2_3_2 as Hlow. pose proof PI_RGT_0 as Hpi.
  change (powerRZ 2 0) with 1.
  assert (Hq : -9 < mercator la / PI < 9).
  { split.
    - apply (Rmult_lt_reg_r PI); [done|].
      unfold Rdiv. rewrite Rmult_assoc, Rinv_l by lra. lra.
    - apply (Rmult_lt_reg_r PI); [done|].
      unfold Rdiv. rewrite Rmult_assoc, Rinv_l by lra. lra. }
  apply Zfloor_within; lra.
Qed.

(** The list for the box of the two latitudes 85.1 at zoom 0 is short. *)
Lemma polar_box_fits :
  (Z.of_nat (length (_calculateTilesForArea (Some [0%Z]) Examples.polar_bounds
                                            0 0))
   <= max_array_length)%Z.
Proof.
  rewrite calculateTilesForArea_single, length_tiles_at_zoom.
  cbn [Examples.polar_bounds getNorthEast getSouthWest lat lng].
  pose proof (row_at_zoom_0 85.1 10) as Hn.
  pose proof (row_at_zoom_0 (-85.1) (-10)) as Hs.
  pose proof mercator_85_1 as H1. pose proof mercator_85_1_upper as H2.
  pose proof mercator_minus_85_1 as H3. pose proof PI_RGT_0 as Hpi.
  assert (H4 : -25 < mercator (-85.1)).
  { replace (-85.1) with (Ropp 85.1) by lra. rewrite mercator_opp by lra. lra. }
  specialize (Hn ltac:(lra)). specialize (Hs ltac:(lra)).
  assert (Hx1 : x (_latLngToTile 85.1 10 0) = 0%Z).
  { unfold _latLngToTile. cbn [x]. change (powerRZ 2 0) with 1.
    assert (H : (0 <= Zfloor ((10 + 180) / 360 * 1) <= 0)%Z)
      by (apply Zfloor_within; lra). lia. }
  assert (Hx2 : x (_latLngToTile (-85.1) (-10) 0) = 0%Z).
  { unfold _latLngToTile. cbn [x]. change (powerRZ 2 0) with 1.
    assert (H : (0 <= Zfloor ((-10 + 180) / 360 * 1) <= 0)%Z)
      by (apply Zfloor_within; lra). lia. }
  rewrite Hx1, Hx2. unfold max_array_length. lia.
Qed.




End EnumeratorFacts.

(** ** The records of the store *)

Section RecordFacts.
Import DBManager Records.

Lemma onupgradeneeded_empty :
  onupgradeneeded ∅ = <["offline_tiles" := ∅]> ∅.
Proof. unfold onupgradeneeded. by rewrite lookup_empty. Qed.

(** A database [open] creates has one store, and that store is empty. *)
Lemma record_backend_open name w db s k :
  record (backend_open name w) db s k = record w db s k.
Proof.
  unfold record, objectStore, backend_open; simpl.
  destruct (databases w !! name) as [stores|] eqn:Hname; [done|].
  destruct (decide (name = db)) as [<-|Hne].
  - rewrite lookup_insert_eq, Hname, onupgradeneeded_empty. simpl.
    destruct (decide ("offline_tiles" = s)) as [<-|Hs].
    + rewrite lookup_insert_eq. simpl. apply lookup_empty.
    + rewrite lookup_insert_ne by done. by rewrite lookup_empty.
  - by rewrite lookup_insert_ne.
Qed.

(** [open] adds or changes no record and leaves the request counter and the
    faults of the browser as they are. *)
Lemma open_frame this w r this1 w0 :
  open this w = (r, this1, w0) ->
  (forall db s k, record w0 db s k = record w db s k)
  /\ requested w0 = requested w /\ request_error w0 = request_error w
  /\ indexedDB w0 = indexedDB w /\ open_error w0 = open_error w
  /\ dbName this1 = dbName this.
Proof.
  unfold open. destruct (_db this) as [h|].
  - by intros [= <- <- <-].
  - destruct (negb (indexedDB w)); [by intros [= <- <- <-]|].
    destruct (open_error w) eqn:He; intros [= <- <- <-]; simpl.
    + by repeat split.
    + repeat split; try done. intros. apply record_backend_open.
Qed.

Lemma record_count_request w db s k :
  record (count_request w) db s k = record w db s k.
Proof. done. Qed.

(** What a resolved [put] did. *)
Lemma put_resolved this w s value this1 w1 :
  put this w s value = (Resolved tt, this1, w1) ->
  exists conn w0 stores store,
    open this w = (Resolved conn, this1, w0)
    /\ _db this1 = Some conn
    /\ databases w0 !! conn = Some stores /\ stores !! s = Some store
    /\ w1 = count_request
              (with_databases w0
                 (<[conn := <[s := <[key value := value]> store]> stores]>
                    (databases w0))).
Proof.
  unfold put. destruct (open this w) as [[[conn|r] this'] w0] eqn:Hopen; [|done].
  destruct (databases w0 !! conn) as [stores|] eqn:Hdb; [|done].
  destruct (stores !! s) as [store|] eqn:Hs; [|done].
  destruct (request_error w0 (requested w0)); [done|].
  intros [= <- <-]. exists conn, w0, stores, store.
  repeat split; try done. eapply open_resolved_holds; exact Hopen.
Qed.

(** The records after a resolved [put]. *)
Lemma put_records this w s value this1 w1 :
  put this w s value = (Resolved tt, this1, w1) ->
  exists conn,
    _db this1 = Some conn
    /\ record w1 conn s (key value) = Some value
    /\ (forall db s' k, (db, s', k) <> (conn, s, key value) ->
                        record w1 db s' k = record w db s' k)
    /\ requested w1 = S (requested w) /\ request_error w1 = request_error w.
Proof.
  intros Hput.
  destruct (put_resolved _ _ _ _ _ _ Hput)
    as (conn & w0 & stores & store & Hopen & Hconn & Hdb & Hs & ->).
  destruct (open_frame _ _ _ _ _ Hopen) as (Hrec & Hreq & Herr & _).
  exists conn. split; [done|]. split; [|split; [|by simpl; rewrite Hreq, Herr]].
  - unfold record, objectStore; simpl.
    rewrite lookup_insert_eq. simpl. rewrite lookup_insert_eq. simpl.
    apply lookup_insert_eq.
  - intros db s' k Hne. rewrite <- Hrec.
    unfold record, objectStore; simpl.
    destruct (decide (conn = db)) as [<-|Hdbne];
      [|by rewrite lookup_insert_ne].
    rewrite lookup_insert_eq, Hdb. simpl.
    destruct (decide (s = s')) as [<-|Hsne];
      [|by rewrite lookup_insert_ne].
    rewrite lookup_insert_eq, Hs. simpl.
    apply lookup_insert_ne. congruence.
Qed.

(** A [get] through a manager that holds a connection. *)
Lemma get_held this w conn s k :
  _db this = Some conn ->
  request_error w (requested w) = false ->
  is_Some (objectStore w conn s) ->
  get this w s k = (Resolved (record w conn s k), this, count_request w).
Proof.
  intros Hconn Hok [objs Hobjs]. unfold get, open, record.
  by rewrite Hconn, Hobjs, Hok.
Qed.

(** [get] changes no record, whatever its outcome. *)
Lemma get_frame this w s k r this1 w1 :
  get this w s k = (r, this1, w1) ->
  forall db s' k', record w1 db s' k' = record w db s' k'.
Proof.
  unfold get. destruct (open this w) as [[[conn|r0] this'] w0] eqn:Hopen.
  - destruct (open_frame _ _ _ _ _ Hopen) as (Hrec & _).
    destruct (objectStore w0 conn s); [|by intros [= <- <- <-]].
    destruct (request_error w0 (requested w0)); by intros [= <- <- <-].
  - destruct (open_frame _ _ _ _ _ Hopen) as (Hrec & _).
    by intros [= <- <- <-].
Qed.

(** A rejected [put] changes no record. *)
Lemma put_rejected_frame this w s value reason this1 w1 :
  put this w s value = (Rejected reason, this1, w1) ->
  forall db s' k', record w1 db s' k' = record w db s' k'.
Proof.
  unfold put. destruct (open this w) as [[[conn|r0] this'] w0] eqn:Hopen;
    destruct (open_frame _ _ _ _ _ Hopen) as (Hrec & _).
  - destruct (databases w0 !! conn) as [stores|]; [|by intros [= <- <- <-]].
    destruct (stores !! s); [|by intros [= <- <- <-]].
    destruct (request_error w0 (requested w0)); [|done].
    by intros [= <- <- <-].
  - by intros [= <- <- <-].
Qed.

(** What a resolved [clear] did. *)
Lemma clear_resolved this w s this1 w1 :
  clear this w s = (Resolved tt, this1, w1) ->
  exists conn w0 stores store,
    open this w = (Resolved conn, this1, w0)
    /\ _db this1 = Some conn
    /\ databases w0 !! conn = Some stores /\ stores !! s = Some store
    /\ w1 = count_request
              (with_databases w0 (<[conn := <[s := ∅]> stores]> (databases w0))).
Proof.
  unfold clear. destruct (open this w) as [[[conn|r] this'] w0] eqn:Hopen; [|done].
  destruct (databases w0 !! conn) as [stores|] eqn:Hdb; [|done].
  destruct (stores !! s) as [store|] eqn:Hs; [|done].
  destruct (request_error w0 (requested w0)); [done|].
  intros [= <- <-]. exists conn, w0, stores, store.
  repeat split; try done. eapply open_resolved_holds; exact Hopen.
Qed.

Lemma clear_rejected_frame this w s reason this1 w1 :
  clear this w s = (Rejected reason, this1, w1) ->
  forall db s' k', record w1 db s' k' = record w db s' k'.
Proof.
  unfold clear. destruct (open this w) as [[[conn|r0] this'] w0] eqn:Hopen;
    destruct (open_frame _ _ _ _ _ Hopen) as (Hrec & _).
  - destruct (databases w0 !! conn) as [stores|]; [|by intros [= <- <- <-]].
    destruct (stores !! s); [|by intros [= <- <- <-]].
    destruct (request_error w0 (requested w0)); [|done].
    by intros [= <- <- <-].
  - by intros [= <- <- <-].
Qed.

(** The record a resolved [put] stored is what the next [get] finds. *)
Lemma put_read_back this w s value this1 w1 :
  put this w s value = (Resolved tt, this1, w1) ->
  request_error w1 (requested w1) = false ->
  get this1 w1 s (key value)
  = (Resolved (Some value), this1, count_request w1).
Proof.
  intros Hput Hok.
  destruct (put_records _ _ _ _ _ _ Hput) as (conn & Hconn & Hrec & _).
  rewrite (get_held this1 w1 conn s (key value) Hconn Hok), Hrec; [done|].
  unfold record in Hrec. by destruct (objectStore w1 conn s).
Qed.

(** X1.  Round trip through the store: after a [put] that resolved, a [get]
    of the same store and the record's key (its request not failing)
    resolves with exactly the record that was put, whatever the store held
    under that key before, through the connection the [put] left open. *)
Theorem put_then_get this w s value this1 w1 :
  put this w s value = (Resolved tt, this1, w1) ->
  request_error w1 (requested w1) = false ->
  get this1 w1 s (key value)
  = (Resolved (Some value), this1, count_request w1).
Proof.
  intros Hput Hok.
  destruct (put_resolved _ _ _ _ _ _ Hput)
    as (conn & w0 & stores & store & _ & Hconn & _ & _ & ->).
  unfold get, open. rewrite Hconn. unfold objectStore. simpl.
  rewrite lookup_insert_eq. simpl. rewrite lookup_insert_eq.
  simpl in Hok. rewrite Hok. by rewrite lookup_insert_eq.
Qed.

(** A first put into a new browser, read back. *)
Lemma put_then_get_witness :
  let e := mkEntry "k" "data:," 7 None in
  let p := put (initialize None) Examples.fresh_browser "offline_tiles" e in
  get p.1.2 p.2 "offline_tiles" "k"
  = (Resolved (Some e), p.1.2, count_request p.2).
Proof.
  intros e p.
  apply (put_then_get (initialize None) Examples.fresh_browser
           "offline_tiles" e p.1.2 p.2); vm_compute; reflexivity.
Defined.

(** X2.  A [put] that resolved changed one record and nothing else: the
    record under its key in its store of the database the manager is
    connected to is the value put; every record under another key, in
    another store or in another database is as it was. *)
Theorem put_changes_one_record this w s value this1 w1 :
  put this w s value = (Resolved tt, this1, w1) ->
  exists conn,
    _db this1 = Some conn
    /\ record w1 conn s (key value) = Some value
    /\ forall db s' k, (db, s', k) <> (conn, s, key value) ->
                       record w1 db s' k = record w db s' k.
Proof.
  intros Hput.
  destruct (put_records _ _ _ _ _ _ Hput) as (conn & H1 & H2 & H3 & _).
  by exists conn.
Qed.

(** The same first put: nothing but the record "k" has changed. *)
Lemma put_changes_one_record_witness :
  let e := mkEntry "k" "data:," 7 None in
  let p := put (initialize None) Examples.fresh_browser "offline_tiles" e in
  exists conn,
    _db p.1.2 = Some conn
    /\ record p.2 conn "offline_tiles" "k" = Some e
    /\ forall db s' k, (db, s', k) <> (conn, "offline_tiles", "k") ->
         record p.2 db s' k = record Examples.fresh_browser db s' k.
Proof.
  intros e p.
  apply (put_changes_one_record (initialize None) Examples.fresh_browser
           "offline_tiles" e p.1.2 p.2); vm_compute; reflexivity.
Defined.

(** The records after a resolved [clear]. *)
Lemma clear_records this w s this1 w1 :
  clear this w s = (Resolved tt, this1, w1) ->
  exists conn,
    _db this1 = Some conn
    /\ is_Some (objectStore w1 conn s)
    /\ (forall k, record w1 conn s k = None)
    /\ (forall db s' k, (db, s') <> (conn, s) ->
                        record w1 db s' k = record w db s' k)
    /\ requested w1 = S (requested w) /\ request_error w1 = request_error w.
Proof.
  intros Hclear.
  destruct (clear_resolved _ _ _ _ _ Hclear)
    as (conn & w0 & stores & store & Hopen & Hconn & Hdb & Hs & ->).
  destruct (open_frame _ _ _ _ _ Hopen) as (Hrec & Hreq & Herr & _).
  exists conn. split; [done|].
  assert (Hstore : objectStore
            (count_request
               (with_databases w0 (<[conn := <[s := ∅]> stores]> (databases w0))))
            conn s = Some ∅).
  { unfold objectStore; simpl. rewrite lookup_insert_eq. simpl.
    apply lookup_insert_eq. }
  split; [by rewrite Hstore|]. split; [|split; [|by simpl; rewrite Hreq, Herr]].
  - intros k. unfold record. rewrite Hstore. simpl. apply lookup_empty.
  - intros db s' k Hne. rewrite <- Hrec.
    unfold record, objectStore; simpl.
    destruct (decide (conn = db)) as [<-|Hdbne];
      [|by rewrite lookup_insert_ne].
    rewrite lookup_insert_eq, Hdb. simpl.
    rewrite lookup_insert_ne; [done|congruence].
Qed.

(** X3.  A [clear] that resolved emptied its store and nothing else: no key
    has a record in that store any more, the records of other stores and
    databases are as they were, and every later [get] on the store (its
    request not failing) resolves with no record. *)
Theorem clear_empties_one_store this w s this1 w1 :
  clear this w s = (Resolved tt, this1, w1) ->
  exists conn,
    _db this1 = Some conn
    /\ (forall k, record w1 conn s k = None)
    /\ (forall db s' k, (db, s') <> (conn, s) ->
                        record w1 db s' k = record w db s' k)
    /\ (request_error w1 (requested w1) = false ->
        forall k, get this1 w1 s k = (Resolved None, this1, count_request w1)).
Proof.
  intros Hclear.
  destruct (clear_records _ _ _ _ _ Hclear)
    as (conn & Hconn & Hstore & Hnone & Hframe & _).
  exists conn. repeat split; try done.
  intros Hok k. by rewrite (get_held this1 w1 conn s k Hconn Hok Hstore), Hnone.
Qed.

(** A record is put, then the store is cleared. *)
Lemma clear_empties_one_store_witness :
  let e := mkEntry "k" "data:," 7 None in
  let p := put (initialize None) Examples.fresh_browser "offline_tiles" e in
  let c := clear p.1.2 p.2 "offline_tiles" in
  record p.2 "leaflet_offline" "offline_tiles" "k" = Some e
  /\ exists conn,
      _db c.1.2 = Some conn
      /\ (forall k, record c.2 conn "offline_tiles" k = None)
      /\ (forall db s' k, (db, s') <> (conn, "offline_tiles") ->
                          record c.2 db s' k = record p.2 db s' k)
      /\ (request_error c.2 (requested c.2) = false ->
          forall k, get c.1.2 c.2 "offline_tiles" k
                    = (Resolved None, c.1.2, count_request c.2)).
Proof.
  intros e p c. split; [vm_compute; reflexivity|].
  apply (clear_empties_one_store p.1.2 p.2 "offline_tiles" c.1.2 c.2).
  vm_compute; reflexivity.
Defined.

(** X4.  Reading and failing change nothing: whatever its outcome, a [get]
    or an [open] leaves every record of every store as it was, and so does
    a [put] or a [clear] that was rejected. *)
Theorem reads_and_failures_keep_records this w s :
  (forall k r this1 w1,
      get this w s k = (r, this1, w1) ->
      forall db s' k', record w1 db s' k' = record w db s' k')
  /\ (forall value reason this1 w1,
      put this w s value = (Rejected reason, this1, w1) ->
      forall db s' k', record w1 db s' k' = record w db s' k')
  /\ (forall reason this1 w1,
      clear this w s = (Rejected reason, this1, w1) ->
      forall db s' k', record w1 db s' k' = record w db s' k')
  /\ (forall r this1 w1,
      open this w = (r, this1, w1) ->
      forall db s' k', record w1 db s' k' = record w db s' k').
Proof.
  split; [|split; [|split]].
  - intros k r this1 w1. apply get_frame.
  - intros value reason this1 w1. apply put_rejected_frame.
  - intros reason this1 w1. apply clear_rejected_frame.
  - intros r this1 w1 Hopen. by destruct (open_frame _ _ _ _ _ Hopen).
Qed.

(** *** Only the store 'offline_tiles' is ever created *)

Lemma open_only_tiles this w r this1 w0 :
  open this w = (r, this1, w0) ->
  only_offline_tiles w -> only_offline_tiles w0.
Proof.
  unfold open. destruct (_db this) as [h|]; [by intros [= <- <- <-]|].
  destruct (negb (indexedDB w)); [by intros [= <- <- <-]|].
  destruct (open_error w); intros [= <- <- <-]; [done|].
  intros Hinv db stores s. unfold backend_open; simpl.
  destruct (databases w !! dbName this) as [old|] eqn:Hold; [apply Hinv|].
  destruct (decide (dbName this = db)) as [<-|Hne].
  - rewrite lookup_insert_eq, onupgradeneeded_empty. intros [= <-].
    destruct (decide ("offline_tiles" = s)) as [<-|Hs]; [done|].
    rewrite lookup_insert_ne by done. rewrite lookup_empty. by intros [? ?].
  - rewrite lookup_insert_ne by done. apply Hinv.
Qed.

Lemma get_only_tiles this w s k r this1 w1 :
  get this w s k = (r, this1, w1) ->
  only_offline_tiles w -> only_offline_tiles w1.
Proof.
  unfold get. destruct (open this w) as [[[conn|r0] this'] w0] eqn:Hopen;
    intros Hget Hinv; pose proof (open_only_tiles _ _ _ _ _ Hopen Hinv) as H0.
  - destruct (objectStore w0 conn s); [|by injection Hget as <- <- <-].
    destruct (request_error w0 (requested w0)); by injection Hget as <- <- <-.
  - by injection Hget as <- <- <-.
Qed.

Lemma insert_store_only_tiles w conn stores s store :
  only_offline_tiles w ->
  databases w !! conn = Some stores -> is_Some (stores !! s) ->
  only_offline_tiles
    (count_request (with_databases w (<[conn := <[s := store]> stores]>
                                        (databases w)))).
Proof.
  intros Hinv Hdb Hs db stores' s'. simpl.
  destruct (decide (conn = db)) as [<-|Hne].
  - rewrite lookup_insert_eq. intros [= <-].
    destruct (decide (s = s')) as [<-|Hsne].
    + intros _. by apply (Hinv conn stores s).
    + rewrite lookup_insert_ne by done. by apply (Hinv conn).
  - rewrite lookup_insert_ne by done. apply Hinv.
Qed.

Lemma put_only_tiles this w s value r this1 w1 :
  put this w s value = (r, this1, w1) ->
  only_offline_tiles w -> only_offline_tiles w1.
Proof.
  unfold put. destruct (open this w) as [[[conn|r0] this'] w0] eqn:Hopen;
    intros Hput Hinv; pose proof (open_only_tiles _ _ _ _ _ Hopen Hinv) as H0.
  - destruct (databases w0 !! conn) as [stores|] eqn:Hdb;
      [|by injection Hput as <- <- <-].
    destruct (stores !! s) as [store|] eqn:Hs; [|by injection Hput as <- <- <-].
    destruct (request_error w0 (requested w0)); injection Hput as <- <- <-;
      [done|].
    by apply insert_store_only_tiles.
  - by injection Hput as <- <- <-.
Qed.

Lemma clear_only_tiles this w s r this1 w1 :
  clear this w s = (r, this1, w1) ->
  only_offline_tiles w -> only_offline_tiles w1.
Proof.
  unfold clear. destruct (open this w) as [[[conn|r0] this'] w0] eqn:Hopen;
    intros Hput Hinv; pose proof (open_only_tiles _ _ _ _ _ Hopen Hinv) as H0.
  - destruct (databases w0 !! conn) as [stores|] eqn:Hdb;
      [|by injection Hput as <- <- <-].
    destruct (stores !! s) as [store|] eqn:Hs; [|by injection Hput as <- <- <-].
    destruct (request_error w0 (requested w0)); injection Hput as <- <- <-;
      [done|].
    by apply insert_store_only_tiles.
  - by injection Hput as <- <- <-.
Qed.

(** Under the invariant a store of another name is not there. *)
Lemma no_other_store w db s :
  only_offline_tiles w -> s <> "offline_tiles" -> objectStore w db s = None.
Proof.
  intros Hinv Hs. unfold objectStore.
  destruct (databases w !! db) as [stores|] eqn:Hdb; [|done]. simpl.
  destruct (stores !! s) as [store|] eqn:Hstore; [|done].
  destruct Hs. by apply (Hinv db stores s).
Qed.

Lemma get_other_store this w s k :
  only_offline_tiles w -> s <> "offline_tiles" ->
  exists reason this1 w1, get this w s k = (Rejected reason, this1, w1).
Proof.
  intros Hinv Hs. unfold get.
  destruct (open this w) as [[[conn|r0] this'] w0] eqn:Hopen; [|by eauto].
  rewrite (no_other_store w0 conn s); [by eauto| |done].
  by apply (open_only_tiles _ _ _ _ _ Hopen).
Qed.

Lemma put_other_store this w s value :
  only_offline_tiles w -> s <> "offline_tiles" ->
  exists reason this1 w1, put this w s value = (Rejected reason, this1, w1).
Proof.
  intros Hinv Hs. unfold put.
  destruct (open this w) as [[[conn|r0] this'] w0] eqn:Hopen; [|by eauto].
  pose proof (no_other_store w0 conn s
                (open_only_tiles _ _ _ _ _ Hopen Hinv) Hs) as Hno.
  unfold objectStore in Hno.
  destruct (databases w0 !! conn) as [stores|]; [|by eauto].
  simpl in Hno. rewrite Hno. by eauto.
Qed.

Lemma clear_other_store this w s :
  only_offline_tiles w -> s <> "offline_tiles" ->
  exists reason this1 w1, clear this w s = (Rejected reason, this1, w1).
Proof.
  intros Hinv Hs. unfold clear.
  destruct (open this w) as [[[conn|r0] this'] w0] eqn:Hopen; [|by eauto].
  pose proof (no_other_store w0 conn s
                (open_only_tiles _ _ _ _ _ Hopen Hinv) Hs) as Hno.
  unfold objectStore in Hno.
  destruct (databases w0 !! conn) as [stores|]; [|by eauto].
  simpl in Hno. rewrite Hno. by eauto.
Qed.

(** X5.  [onupgradeneeded] creates the object store 'offline_tiles' and no
    other.  When every store of the browser's databases has that name (as
    in a browser whose databases were all created by [open]), this stays so
    after any [get], [put] or [clear]; and for any other store name every
    [get], [put] and [clear] is rejected: its transaction finds no store. *)
Theorem other_store_names_are_rejected this w s :
  only_offline_tiles w ->
  (forall k r this1 w1, get this w s k = (r, this1, w1) -> only_offline_tiles w1)
  /\ (forall v r this1 w1, put this w s v = (r, this1, w1) -> only_offline_tiles w1)
  /\ (forall r this1 w1, clear this w s = (r, this1, w1) -> only_offline_tiles w1)
  /\ (s <> "offline_tiles" ->
      (forall k, exists reason this1 w1,
          get this w s k = (Rejected reason, this1, w1))
      /\ (forall v, exists reason this1 w1,
          put this w s v = (Rejected reason, this1, w1))
      /\ (exists reason this1 w1,
          clear this w s = (Rejected reason, this1, w1))).
Proof.
  intros Hinv. split; [|split; [|split]].
  - intros k r this1 w1 H. by apply (get_only_tiles _ _ _ _ _ _ _ H).
  - intros v r this1 w1 H. by apply (put_only_tiles _ _ _ _ _ _ _ H).
  - intros r this1 w1 H. by apply (clear_only_tiles _ _ _ _ _ _ H).
  - intros Hs. split; [|split].
    + intros k. by apply get_other_store.
    + intros v. by apply put_other_store.
    + by apply clear_other_store.
Qed.

Lemma fresh_browser_only_tiles : only_offline_tiles Examples.fresh_browser.
Proof. intros db stores s. simpl. by rewrite lookup_empty. Qed.

(** In a new browser a put to a store named "tiles" is rejected. *)
Lemma other_store_names_are_rejected_witness :
  only_offline_tiles Examples.fresh_browser
  /\ exists reason this1 w1,
       put (initialize None) Examples.fresh_browser "tiles"
           (mkEntry "k" "data:," 7 None)
       = (Rejected reason, this1, w1).
Proof.
  split; [exact fresh_browser_only_tiles|].
  apply (proj1 (proj2 (proj2 (proj2 (proj2
           (other_store_names_are_rejected (initialize None)
              Examples.fresh_browser "tiles" fresh_browser_only_tiles)))
           ltac:(done)))).
Defined.

(** X6.  The first [put] of a new manager: in a browser with IndexedDB whose
    [open] does not fail and where the manager's database does not exist
    yet, a [put] to 'offline_tiles' (its request not failing) resolves.  It
    made one [indexedDB.open] call, which created the database and its
    store; the manager then holds the connection, and the store holds the
    record put and nothing else. *)
Theorem first_put_creates_the_store name w value :
  indexedDB w = true -> open_error w = false ->
  databases w !! dbName (initialize name) = None ->
  request_error w (requested w) = false ->
  exists this1 w1,
    put (initialize name) w "offline_tiles" value = (Resolved tt, this1, w1)
    /\ _db this1 = Some (dbName (initialize name))
    /\ opened w1 = S (opened w)
    /\ forall k, record w1 (dbName (initialize name)) "offline_tiles" k
                 = if decide (k = key value) then Some value else None.
Proof.
  intros Hidb Herr Hnew Hok.
  remember (initialize name) as this eqn:Hthis.
  assert (Hdb : _db this = None) by (by subst this).
  clear Hthis.
  unfold put, open. rewrite Hdb, Hidb, Herr. simpl.
  rewrite Hnew, lookup_insert_eq, onupgradeneeded_empty, lookup_insert_eq, Hok.
  eexists _, _. split; [reflexivity|]. split; [done|]. split; [done|].
  intros k. unfold record, objectStore; simpl.
  rewrite lookup_insert_eq. simpl. rewrite lookup_insert_eq. simpl.
  rewrite lookup_insert. destruct (decide (key value = k)) as [<-|Hne].
  - by rewrite decide_True.
  - rewrite decide_False by congruence. apply lookup_empty.
Qed.

(** A manager for the database "tiles_db" in a new browser. *)
Lemma first_put_creates_the_store_witness :
  exists this1 w1,
    put (initialize (Some "tiles_db")) Examples.fresh_browser "offline_tiles"
        (mkEntry "k" "data:," 7 None) = (Resolved tt, this1, w1)
    /\ _db this1 = Some "tiles_db"
    /\ opened w1 = 1%nat
    /\ forall k, record w1 "tiles_db" "offline_tiles" k
                 = if decide (k = "k") then Some (mkEntry "k" "data:," 7 None)
                   else None.
Proof.
  apply (first_put_creates_the_store (Some "tiles_db") Examples.fresh_browser
           (mkEntry "k" "data:," 7 None)); reflexivity.
Defined.

End RecordFacts.

(** ** The enumeration and the box *)

Section CoverageFacts.
Import TileKey Enumerator Area.
Local Open Scope R_scope.

(** The argument of the logarithm, [(1 + sin t) / cos t], is positive and
    grows with [t] between -pi/2 and pi/2. *)
Lemma sec_plus_tan_pos (t : R) :
  - (PI / 2) < t < PI / 2 -> 0 < tan t + 1 / cos t.
Proof.
  intros Ht. assert (Hc : 0 < cos t) by (apply cos_gt_0; lra).
  pose proof (sin2_cos2 t) as Hsc. unfold Rsqr in Hsc.
  assert (Hs : -1 < sin t) by nra.
  unfold tan. replace (sin t / cos t + 1 / cos t) with ((1 + sin t) / cos t)
    by (field; lra).
  apply Rdiv_lt_0_compat; lra.
Qed.

Lemma sec_plus_tan_le (t1 t2 : R) :
  - (PI / 2) < t1 -> t1 <= t2 -> t2 < PI / 2 ->
  tan t1 + 1 / cos t1 <= tan t2 + 1 / cos t2.
Proof.
  intros H1 H12 H2.
  assert (Hc1 : 0 < cos t1) by (apply cos_gt_0; lra).
  assert (Hc2 : 0 < cos t2) by (apply cos_gt_0; lra).
  pose proof (sin2_cos2 t1) as Hsc1. pose proof (sin2_cos2 t2) as Hsc2.
  unfold Rsqr in Hsc1, Hsc2.
  assert (Hs : sin t1 <= sin t2) by (apply sin_incr_1; lra).
  unfold tan.
  set (s1 := sin t1) in *. set (s2 := sin t2) in *.
  set (c1 := cos t1) in *. set (c2 := cos t2) in *.
  assert (Hs1 : -1 < s1 < 1) by nra.
  assert (Hs2 : -1 < s2 < 1) by nra.
  replace (s1 / c1 + 1 / c1) with ((1 + s1) / c1) by (field; lra).
  replace (s2 / c2 + 1 / c2) with ((1 + s2) / c2) by (field; lra).
  assert (Hcross : (1 + s1) * c2 <= (1 + s2) * c1).
  { assert (HA : 0 <= (1 + s1) * c2) by nra.
    assert (HB : 0 <= (1 + s2) * c1) by nra.
    assert (Hsq : ((1 + s1) * c2) * ((1 + s1) * c2)
                  <= ((1 + s2) * c1) * ((1 + s2) * c1)).
    { replace (((1 + s1) * c2) * ((1 + s1) * c2))
        with ((1 + s1) * (1 + s1) * (c2 * c2)) by ring.
      replace (((1 + s2) * c1) * ((1 + s2) * c1))
        with ((1 + s2) * (1 + s2) * (c1 * c1)) by ring.
      replace (c2 * c2) with ((1 - s2) * (1 + s2)) by lra.
      replace (c1 * c1) with ((1 - s1) * (1 + s1)) by lra.
      assert (Hp : 0 <= (1 + s1) * (1 + s2) * (s2 - s1)).
      { apply Rmult_le_pos; [apply Rmult_le_pos|]; lra. }
      lra. }
    nra. }
  apply (Rmult_le_reg_r (c1 * c2)); [nra|].
  replace ((1 + s1) / c1 * (c1 * c2)) with ((1 + s1) * c2) by (field; lra).
  replace ((1 + s2) / c2 * (c1 * c2)) with ((1 + s2) * c1) by (field; lra).
  exact Hcross.
Qed.

(** The Mercator ordinate grows with the latitude. *)
Lemma mercator_le (la1 la2 : R) :
  -90 < la1 -> la1 <= la2 -> la2 < 90 -> mercator la1 <= mercator la2.
Proof.
  intros H1 H12 H2. unfold mercator. pose proof PI_RGT_0 as Hpi.
  assert (Ht1 : - (PI / 2) < la1 * PI / 180) by nra.
  assert (Ht2 : la2 * PI / 180 < PI / 2) by nra.
  assert (Ht : la1 * PI / 180 <= la2 * PI / 180) by nra.
  destruct (sec_plus_tan_le _ _ Ht1 Ht Ht2) as [Hlt|Heq].
  - left. apply ln_increasing; [|done]. apply sec_plus_tan_pos. lra.
  - right. by rewrite Heq.
Qed.

(** Columns grow with the longitude, rows shrink with the latitude. *)
Lemma column_le (la1 la2 lo1 lo2 : R) (z : Z) :
  lo1 <= lo2 ->
  (x (_latLngToTile la1 lo1 z) <= x (_latLngToTile la2 lo2 z))%Z.
Proof.
  intros Hlo. unfold _latLngToTile; simpl. apply Zfloor_le.
  pose proof (powerRZ_lt 2 z ltac:(lra)) as Hn. nra.
Qed.

Lemma row_ge (la1 la2 lo1 lo2 : R) (z : Z) :
  -90 < la1 -> la1 <= la2 -> la2 < 90 ->
  (y (_latLngToTile la2 lo2 z) <= y (_latLngToTile la1 lo1 z))%Z.
Proof.
  intros H1 H12 H2. unfold _latLngToTile; simpl. apply Zfloor_le.
  fold (mercator la1) (mercator la2).
  pose proof (mercator_le la1 la2 H1 H12 H2) as Hm.
  pose proof (powerRZ_lt 2 z ltac:(lra)) as Hn.
  pose proof PI_RGT_0 as Hpi.
  assert (Hq : mercator la1 / PI <= mercator la2 / PI).
  { apply Rmult_le_compat_r; [|done]. left. by apply Rinv_0_lt_compat. }
  nra.
Qed.




(** *** Which points have a tile of the grid *)

Lemma Zfloor_in_range (v : R) (n : Z) :
  (0 <= Zfloor v < n)%Z <-> 0 <= v < IZR n.
Proof.
  pose proof (Zfloor_bound v) as [Hlo Hhi]. split.
  - intros [H0 Hn]. apply IZR_le in H0.
    assert (Hn' : (Zfloor v + 1 <= n)%Z) by lia.
    apply IZR_le in Hn'. rewrite plus_IZR in Hn'. lra.
  - intros [H0 Hn]. split.
    + by apply (Zfloor_lub 0).
    + apply lt_IZR. lra.
Qed.


Lemma mercator_0 : mercator 0 = 0.
Proof.
  unfold mercator. replace (0 * PI / 180) with 0 by lra.
  rewrite tan_0, cos_0. replace (0 + 1 / 1) with 1 by lra. apply ln_1.
Qed.



(** *** The tiles of a zoom level: the rectangle, each tile once *)

Lemma in_range_iff (lo hi i : Z) : In i (range lo hi) <-> (lo <= i <= hi)%Z.
Proof.
  split; [|apply in_range].
  unfold range. rewrite in_map_iff. intros (n & <- & Hn).
  apply in_seq in Hn. lia.
Qed.

Lemma NoDup_range (lo hi : Z) : NoDup (range lo hi).
Proof.
  unfold range. apply NoDup_fmap_2; [|apply NoDup_seq].
  intros a b Hab. lia.
Qed.

Lemma in_tiles_at_zoom_iff (b : LatLngBounds) (z : Z) (c : Coords) :
  In c (tiles_at_zoom b z) <-> cz c = z /\ in_rectangle b c.
Proof.
  unfold tiles_at_zoom, in_rectangle. rewrite in_flat_map. split.
  - intros (tx & Hx & Hc). apply in_map_iff in Hc as (ty & <- & Hy).
    apply in_range_iff in Hx, Hy. by cbn [cx cy cz].
  - intros (<- & Hx & Hy). exists (cx c). split; [by apply in_range|].
    apply in_map_iff. exists (cy c). split; [by destruct c|by apply in_range].
Qed.

Lemma NoDup_grid (z : Z) (cols rows : list Z) :
  NoDup cols -> NoDup rows ->
  NoDup (flat_map (fun tx => map (fun ty => mkCoords z tx ty) rows) cols).
Proof.
  intros Hcols Hrows. induction Hcols as [|tx cols Htx Hcols IH]; simpl.
  - constructor.
  - apply NoDup_app. split; [|split; [|exact IH]].
    + apply NoDup_fmap_2; [|done]. by intros a b [= ->].
    + intros c Hc Hc'. apply list_elem_of_In in Hc, Hc'.
      apply in_map_iff in Hc as (ty & <- & _).
      apply in_flat_map in Hc' as (tx' & Hin & Hc').
      apply in_map_iff in Hc' as (ty' & [= -> _] & _).
      apply Htx. by apply list_elem_of_In.
Qed.

Lemma NoDup_tiles_at_zoom (b : LatLngBounds) (z : Z) :
  NoDup (tiles_at_zoom b z).
Proof. unfold tiles_at_zoom. apply NoDup_grid; apply NoDup_range. Qed.

(** How often a tile is listed: as often as its zoom level is. *)
Lemma count_occ_app_coords (l1 l2 : list Coords) (c : Coords) :
  count_occ Coords_eq_dec (l1 ++ l2) c
  = (count_occ Coords_eq_dec l1 c + count_occ Coords_eq_dec l2 c)%nat.
Proof. apply count_occ_app. Qed.

Lemma count_occ_tiles (levels : list Z) (b : LatLngBounds) (lo hi : Z)
    (c : Coords) :
  count_occ Coords_eq_dec
    (flat_map (fun zoom => if ((zoom <? lo) || (zoom >? hi))%Z then []
                           else tiles_at_zoom b zoom) levels) c
  = if decide ((lo <= cz c <= hi)%Z /\ in_rectangle b c)
    then count_occ Z.eq_dec levels (cz c) else 0%nat.
Proof.
  induction levels as [|z levels IH]; simpl; [by case_decide|].
  rewrite count_occ_app_coords, IH. clear IH.
  assert (Hhere :
    count_occ Coords_eq_dec
      (if ((z <? lo) || (z >? hi))%Z then [] else tiles_at_zoom b z) c
    = if decide ((lo <= cz c <= hi)%Z /\ in_rectangle b c)
      then (if Z.eq_dec z (cz c) then 1 else 0)%nat else 0%nat).
  { destruct ((z <? lo) || (z >? hi))%Z eqn:Hskip.
    - simpl. case_decide as Hc; [|done].
      destruct (Z.eq_dec z (cz c)) as [->|]; [|done].
      apply orb_true_iff in Hskip as [H|H];
        [apply Z.ltb_lt in H|apply Z.gtb_lt in H]; lia.
    - apply orb_false_iff in Hskip as [H1 H2].
      apply Z.ltb_ge in H1. rewrite Z.gtb_ltb in H2. apply Z.ltb_ge in H2.
      destruct (in_dec Coords_eq_dec c (tiles_at_zoom b z)) as [Hin|Hout].
      + pose proof Hin as Hin'. apply in_tiles_at_zoom_iff in Hin' as [<- Hr].
        rewrite decide_True by done.
        destruct (Z.eq_dec (cz c) (cz c)); [|done].
        apply (proj1 (List.NoDup_count_occ' Coords_eq_dec _)); [|done].
        apply NoDup_ListNoDup, NoDup_tiles_at_zoom.
      + rewrite (proj1 (count_occ_not_In Coords_eq_dec _ _) Hout).
        case_decide as Hc; [|done].
        destruct (Z.eq_dec z (cz c)) as [->|]; [|done].
        destruct Hout. apply in_tiles_at_zoom_iff. by destruct Hc. }
  rewrite Hhere.
  destruct (decide ((lo <= cz c <= hi)%Z /\ in_rectangle b c)); [|done].
  by destruct (Z.eq_dec z (cz c)).
Qed.

(** X12.  How often a tile is listed: a tile whose zoom is within the bounds
    and whose indices lie in the rectangle of the two corners is listed as
    many times as its zoom level occurs among the zoom levels; any other
    tile is not listed.  Within one zoom level the rectangle is listed
    without repetition. *)
Theorem tiles_are_listed_as_often_as_their_zoom
    (zoomlevels : option (list Z)) (b : LatLngBounds) (lo hi : Z)
    (c : Coords) :
  count_occ Coords_eq_dec (_calculateTilesForArea zoomlevels b lo hi) c
  = if decide ((lo <= cz c <= hi)%Z /\ in_rectangle b c)
    then count_occ Z.eq_dec (default [lo; hi] zoomlevels) (cz c)
    else 0%nat.
Proof. unfold _calculateTilesForArea. apply count_occ_tiles. Qed.


(** X13.  Without the option [zoomlevels] the levels are the two-element
    array [[minZoom, maxZoom]]: only tiles of these two zoom levels are
    listed, none of a level in between; with [maxZoom < minZoom] the list
    is empty; with [minZoom = maxZoom] every tile is listed twice; with
    [minZoom < maxZoom] no tile is listed twice. *)
Theorem default_levels_are_the_two_ends (b : LatLngBounds) (lo hi : Z) :
  let tiles := _calculateTilesForArea None b lo hi in
  (forall c, In c tiles -> cz c = lo \/ cz c = hi)
  /\ ((hi < lo)%Z -> tiles = [])
  /\ (lo = hi ->
      forall c, In c tiles -> count_occ Coords_eq_dec tiles c = 2%nat)
  /\ ((lo < hi)%Z -> NoDup tiles).
Proof.
  intros tiles.
  assert (Hocc : forall c,
    count_occ Coords_eq_dec tiles c
    = if decide ((lo <= cz c <= hi)%Z /\ in_rectangle b c)
      then count_occ Z.eq_dec [lo; hi] (cz c) else 0%nat).
  { intros c. apply count_occ_tiles. }
  split; [|split; [|split]].
  - intros c Hc. apply (count_occ_In Coords_eq_dec) in Hc.
    rewrite Hocc in Hc. case_decide; [|lia]. simpl in Hc.
    destruct (Z.eq_dec hi (cz c)); [by right|].
    destruct (Z.eq_dec lo (cz c)); [by left|lia].
  - intros Hlt. unfold tiles, _calculateTilesForArea. simpl.
    replace (lo >? hi)%Z with true by (symmetry; apply Z.gtb_lt; lia).
    replace (hi <? lo)%Z with true by (symmetry; apply Z.ltb_lt; lia).
    rewrite orb_true_r. done.
  - intros <- c Hc. pose proof Hc as Hc'.
    apply (count_occ_In Coords_eq_dec) in Hc'.
    rewrite Hocc in Hc' |- *. case_decide; [|lia]. simpl in *.
    destruct (Z.eq_dec lo (cz c)); [done|lia].
  - intros Hlt. apply NoDup_ListNoDup.
    apply (List.NoDup_count_occ Coords_eq_dec). intros c. rewrite Hocc.
    case_decide; [|lia]. simpl.
    destruct (Z.eq_dec hi (cz c)), (Z.eq_dec lo (cz c)); lia.
Qed.

End CoverageFacts.

(** ** Resolutions and the records of the store *)

Section CacheFacts.
Import TileKey Fetcher Records.

(** The state a resolution ends in is reached from the first one by reads
    of the tile's key, settlements of a save of that key and requests. *)
Lemma resolve_state_ind (P : State -> Prop) E base coords done st :
  let k := _getTileKey (layer st) coords in
  (forall s v s' t, P s -> _getTileFromCache k s = (v, s', t) -> P s') ->
  (forall n s r s' t, P s -> _saveTileToCache_settle E n k s = (r, s', t) ->
                      P s') ->
  (forall s, P s -> P (bump s)) ->
  P st -> P (state_of (resolve E base coords done st)).
Proof.
  intros k Hread Hsettle Hbump H0.
  destruct (useCache (layer st)) eqn:Huse;
    [|by rewrite resolve_without_cache].
  destruct (_getTileFromCache k st) as [[[c|] st1] t1] eqn:Hr1.
  - rewrite (resolve_hit E base coords done st _ _ _ Huse Hr1).
    by apply (Hread st (Some c) st1 t1).
  - pose proof (Hread _ _ _ _ H0 Hr1) as H1.
    destruct (write_back st1) eqn:Hwb;
      [|rewrite (resolve_miss_plain E base coords done st _ _ Huse Hr1 Hwb);
        by apply Hbump].
    destruct (net E (issued st1)) as [|png] eqn:Hnet.
    + destruct (_getTileFromCache k (bump st1)) as [[[c|] st3] t3] eqn:Hr3.
      * destruct (_saveTileToCache_settle E (issued st3) k (bump st3))
          as [[r st4] t4] eqn:Hs.
        rewrite (resolve_miss_recovered E base coords done st _ _ _ _ _ _ _ _
                   Huse Hr1 Hwb Hnet Hr3 Hs).
        apply (Hsettle _ _ _ _ _ (Hbump _ (Hread _ _ _ _ (Hbump _ H1) Hr3)) Hs).
      * rewrite (resolve_miss_failed E base coords done st _ _ _ _
                   Huse Hr1 Hwb Hnet Hr3).
        apply (Hread _ _ _ _ (Hbump _ H1) Hr3).
    + destruct (_saveTileToCache_settle E (S (issued st1)) k (bump (bump st1)))
        as [[r st2] t2] eqn:Hs.
      rewrite (resolve_miss_saved E base coords done st _ _ _ _ _ _
                 Huse Hr1 Hwb Hnet Hs).
      apply (Hsettle _ _ _ _ _ (Hbump _ (Hbump _ H1)) Hs).
Qed.

(** A read changes no record. *)
Lemma read_frame k st v st' t :
  _getTileFromCache k st = (v, st', t) ->
  forall db s k', record (browser st') db s k' = record (browser st) db s k'.
Proof.
  unfold _getTileFromCache. destruct (cacheDB st) as [m|];
    [|by intros [= <- <- <-]].
  destruct (DBManager.get m (browser st) (cacheStoreName (layer st)) k)
    as [[r m'] w'] eqn:Hget.
  pose proof (get_frame _ _ _ _ _ _ _ Hget) as Hf.
  destruct r; by intros [= <- <- <-].
Qed.

(** Settling a save changes at most the record under the saved key. *)
Lemma settle_frame E n k st r st' t :
  _saveTileToCache_settle E n k st = (r, st', t) ->
  forall db s k',
    (s, k') <> (cacheStoreName (layer st), k) ->
    record (browser st') db s k' = record (browser st) db s k'.
Proof.
  unfold _saveTileToCache_settle.
  destruct (net E n) as [|[png|]]; try (by intros [= <- <- <-]).
  destruct (cacheDB st) as [m|]; [|by intros [= <- <- <-]].
  destruct (DBManager.put m (browser st) (cacheStoreName (layer st))
              (DBManager.mkEntry k png (now E) None))
    as [[[[]|reason] m'] w'] eqn:Hput; intros [= <- <- <-]; simpl.
  - destruct (put_records _ _ _ _ _ _ Hput) as (conn & _ & _ & Hframe & _).
    intros db s k' Hne. apply Hframe. simpl. congruence.
  - intros db s k' _. by apply (put_rejected_frame _ _ _ _ _ _ _ Hput).
Qed.

(** X7.  A resolution leaves the layer's options as they are and changes at
    most one record: every record under another key or in another store is
    after the resolution what it was before.  In particular no resolution
    removes or replaces the record of another tile. *)
Theorem resolve_changes_only_its_record E base coords done st :
  let r := resolve E base coords done st in
  layer (state_of r) = layer st
  /\ forall db s k,
       (s, k) <> (cacheStoreName (layer st), _getTileKey (layer st) coords) ->
       record (browser (state_of r)) db s k = record (browser st) db s k.
Proof.
  apply (resolve_state_ind
           (fun s' => layer s' = layer st
                      /\ forall db s k,
                           (s, k) <> (cacheStoreName (layer st),
                                      _getTileKey (layer st) coords) ->
                           record (browser s') db s k
                           = record (browser st) db s k)).
  - intros s v s' t [Hl Hf] Hread.
    destruct (read_shape _ _ _ _ _ Hread) as (Hl' & _).
    split; [congruence|]. intros db s0 k0 Hne.
    rewrite (read_frame _ _ _ _ _ Hread). by apply Hf.
  - intros n s r s' t [Hl Hf] Hsettle.
    destruct (settle_shape _ _ _ _ _ _ _ Hsettle) as (Hl' & _).
    split; [congruence|]. intros db s0 k0 Hne.
    rewrite (settle_frame _ _ _ _ _ _ _ Hsettle db s0 k0); [by apply Hf|].
    by rewrite Hl.
  - by intros s [Hl Hf].
  - done.
Qed.


(** The five ways a resolution with the cache in use can go. *)
Lemma resolve_cases E base coords done st :
  useCache (layer st) = true ->
  let k := _getTileKey (layer st) coords in
  let u := getTileUrl E coords in
  let early := early_events E base done in
  let r := resolve E base coords done st in
  (exists c st1 t1,
      _getTileFromCache k st = (Some c, st1, t1)
      /\ src (value_of r) = Some c /\ state_of r = st1
      /\ trace_of r
         = (NetRequest TileImg u
              :: t1 ++ early ++ [ShowCached c; Log (UsingCachedTile k)]
                 ++ on_base_load base done)%list)
  \/ (exists st1 t1,
      _getTileFromCache k st = (None, st1, t1) /\ write_back st1 = false
      /\ src (value_of r) = Some u /\ state_of r = bump st1
      /\ trace_of r
         = (NetRequest TileImg u
              :: t1 ++ early ++ [NetRequest TileImg u]
                 ++ match net E (issued st1) with
                    | Loaded _ => on_base_load base done
                    | LoadError => on_base_error base done
                    end)%list)
  \/ (exists st1 t1 r' st2 t2,
      _getTileFromCache k st = (None, st1, t1) /\ write_back st1 = true
      /\ _saveTileToCache_settle E (S (issued st1)) k (bump (bump st1))
         = (r', st2, t2)
      /\ src (value_of r) = Some u /\ state_of r = st2
      /\ trace_of r
         = (NetRequest TileImg u
              :: t1 ++ early ++ [NetRequest TileImg u]
                 ++ opt_ev done (Done false) ++ [NetRequest SaveImg u]
                 ++ opt_ev (base_onload base) OriginalOnLoad
                 ++ opt_ev done (Done false) ++ t2 ++ [save_log k r'])%list)
  \/ (exists st1 t1 st3 t3,
      _getTileFromCache k st = (None, st1, t1) /\ write_back st1 = true
      /\ _getTileFromCache k (bump st1) = (None, st3, t3)
      /\ src (value_of r) = Some u /\ state_of r = st3
      /\ trace_of r
         = (NetRequest TileImg u
              :: t1 ++ early ++ [NetRequest TileImg u]
                 ++ opt_ev done (Done true) ++ t3
                 ++ opt_ev (base_onerror base) OriginalOnError
                 ++ opt_ev done (Done true))%list)
  \/ (exists st1 t1 c st3 t3 r' st4 t4,
      _getTileFromCache k st = (None, st1, t1) /\ write_back st1 = true
      /\ _getTileFromCache k (bump st1) = (Some c, st3, t3)
      /\ _saveTileToCache_settle E (issued st3) k (bump st3) = (r', st4, t4)
      /\ src (value_of r) = Some c /\ state_of r = st4
      /\ trace_of r
         = (NetRequest TileImg u
              :: t1 ++ early ++ [NetRequest TileImg u]
                 ++ opt_ev done (Done true) ++ t3
                 ++ [Log (NetworkErrorUsingCachedTile k); ShowCached c]
                 ++ opt_ev done (Done false) ++ [NetRequest SaveImg u]
                 ++ opt_ev (base_onload base) OriginalOnLoad
                 ++ opt_ev done (Done false) ++ t4 ++ [save_log k r'])%list).
Proof.
  intros Huse k u early r. subst r.
  destruct (_getTileFromCache k st) as [[[c|] st1] t1] eqn:Hr1.
  { left. rewrite (resolve_hit E base coords done st _ _ _ Huse Hr1).
    by eexists _, _, _. }
  right. destruct (write_back st1) eqn:Hwb.
  2:{ left. rewrite (resolve_miss_plain E base coords done st _ _ Huse Hr1 Hwb).
      by eexists _, _. }
  right. destruct (net E (issued st1)) as [|png] eqn:Hnet.
  - right. destruct (_getTileFromCache k (bump st1)) as [[[c|] st3] t3] eqn:Hr3.
    + right.
      destruct (_saveTileToCache_settle E (issued st3) k (bump st3))
        as [[r' st4] t4] eqn:Hs.
      rewrite (resolve_miss_recovered E base coords done st _ _ _ _ _ _ _ _
                 Huse Hr1 Hwb Hnet Hr3 Hs).
      by eexists _, _, _, _, _, _, _, _.
    + left. rewrite (resolve_miss_failed E base coords done st _ _ _ _
                       Huse Hr1 Hwb Hnet Hr3).
      by eexists _, _, _, _.
  - left.
    destruct (_saveTileToCache_settle E (S (issued st1)) k (bump (bump st1)))
      as [[r' st2] t2] eqn:Hs.
    rewrite (resolve_miss_saved E base coords done st _ _ _ _ _ _
               Huse Hr1 Hwb Hnet Hs).
    by eexists _, _, _, _, _.
Qed.

(** No read and no settlement logs 'Saved tile to cache'. *)
Lemma read_logs_no_save k st v st' t k' :
  _getTileFromCache k st = (v, st', t) -> ~ In (Log (SavedTileToCache k')) t.
Proof.
  intros H. destruct (read_shape _ _ _ _ _ H) as (_ & _ & Hs).
  destruct Hs as [(_ & _ & -> & _)|(_ & _ & [->|[-> _]])]; simpl;
    intros Hin; intuition discriminate.
Qed.

Lemma settle_logs_no_save E n k st r st' t k' :
  _saveTileToCache_settle E n k st = (r, st', t) ->
  ~ In (Log (SavedTileToCache k')) t.
Proof.
  intros H. destruct (settle_shape _ _ _ _ _ _ _ H) as (_ & _ & Hs).
  destruct Hs as [(-> & _)|(png & db & _ & _ & ->)]; simpl;
    intros Hin; intuition discriminate.
Qed.

(** A settlement that resolved stored its record, and the record is read
    back from the state it left. *)
Lemma settle_resolved_read E n k st st' t :
  _saveTileToCache_settle E n k st = (DBManager.Resolved tt, st', t) ->
  (forall i png, net E i = Loaded (Some png) -> png <> "") ->
  DBManager.request_error (browser st')
    (DBManager.requested (browser st')) = false ->
  exists e st2,
    t = [CachePut (cacheStoreName (layer st)) e]
    /\ DBManager.key e = k /\ layer st' = layer st
    /\ _getTileFromCache k st'
       = (Some (DBManager.url e), st2, [CacheGet (cacheStoreName (layer st)) k]).
Proof.
  unfold _saveTileToCache_settle.
  destruct (net E n) as [|[png|]] eqn:Hnet; try done.
  destruct (cacheDB st) as [m|]; [|done].
  destruct (DBManager.put m (browser st) (cacheStoreName (layer st))
              (DBManager.mkEntry k png (now E) None))
    as [[[[]|reason] m'] w'] eqn:Hput; [|done].
  intros [= <- <-] Hpng Hok. simpl in Hok.
  pose proof (put_read_back _ _ _ _ _ _ Hput Hok) as Hget. simpl in Hget.
  eexists _, _. split; [reflexivity|]. split; [done|]. split; [done|].
  apply (read_hit k (mkState (layer st) (Some m') w' (issued st)) m' _ m'
           (DBManager.count_request w') eq_refl Hget).
  simpl. by apply (Hpng n).
Qed.


Lemma save_log_saved k r k' :
  save_log k r = Log (SavedTileToCache k') -> r = DBManager.Resolved tt.
Proof. destruct r as [[]|reason]; [done|discriminate]. Qed.

Lemma opt_ev_no_save b e k' :
  e <> Log (SavedTileToCache k') -> ~ In (Log (SavedTileToCache k')) (opt_ev b e).
Proof. intros He Hin. apply in_opt_ev in Hin. by destruct He. Qed.

(** 'Saved tile to cache' in the trace: the save settled with a resolved
    [put], and the resolution ended in the state that settlement left.  The
    state it started from was reached by reads and requests only. *)
Lemma saved_means_settled (P : State -> Prop) E base coords done st :
  useCache (layer st) = true ->
  let k := _getTileKey (layer st) coords in
  let r := resolve E base coords done st in
  (forall s v s' t, P s -> _getTileFromCache k s = (v, s', t) -> P s') ->
  (forall s, P s -> P (bump s)) ->
  P st ->
  In (Log (SavedTileToCache k)) (trace_of r) ->
  exists n s t,
    _saveTileToCache_settle E n k s = (DBManager.Resolved tt, state_of r, t)
    /\ P s
    /\ forall e, In e t -> In e (trace_of r).
Proof.
  intros Huse k r Hread Hbump H0 Hin.
  destruct (resolve_cases E base coords done st Huse)
    as [(c & st1 & t1 & Hr1 & _ & _ & Ht)
       |[(st1 & t1 & Hr1 & _ & _ & _ & Ht)
        |[(st1 & t1 & r' & st2 & t2 & Hr1 & _ & Hs & _ & Hst & Ht)
         |[(st1 & t1 & st3 & t3 & Hr1 & _ & Hr3 & _ & _ & Ht)
          |(st1 & t1 & c & st3 & t3 & r' & st4 & t4
            & Hr1 & _ & Hr3 & Hs & _ & Hst & Ht)]]]];
    fold k r in Ht; pose proof Hin as Hin0; rewrite Ht in Hin;
    pose proof (read_logs_no_save _ _ _ _ _ k Hr1) as Hn1;
    pose proof (Hread _ _ _ _ H0 Hr1) as H1;
    try pose proof (read_logs_no_save _ _ _ _ _ k Hr3) as Hn3;
    try pose proof (settle_logs_no_save _ _ _ _ _ _ _ k Hs) as Hn4;
    try match type of Hin with
        | context [match net E ?n with _ => _ end] => destruct (net E n)
        end;
    repeat match type of Hin with
           | In _ (_ ++ _)%list => apply in_app_or in Hin as [Hin|Hin]
           | In _ (_ :: _) => destruct Hin as [Hin|Hin]
           | In _ [] => destruct Hin
           end;
    try discriminate Hin; try done;
    try (apply in_opt_ev in Hin; discriminate Hin);
    try (apply in_early in Hin; intuition discriminate);
    try (apply in_on_base_load in Hin; intuition discriminate);
    try (apply in_on_base_error in Hin; intuition discriminate);
    apply save_log_saved in Hin; subst r'; fold r in Hst; rewrite <- Hst in Hs.
  - exists (S (issued st1)), (bump (bump st1)), t2.
    split; [exact Hs|]. split; [by apply Hbump, Hbump|].
    intros e He. rewrite Ht. right. rewrite !in_app_iff. auto 12.
  - exists (issued st3), (bump st3), t4.
    split; [exact Hs|]. split.
    + apply Hbump. apply (Hread _ _ _ _ (Hbump _ H1) Hr3).
    + intros e He. rewrite Ht. right. rewrite !in_app_iff. auto 15.
Qed.

(** Reads and requests leave the layer as it is. *)
Lemma read_keeps_layer k (st0 : State) s v s' t :
  layer s = layer st0 -> _getTileFromCache k s = (v, s', t) ->
  layer s' = layer st0.
Proof.
  intros Hl Hread. destruct (read_shape _ _ _ _ _ Hread) as (Hl' & _).
  congruence.
Qed.

(** X8.  Write-back, then hit.  When a resolution logged 'Saved tile to
    cache' for the tile's key, it called [cacheDB.put] with a record of that
    key, and (data URLs being non-empty and the next store request not
    failing) every resolution of the same tile from the state it left ends
    up showing the URL of that record, without a write; its only network
    request is the one the base class makes before the cache is read. *)
Theorem written_back_tile_is_served_next E base coords done st :
  useCache (layer st) = true ->
  let k := _getTileKey (layer st) coords in
  let r := resolve E base coords done st in
  In (Log (SavedTileToCache k)) (trace_of r) ->
  (forall i png, net E i = Loaded (Some png) -> png <> "") ->
  DBManager.request_error (browser (state_of r))
    (DBManager.requested (browser (state_of r))) = false ->
  exists e,
    In (CachePut (cacheStoreName (layer st)) e) (trace_of r)
    /\ DBManager.key e = k
    /\ forall E2 base2 done2,
         let r2 := resolve E2 base2 coords done2 (state_of r) in
         src (value_of r2) = Some (DBManager.url e)
         /\ List.filter is_request (trace_of r2)
            = [NetRequest TileImg (getTileUrl E2 coords)]
         /\ count is_put (trace_of r2) = 0%nat.
Proof.
  intros Huse k r Hin Hpng Hok.
  destruct (saved_means_settled (fun s => layer s = layer st)
              E base coords done st Huse
              (fun s v s' t Hl Hr => read_keeps_layer _ st _ _ _ _ Hl Hr)
              (fun s Hl => Hl) eq_refl Hin)
    as (n & s & t & Hs & Hl & Ht). fold k r in Hs, Ht.
  destruct (settle_resolved_read _ _ _ _ _ _ Hs Hpng Hok)
    as (e & st2 & -> & Hkey & Hl' & Hread).
  exists e. split; [rewrite <- Hl; apply Ht; by left|]. split; [done|].
  intros E2 base2 done2 r2.
  assert (Huse' : useCache (layer (state_of r)) = true) by congruence.
  assert (Hk : _getTileKey (layer (state_of r)) coords = k).
  { unfold k, _getTileKey. congruence. }
  rewrite <- Hk in Hread.
  pose proof (resolve_hit E2 base2 coords done2 (state_of r) _ _ _ Huse' Hread)
    as Hr2.
  fold r2 in Hr2. rewrite Hr2.
  unfold value_of, trace_of; cbn [fst snd src].
  split; [done|]. split.
  - simpl. rewrite !List.filter_app, filter_request_early. simpl.
    by rewrite filter_request_on_base_load.
  - rewrite count_cons, !count_app, count_early, count_on_base_load
      by reflexivity.
    reflexivity.
Qed.


(** A cold cache and a network that is up. *)
Lemma written_back_tile_is_served_next_witness :
  let r := resolve Examples.online Examples.plain_tile Examples.tile_1_0_1
                   true Examples.cold in
  exists e,
    In (CachePut "offline_tiles" e) (trace_of r)
    /\ DBManager.key e
       = _getTileKey Examples.caching_layer Examples.tile_1_0_1
    /\ forall E2 base2 done2,
         let r2 := resolve E2 base2 Examples.tile_1_0_1 done2 (state_of r) in
         src (value_of r2) = Some (DBManager.url e)
         /\ List.filter is_request (trace_of r2)
            = [NetRequest TileImg (getTileUrl E2 Examples.tile_1_0_1)]
         /\ count is_put (trace_of r2) = 0%nat.
Proof.
  refine (written_back_tile_is_served_next Examples.online Examples.plain_tile
            Examples.tile_1_0_1 true Examples.cold eq_refl _ _ _).
  - vm_compute. auto 10.
  - intros i png [= <-]. done.
  - vm_compute. reflexivity.
Defined.

(** *** A store name other than 'offline_tiles' *)

(** With such a store name every read finds nothing. *)
Lemma read_other_store k st v st' t :
  only_offline_tiles (browser st) ->
  cacheStoreName (layer st) <> "offline_tiles" ->
  _getTileFromCache k st = (v, st', t) ->
  v = None /\ only_offline_tiles (browser st').
Proof.
  intros Hinv Hname. unfold _getTileFromCache.
  destruct (cacheDB st) as [m|]; [|by intros [= <- <- <-]].
  destruct (get_other_store m (browser st) _ k Hinv Hname)
    as (reason & m' & w' & Hget).
  pose proof (get_only_tiles _ _ _ _ _ _ _ Hget Hinv) as Hinv'.
  rewrite Hget. by intros [= <- <- <-].
Qed.

(** ... and every settlement is rejected. *)
Lemma settle_other_store E n k st r st' t :
  only_offline_tiles (browser st) ->
  cacheStoreName (layer st) <> "offline_tiles" ->
  _saveTileToCache_settle E n k st = (r, st', t) ->
  (exists reason, r = DBManager.Rejected reason)
  /\ only_offline_tiles (browser st')
  /\ forall db s k', record (browser st') db s k' = record (browser st) db s k'.
Proof.
  intros Hinv Hname. unfold _saveTileToCache_settle.
  destruct (net E n) as [|[png|]]; try (intros [= <- <- <-]; by eauto).
  destruct (cacheDB st) as [m|]; [|intros [= <- <- <-]; by eauto].
  destruct (put_other_store m (browser st) _
              (DBManager.mkEntry k png (now E) None) Hinv Hname)
    as (reason & m' & w' & Hput).
  rewrite Hput. intros [= <- <- <-]. simpl. split; [by eauto|]. split.
  - by apply (put_only_tiles _ _ _ _ _ _ _ Hput).
  - by apply (put_rejected_frame _ _ _ _ _ _ _ Hput).
Qed.

(** X9.  A layer whose [cacheStoreName] is not 'offline_tiles', on databases
    whose stores are all named 'offline_tiles' (as [open] creates them),
    never caches: every resolution shows the network URL and requests it,
    never logs 'Saved tile to cache', changes no record, and leaves the
    layer and the stores such that the same holds for the next
    resolution. *)
Theorem other_store_name_never_caches E base coords done st :
  useCache (layer st) = true ->
  cacheStoreName (layer st) <> "offline_tiles" ->
  only_offline_tiles (browser st) ->
  let r := resolve E base coords done st in
  src (value_of r) = Some (getTileUrl E coords)
  /\ (1 <= count is_request (trace_of r))%nat
  /\ ~ In (Log (SavedTileToCache (_getTileKey (layer st) coords))) (trace_of r)
  /\ layer (state_of r) = layer st
  /\ only_offline_tiles (browser (state_of r))
  /\ forall db s k,
       record (browser (state_of r)) db s k = record (browser st) db s k.
Proof.
  intros Huse Hname Hinv r.
  assert (Hstate :
    layer (state_of r) = layer st
    /\ only_offline_tiles (browser (state_of r))
    /\ forall db s k,
         record (browser (state_of r)) db s k = record (browser st) db s k).
  { apply (resolve_state_ind
             (fun s' => layer s' = layer st
                        /\ only_offline_tiles (browser s')
                        /\ forall db s k,
                             record (browser s') db s k
                             = record (browser st) db s k)).
    - intros s v s' t (Hl & Hi & Hf) Hread.
      destruct (read_shape _ _ _ _ _ Hread) as (Hl' & _).
      destruct (read_other_store _ _ _ _ _ Hi ltac:(by rewrite Hl) Hread)
        as [_ Hi'].
      split; [congruence|]. split; [done|]. intros db s0 k0.
      by rewrite (read_frame _ _ _ _ _ Hread).
    - intros n s r0 s' t (Hl & Hi & Hf) Hsettle.
      destruct (settle_shape _ _ _ _ _ _ _ Hsettle) as (Hl' & _).
      destruct (settle_other_store _ _ _ _ _ _ _ Hi ltac:(by rewrite Hl)
                  Hsettle) as (_ & Hi' & Hf').
      split; [congruence|]. split; [done|]. intros db s0 k0.
      by rewrite Hf'.
    - by intros s (Hl & Hi & Hf).
    - done. }
  destruct Hstate as (Hl & Hi & Hf).
  assert (Hmiss : forall s v s' t,
            layer s = layer st -> only_offline_tiles (browser s) ->
            _getTileFromCache (_getTileKey (layer st) coords) s = (v, s', t) ->
            v = None /\ layer s' = layer st /\ only_offline_tiles (browser s')).
  { intros s v s' t Hls His Hread.
    destruct (read_shape _ _ _ _ _ Hread) as (Hl' & _).
    destruct (read_other_store _ _ _ _ _ His ltac:(by rewrite Hls) Hread)
      as [-> Hi']. split; [done|]. split; [congruence|done]. }
  split; [|split; [|split; [|done]]].
  - destruct (resolve_cases E base coords done st Huse)
      as [(c & st1 & t1 & Hr1 & _)
         |[(st1 & t1 & _ & _ & Hsrc & _)
          |[(st1 & t1 & r' & st2 & t2 & _ & _ & _ & Hsrc & _)
           |[(st1 & t1 & st3 & t3 & _ & _ & _ & Hsrc & _)
            |(st1 & t1 & c & st3 & t3 & r' & st4 & t4
              & Hr1 & _ & Hr3 & _)]]]]; try done.
    + by destruct (Hmiss _ _ _ _ eq_refl Hinv Hr1).
    + destruct (Hmiss _ _ _ _ eq_refl Hinv Hr1) as (_ & Hl1 & Hi1).
      by destruct (Hmiss (bump st1) _ _ _ Hl1 Hi1 Hr3).
  - destruct (resolve_cases E base coords done st Huse)
      as [(c & st1 & t1 & Hr1 & _)
         |[(st1 & t1 & _ & _ & _ & _ & Ht)
          |[(st1 & t1 & r' & st2 & t2 & _ & _ & _ & _ & _ & Ht)
           |[(st1 & t1 & st3 & t3 & _ & _ & _ & _ & _ & Ht)
            |(st1 & t1 & c & st3 & t3 & r' & st4 & t4
              & _ & _ & _ & _ & _ & _ & Ht)]]]];
      [by destruct (Hmiss _ _ _ _ eq_refl Hinv Hr1)|..];
      fold r in Ht; rewrite Ht, count_cons; simpl; lia.
  - intros Hin.
    destruct (saved_means_settled
                (fun s => layer s = layer st /\ only_offline_tiles (browser s))
                E base coords done st Huse) as (n & s & t & Hs & [Hls His] & _);
      [|by intros s []|done|done|].
    + intros s v s' t [Hls His] Hread.
      by destruct (Hmiss _ _ _ _ Hls His Hread) as (_ & ? & ?).
    + destruct (settle_other_store _ _ _ _ _ _ _ His ltac:(by rewrite Hls) Hs)
        as ([reason Hrej] & _). discriminate.
Qed.


(** A layer with the store name "tiles" in a new browser. *)
Lemma other_store_name_never_caches_witness :
  let r := resolve Examples.online Examples.plain_tile Examples.tile_1_0_1
                   true Samples.cold_named_store in
  src (value_of r) = Some (Examples.tile_url Examples.tile_1_0_1)
  /\ (1 <= count is_request (trace_of r))%nat
  /\ ~ In (Log (SavedTileToCache
                  (_getTileKey Samples.named_store_layer Examples.tile_1_0_1)))
          (trace_of r)
  /\ layer (state_of r) = Samples.named_store_layer
  /\ only_offline_tiles (browser (state_of r))
  /\ forall db s k,
       record (browser (state_of r)) db s k
       = record Examples.fresh_browser db s k.
Proof.
  refine (other_store_name_never_caches Examples.online Examples.plain_tile
            Examples.tile_1_0_1 true Samples.cold_named_store eq_refl _
            fresh_browser_only_tiles).
  vm_compute. discriminate.
Defined.

End CacheFacts.

(** ** Batches, progress and records of the bulk download *)

Section BatchFacts.
Import TileKey Scheduler Batches.

(** The loop of [processBatch] leaves the layer, the tiles and the map name
    alone and requests the URLs of its tiles in order. *)
Lemma start_images_requests (n : nat) : forall (j : Job) (i : nat),
  let j' := start_images j i n in
  baseLayer j' = baseLayer j /\ getTileUrl j' = getTileUrl j
  /\ _tilesforSave j' = _tilesforSave j /\ mapName j' = mapName j
  /\ cacheDB j' = cacheDB j /\ browser j' = browser j
  /\ fired j' = fired j /\ count j' = count j
  /\ requests j'
     = (requests j
          ++ map (getTileUrl j) (take n (drop i (_tilesforSave j))))%list.
Proof.
  induction n as [|n IH]; intros j i; simpl.
  - rewrite app_nil_r. by repeat split.
  - destruct (_tilesforSave j !! i) as [tile|] eqn:Htile.
    + match goal with |- context [start_images ?J _ _] => set (j1 := J) end.
      destruct (IH j1 (S i)) as (H1 & H2 & H3 & H4 & H5 & H6 & H7 & H8 & H9).
      repeat split; try (etrans; [eassumption|done]).
      rewrite H9. simpl. rewrite <- app_assoc. f_equal.
      rewrite (drop_S _ _ _ Htile). done.
    + rewrite drop_ge by (by apply lookup_ge_None). rewrite take_nil.
      simpl. rewrite app_nil_r. by repeat split.
Qed.

Lemma processBatch_requests (j : Job) (s : nat) :
  let j' := processBatch s 10 j in
  baseLayer j' = baseLayer j /\ getTileUrl j' = getTileUrl j
  /\ _tilesforSave j' = _tilesforSave j /\ mapName j' = mapName j
  /\ cacheDB j' = cacheDB j /\ browser j' = browser j
  /\ fired j' = fired j /\ count j' = count j
  /\ requests j'
     = (requests j
          ++ map (getTileUrl j)
               (take (Nat.min (s + 10) (length (_tilesforSave j)) - s)
                     (drop s (_tilesforSave j))))%list
  /\ timer j' = (if (Nat.min (s + 10) (length (_tilesforSave j))
                       <? length (_tilesforSave j))%nat
                 then Some (Nat.min (s + 10) (length (_tilesforSave j)))
                 else None).
Proof.
  unfold processBatch. cbv zeta.
  destruct (start_images_requests
              (Nat.min (s + 10) (length (_tilesforSave j)) - s) j s)
    as (H1 & H2 & H3 & H4 & H5 & H6 & H7 & H8 & H9).
  simpl. by repeat split.
Qed.

(** What no callback changes. *)
Lemma step_static (j j' : Job) (cb : Callback) :
  step j cb = Some j' ->
  baseLayer j' = baseLayer j /\ getTileUrl j' = getTileUrl j
  /\ _tilesforSave j' = _tilesforSave j /\ mapName j' = mapName j.
Proof.
  destruct cb as [i png now|i|i|]; simpl.
  - destruct (status j !! i) as [[| | |]|]; try done.
    destruct (_tilesforSave j !! i); [|done].
    destruct png; by intros [= <-].
  - destruct (status j !! i) as [[| | |]|]; try done. by intros [= <-].
  - destruct (status j !! i) as [[| |value|]|]; try done.
    destruct (DBManager.put _ _ _ _) as [[r db'] w'].
    destruct r as [[]|reason]; [|by intros [= <-]].
    destruct (_ =? _)%Z; by intros [= <-].
  - destruct (timer j) as [s|]; [|done]. intros [= <-].
    destruct (processBatch_requests j s) as (H1 & H2 & H3 & H4 & _).
    done.
Qed.

Lemma processBatch_batched url_of tiles (k s : nat) (j : Job) :
  getTileUrl j = url_of -> _tilesforSave j = tiles ->
  s = Nat.min (10 * k) (length tiles) ->
  (s < length tiles \/ tiles = [])%nat ->
  requests j = map url_of (take s tiles) ->
  Batched url_of tiles k (processBatch s 10 j).
Proof.
  intros Hurl Htiles Hs Hlt Hreq.
  destruct (processBatch_requests j s)
    as (H1 & H2 & H3 & H4 & H5 & H6 & H7 & H8 & H9 & H10).
  rewrite Htiles in H9, H10.
  assert (Hstarted : started_tiles (processBatch s 10 j)
                     = Nat.min (10 * S k) (length tiles)).
  { unfold started_tiles. rewrite H10, H3, Htiles.
    destruct (_ <? _)%nat eqn:Hend.
    - apply Nat.ltb_lt in Hend. lia.
    - apply Nat.ltb_ge in Hend. lia. }
  constructor.
  - by rewrite H2.
  - by rewrite H3.
  - exact Hstarted.
  - intros s'. rewrite H10. destruct (_ <? _)%nat eqn:Hend; [|done].
    apply Nat.ltb_lt in Hend. intros [= <-]. done.
  - rewrite Hstarted, H9, Hreq, Hurl, <- map_app, take_take_drop.
    destruct Hlt as [Hlt| ->]; [|by rewrite !take_nil].
    do 2 f_equal. lia.
Qed.

Lemma step_batched url_of tiles (k : nat) (j j' : Job) (cb : Callback) :
  Batched url_of tiles k j -> step j cb = Some j' ->
  Batched url_of tiles (if is_timeout cb then S k else k) j'.
Proof.
  intros [Hurl Htiles Hstarted Htimer Hreq] Hstep.
  destruct cb as [i png now|i|i|]; simpl in Hstep; cbn [is_timeout].
  - destruct (status j !! i) as [[| | |]|]; try done.
    destruct (_tilesforSave j !! i); [|done].
    destruct png; injection Hstep as <-; by constructor.
  - destruct (status j !! i) as [[| | |]|]; try done.
    injection Hstep as <-. by constructor.
  - destruct (status j !! i) as [[| |value|]|]; try done.
    destruct (DBManager.put _ _ _ _) as [[r db'] w'].
    destruct r as [[]|reason]; [|injection Hstep as <-; by constructor].
    destruct (_ =? _)%Z; injection Hstep as <-; by constructor.
  - destruct (timer j) as [s|] eqn:Ht; [|done]. injection Hstep as <-.
    unfold started_tiles in Hstarted, Hreq. rewrite Ht in Hstarted, Hreq.
    pose proof (Htimer s eq_refl) as Hlt.
    apply (processBatch_batched url_of tiles (S k) s j);
      [done|done|lia|by left|done].
Qed.

Lemma run_batched url_of tiles (cbs : list Callback) : forall (k : nat) (j j' : Job),
  Batched url_of tiles k j -> run j cbs = Some j' ->
  Batched url_of tiles (k + length (List.filter is_timeout cbs)) j'.
Proof.
  induction cbs as [|cb cbs IH]; intros k j j' Hb; simpl.
  - intros [= <-]. by rewrite Nat.add_0_r.
  - destruct (step j cb) as [j1|] eqn:Hstep; [|done]. intros Hrun.
    pose proof (step_batched _ _ _ _ _ _ Hb Hstep) as Hb1.
    pose proof (IH _ _ _ Hb1 Hrun) as Hb'.
    destruct (is_timeout cb); simpl; [|done].
    by rewrite <- Nat.add_succ_comm.
Qed.

Lemma saveTilesImpl_batched base url_of db w tiles name j0 :
  _saveTilesImpl base url_of db w tiles name = Some j0 ->
  Batched url_of tiles 0 j0.
Proof.
  unfold _saveTilesImpl. destruct db as [m|]; [|done]. intros [= <-].
  apply (processBatch_batched url_of tiles 0 0); simpl; try done.
  destruct tiles; [by right|left; simpl; lia].
Qed.

(** X14.  The bulk download requests the tiles in batches of ten.  After any
    callbacks, [k] of them timeouts, the image requests made so far are the
    URLs of the first [min (10 (k + 1)) total] tiles, one request per tile,
    in the order of the list; and no timer is pending exactly when every
    tile has been requested. *)
Theorem tiles_are_requested_in_batches
    base url_of db w tiles name j0 (cbs : list Callback) (j : Job) :
  _saveTilesImpl base url_of db w tiles name = Some j0 ->
  run j0 cbs = Some j ->
  let n := Nat.min (10 * S (length (List.filter is_timeout cbs)))
                   (length tiles) in
  requests j = map url_of (take n tiles)
  /\ (timer j = None <-> n = length tiles).
Proof.
  intros Hstart Hrun n.
  pose proof (run_batched _ _ _ _ _ _ (saveTilesImpl_batched _ _ _ _ _ _ _ Hstart)
                Hrun) as [Hurl Htiles Hstarted Htimer Hreq].
  rewrite Nat.add_0_l in Hstarted. fold n in Hstarted.
  rewrite Hstarted in Hreq.
  split; [done|]. unfold started_tiles in Hstarted. rewrite Htiles in Hstarted.
  destruct (timer j) as [s|] eqn:Ht.
  - pose proof (Htimer s eq_refl). split; [done|lia].
  - done.
Qed.


(** Twelve tiles: ten requests at once, the other two after the timeout. *)
Lemma tiles_are_requested_in_batches_witness :
  let tiles := map (fun i => mkCoords 4 (Z.of_nat i) 0) (seq 0 12) in
  (requests (Examples.after tiles [])
     = map Examples.tile_url (take 10 tiles)
   /\ (timer (Examples.after tiles []) = None <-> 10%nat = length tiles))
  /\ (requests (Examples.after tiles [timeout])
        = map Examples.tile_url tiles
      /\ (timer (Examples.after tiles [timeout]) = None
          <-> 12%nat = length tiles)).
Proof.
  intros tiles. split.
  - refine (tiles_are_requested_in_batches Examples.caching_layer
              Examples.tile_url (Some (DBManager.initialize None))
              Examples.fresh_browser tiles None (Examples.started tiles) []
              (Examples.after tiles []) _ _); vm_compute; reflexivity.
  - refine (tiles_are_requested_in_batches Examples.caching_layer
              Examples.tile_url (Some (DBManager.initialize None))
              Examples.fresh_browser tiles None (Examples.started tiles)
              [timeout] (Examples.after tiles [timeout]) _ _);
      vm_compute; reflexivity.
Defined.

(** *** Progress never goes back *)

Lemma progress_of_percent (c t : Z) :
  (0 < t)%Z -> progress_of c t = Int (percent c t).
Proof.
  intros Ht. unfold progress_of, percent.
  destruct (t =? 0)%Z eqn:H0; [apply Z.eqb_eq in H0; lia|].
  f_equal. unfold Math_round. rewrite Zdiv_Qdiv. apply Qfloor_comp.
  rewrite !inject_Z_plus, !inject_Z_mult.
  assert (~ (inject_Z t == 0)%Q) by (unfold Qeq, inject_Z; simpl; lia).
  change (inject_Z 200) with (200 # 1)%Q. change (inject_Z 2) with (2 # 1)%Q.
  field. done.
Qed.

Lemma percent_mono (c c' t : Z) :
  (0 < t)%Z -> (c <= c')%Z -> (percent c t <= percent c' t)%Z.
Proof. intros Ht Hc. unfold percent. apply Z.div_le_mono; lia. Qed.

Lemma percent_bounds (c t : Z) :
  (0 < t)%Z -> (0 <= c <= t)%Z -> (0 <= percent c t <= 100)%Z.
Proof.
  intros Ht Hc. unfold percent. split.
  - apply Z.div_pos; lia.
  - assert ((200 * c + t) / (2 * t) < 101)%Z; [|lia].
    apply Z.div_lt_upper_bound; lia.
Qed.

Lemma progress_values_app (l1 l2 : list LayerEvent) :
  progress_values (l1 ++ l2) = (progress_values l1 ++ progress_values l2)%list.
Proof. unfold progress_values. apply flat_map_app. Qed.

Lemma ascending_snoc (l : list Z) (p : Z) :
  ascending l -> Forall (fun q => (q <= p)%Z) l -> ascending (l ++ [p]).
Proof.
  induction l as [|a l IH]; simpl; [by intros _ _; split|].
  intros [Ha Hl] Hp. apply Forall_cons in Hp as [Hap Hp]. split.
  - apply Forall_app. split; [done|]. by constructor.
  - by apply IH.
Qed.

(** What a callback does to the counter and the events. *)
Lemma step_fired (j j' : Job) (cb : Callback) :
  step j cb = Some j' ->
  total j' = total j
  /\ ((fired j' = fired j
       /\ (count j' = count j \/ count j' = (count j + 1)%Z))
      \/ (count j' = (count j + 1)%Z
          /\ exists tail,
               fired j'
               = (fired j
                    ++ saveprogress (total j)
                         (progress_of (count j + 1) (total j)) :: tail)%list
               /\ (tail = [] \/ tail = [savecomplete (total j)]))).
Proof.
  intros Hstep.
  pose proof (step_static _ _ _ Hstep) as (_ & _ & Htiles & _).
  split; [unfold total; by rewrite Htiles|].
  destruct cb as [i png now|i|i|]; simpl in Hstep.
  - destruct (status j !! i) as [[| | |]|]; try done.
    destruct (_tilesforSave j !! i); [|done].
    destruct png; injection Hstep as <-; left; simpl; auto.
  - destruct (status j !! i) as [[| | |]|]; try done.
    injection Hstep as <-. left; simpl; auto.
  - destruct (status j !! i) as [[| |value|]|] eqn:Hi; try done.
    destruct (DBManager.put (cacheDB j) (browser j)
                (cacheStoreName (baseLayer j)) value)
      as [[[[]|reason] db'] w'] eqn:Hput.
    + destruct (put_resolved_fires j i value db' w' Hi Hput)
        as (j2 & Hstep2 & Hc & Hf).
      simpl in Hstep2. rewrite Hi, Hput in Hstep2. rewrite Hstep2 in Hstep.
      injection Hstep as <-. right. split; [done|].
      eexists. split; [exact Hf|]. destruct (_ =? _)%Z; auto.
    + injection Hstep as <-. left; simpl; auto.
  - destruct (timer j) as [s|]; [|done]. injection Hstep as <-.
    destruct (processBatch_requests j s)
      as (_ & _ & _ & _ & _ & _ & Hf & Hc & _).
    left. auto.
Qed.

Lemma Invariant_count_bounds (j : Job) :
  Invariant j -> (0 <= count j <= total j)%Z.
Proof.
  intros [Hlen Hcount _ _]. unfold total. rewrite Hcount, <- Hlen.
  apply finished_bounds.
Qed.

Lemma step_progressing (j j' : Job) (cb : Callback) :
  Invariant j -> Progressing j -> step j cb = Some j' -> Progressing j'.
Proof.
  intros Hinv [Htot Hasc Hbound] Hstep.
  pose proof (Invariant_count_bounds _ Hinv) as Hc.
  pose proof (Invariant_count_bounds _ (step_invariant _ _ _ Hinv Hstep)) as Hc'.
  destruct (step_fired _ _ _ Hstep) as (Ht & [[Hf Hcount]|(Hcount & tail & Hf & Htail)]).
  - rewrite Ht in Hc'. constructor; rewrite ?Hf, ?Ht; [done|done|].
    destruct Hcount as [Hcount|Hcount]; rewrite Hcount in *; [done|].
    eapply Forall_impl; [exact Hbound|]. simpl. intros p [Hp0 Hp].
    split; [done|]. etrans; [exact Hp|]. apply percent_mono; lia.
  - rewrite Ht, Hcount in Hc'.
    assert (Hpos : (0 < total j)%Z) by lia.
    rewrite progress_of_percent in Hf by done.
    assert (Hvals : progress_values (fired j')
                    = (progress_values (fired j)
                         ++ [percent (count j + 1) (total j)])%list).
    { rewrite Hf, progress_values_app. f_equal.
      destruct Htail as [->| ->]; done. }
    assert (Hle : Forall (fun q => (q <= percent (count j + 1) (total j))%Z)
                         (progress_values (fired j))).
    { eapply Forall_impl; [exact Hbound|]. simpl. intros p [_ Hp].
      etrans; [exact Hp|]. apply percent_mono; lia. }
    constructor; rewrite ?Hvals, ?Ht, ?Hcount.
    + rewrite Hf. apply Forall_app. split; [done|].
      constructor; [done|]. destruct Htail as [->| ->]; by repeat constructor.
    + by apply ascending_snoc.
    + apply Forall_app. split.
      * eapply Forall_impl; [exact Hbound|]. simpl. intros p [Hp0 Hp].
        split; [done|]. etrans; [exact Hp|]. apply percent_mono; lia.
      * constructor; [|done]. split; [|done].
        apply percent_bounds; lia.
Qed.

Lemma run_progressing (cbs : list Callback) : forall (j j' : Job),
  Invariant j -> Progressing j -> run j cbs = Some j' -> Progressing j'.
Proof.
  induction cbs as [|cb cbs IH]; intros j j' Hinv Hp; simpl.
  - by intros [= <-].
  - destruct (step j cb) as [j1|] eqn:Hstep; [|done]. intros Hrun.
    apply (IH j1); [by apply (step_invariant j j1 cb)| |done].
    by apply (step_progressing j j1 cb).
Qed.

Lemma saveTilesImpl_progressing base url_of db w tiles name j0 :
  _saveTilesImpl base url_of db w tiles name = Some j0 -> Progressing j0.
Proof.
  unfold _saveTilesImpl. destruct db as [m|]; [|done]. intros [= <-].
  match goal with |- Progressing (processBatch 0 10 ?J) => set (j := J) end.
  destruct (processBatch_requests j 0)
    as (_ & _ & Htiles & _ & _ & _ & Hf & Hc & _).
  constructor; rewrite Hf; unfold total; rewrite ?Htiles; simpl.
  - by repeat constructor.
  - by destruct (progress_of _ _).
  - by destruct (progress_of _ _).
Qed.

(** X15.  Progress never goes back.  Whatever callbacks a bulk download has
    received, the percentages of the [saveprogress] events it has fired are
    in ascending order and lie between 0 and 100, and every event it has
    fired carries the number of tiles as its total. *)
Theorem progress_never_goes_back
    base url_of db w tiles name j0 (cbs : list Callback) (j : Job) :
  _saveTilesImpl base url_of db w tiles name = Some j0 ->
  run j0 cbs = Some j ->
  ascending (progress_values (fired j))
  /\ Forall (fun p => (0 <= p <= 100)%Z) (progress_values (fired j))
  /\ Forall (fun e => total_of e = Z.of_nat (length tiles)) (fired j).
Proof.
  intros Hstart Hrun.
  pose proof (saveTilesImpl_invariant _ _ _ _ _ _ _ Hstart) as Hinv0.
  pose proof (run_invariant _ _ _ Hinv0 Hrun) as Hinv.
  pose proof (run_progressing _ _ _ Hinv0
                (saveTilesImpl_progressing _ _ _ _ _ _ _ Hstart) Hrun)
    as [Htot Hasc Hbound].
  pose proof (run_batched _ _ _ _ _ _
                (saveTilesImpl_batched _ _ _ _ _ _ _ Hstart) Hrun)
    as [_ Htiles _ _ _].
  pose proof (Invariant_count_bounds _ Hinv) as Hc.
  split; [done|]. split.
  - eapply Forall_impl; [exact Hbound|]. simpl. intros q [Hq0 Hq].
    split; [done|]. etrans; [exact Hq|].
    destruct (decide (total j = 0%Z)) as [H0|H0].
    + unfold percent. rewrite H0. replace (count j) with 0%Z by lia. done.
    + apply percent_bounds; lia.
  - unfold total in Htot. by rewrite Htiles in Htot.
Qed.


(** Five tiles: one stored, one failed, one stored. *)
Lemma progress_never_goes_back_witness :
  let cbs := (Examples.stored 0 ++ [img_onerror 1] ++ Examples.stored 2)%list in
  progress_values (fired (Examples.after Examples.world_0_1 cbs)) = [20; 60]%Z
  /\ ascending (progress_values (fired (Examples.after Examples.world_0_1 cbs)))
  /\ Forall (fun p => (0 <= p <= 100)%Z)
            (progress_values (fired (Examples.after Examples.world_0_1 cbs)))
  /\ Forall (fun e => total_of e = Z.of_nat (length Examples.world_0_1))
            (fired (Examples.after Examples.world_0_1 cbs)).
Proof.
  intros cbs. split; [vm_compute; reflexivity|].
  refine (progress_never_goes_back Examples.caching_layer
            Examples.tile_url (Some (DBManager.initialize None))
            Examples.fresh_browser Examples.world_0_1 None
            (Examples.started Examples.world_0_1) cbs
            (Examples.after Examples.world_0_1 cbs) _ _);
    vm_compute; reflexivity.
Defined.

(** *** An empty list of tiles *)

(** X16.  A bulk download of no tiles: [savestart] is fired with total 0 and
    the progress NaN (0 / 0), no image is requested, no timer is set, and no
    callback can be delivered, so the job stays as it is and neither
    [saveprogress] nor [savecomplete] is ever fired. *)
Theorem empty_download_never_completes
    (base : Layer) (url_of : Coords -> string) (m : DBManager.Manager)
    (w : DBManager.Browser) (name : option string) :
  exists j0,
    _saveTilesImpl base url_of (Some m) w [] name = Some j0
    /\ fired j0 = [savestart 0 NaN]
    /\ requests j0 = []
    /\ forall cbs j, run j0 cbs = Some j -> j = j0.
Proof.
  eexists. split; [reflexivity|]. split; [done|]. split; [done|].
  intros [|cb cbs] j; simpl; [by intros [= <-]|].
  by destruct cb as [i png now|i|i|].
Qed.

(** *** A stored tile is the tile [createTile] looks for *)

Lemma start_images_storing (n : nat) : forall (j : Job) (i i' : nat) value,
  status (start_images j i n) !! i' = Some (Storing value) ->
  status j !! i' = Some (Storing value).
Proof.
  induction n as [|n IH]; intros j i i' value; simpl; [done|].
  destruct (_tilesforSave j !! i) as [tile|]; [|done].
  intros H. apply IH in H. simpl in H.
  rewrite list_lookup_insert in H. by case_decide.
Qed.

Lemma stores_own_tile_change (j j' : Job) :
  baseLayer j' = baseLayer j -> _tilesforSave j' = _tilesforSave j ->
  mapName j' = mapName j ->
  (forall i value, status j' !! i = Some (Storing value) ->
                   status j !! i = Some (Storing value)) ->
  stores_own_tile j -> stores_own_tile j'.
Proof.
  intros Hl Ht Hm Hs Hown i value Hi. rewrite Hl, Ht, Hm. by apply Hown, Hs.
Qed.

Lemma insert_not_storing (l : list TileStatus) (i i' : nat) s value :
  (forall v, s <> Storing v) ->
  <[i := s]> l !! i' = Some (Storing value) -> l !! i' = Some (Storing value).
Proof.
  intros Hs. rewrite list_lookup_insert. case_decide; [|done].
  intros [= ->]. by destruct (Hs value).
Qed.

Lemma step_stores_own_tile (j j' : Job) (cb : Callback) :
  stores_own_tile j -> step j cb = Some j' -> stores_own_tile j'.
Proof.
  intros Hown Hstep. destruct cb as [i png now|i|i|]; simpl in Hstep.
  - destruct (status j !! i) as [[| | |]|] eqn:Hi; try done.
    destruct (_tilesforSave j !! i) as [tile|] eqn:Htile; [|done].
    destruct png as [dataUrl|]; injection Hstep as <-.
    + intros i' value. simpl. rewrite list_lookup_insert.
      case_decide as Hc; [|apply Hown].
      destruct Hc as [<- _]. intros [= <-]. by exists tile.
    + apply (stores_own_tile_change j); try done. simpl.
      intros i' value. by apply insert_not_storing.
  - destruct (status j !! i) as [[| | |]|] eqn:Hi; try done.
    injection Hstep as <-. apply (stores_own_tile_change j); try done.
    simpl. intros i' value. by apply insert_not_storing.
  - destruct (status j !! i) as [[| |value|]|] eqn:Hi; try done.
    destruct (DBManager.put _ _ _ _) as [[r db'] w'].
    assert (Hfin : stores_own_tile (finish (with_store j db' w') i)).
    { apply (stores_own_tile_change j); try done. simpl.
      intros i' v. by apply insert_not_storing. }
    destruct r as [[]|reason]; [|by injection Hstep as <-].
    destruct (_ =? _)%Z; by injection Hstep as <-.
  - destruct (timer j) as [s|]; [|done]. injection Hstep as <-.
    destruct (processBatch_requests j s) as (H1 & _ & H3 & H4 & _).
    apply (stores_own_tile_change j); try done.
    intros i value. unfold processBatch. simpl. apply start_images_storing.
Qed.

Lemma run_stores_own_tile (cbs : list Callback) : forall (j j' : Job),
  stores_own_tile j -> run j cbs = Some j' -> stores_own_tile j'.
Proof.
  induction cbs as [|cb cbs IH]; intros j j' Hown; simpl.
  - by intros [= <-].
  - destruct (step j cb) as [j1|] eqn:Hstep; [|done]. intros Hrun.
    apply (IH j1); [|done]. by apply (step_stores_own_tile j j1 cb).
Qed.

Lemma saveTilesImpl_stores_own_tile base url_of db w tiles name j0 :
  _saveTilesImpl base url_of db w tiles name = Some j0 -> stores_own_tile j0.
Proof.
  unfold _saveTilesImpl. destruct db as [m|]; [|done]. intros [= <-].
  intros i value Hi. unfold processBatch in Hi. simpl in Hi.
  apply start_images_storing in Hi. simpl in Hi.
  apply lookup_replicate in Hi as [? _]. done.
Qed.

Lemma run_static (cbs : list Callback) : forall (j j' : Job),
  run j cbs = Some j' ->
  baseLayer j' = baseLayer j /\ getTileUrl j' = getTileUrl j
  /\ _tilesforSave j' = _tilesforSave j /\ mapName j' = mapName j.
Proof.
  induction cbs as [|cb cbs IH]; intros j j'; simpl.
  - by intros [= <-].
  - destruct (step j cb) as [j1|] eqn:Hstep; [|done]. intros Hrun.
    destruct (step_static _ _ _ Hstep) as (H1 & H2 & H3 & H4).
    destruct (IH _ _ Hrun) as (G1 & G2 & G3 & G4).
    repeat split; congruence.
Qed.


Lemma saveTilesImpl_static base url_of db w tiles name j0 :
  _saveTilesImpl base url_of db w tiles name = Some j0 ->
  _cacheKeyPrefix (baseLayer j0) = _cacheKeyPrefix base
  /\ useCache (baseLayer j0) = useCache base
  /\ cacheStoreName (baseLayer j0) = cacheStoreName base
  /\ saveToCache (baseLayer j0) = true
  /\ _tilesforSave j0 = tiles
  /\ mapName j0 = match name with
                  | Some s => if String.eqb s "" then "default" else s
                  | None => "default"
                  end.
Proof.
  unfold _saveTilesImpl. destruct db as [m|]; [|done]. intros [= <-].
  match goal with |- context [processBatch 0 10 ?J] => set (j := J) end.
  destruct (processBatch_requests j 0) as (H1 & _ & H3 & H4 & _).
  rewrite H1, H3, H4. done.
Qed.

(** X17.  What the bulk download stored, [createTile] finds.  When the put
    of tile [i] resolves (the callback fired an event), the record written
    has the key [_getTileKey] computes for that tile and the map name given
    to [_saveTilesImpl] ('default' when none); and with [useCache] on, a
    resolution of that tile on the layer and store the job left (data URL
    non-empty, store request not failing) ends up showing the stored URL;
    its only network request is the one the base class makes before the
    cache is read. *)
Theorem downloaded_tile_is_served
    base url_of db w tiles name j0 (cbs : list Callback) (j j' : Job)
    (i : nat) (tile : Coords) (value : DBManager.Entry)
    (E : Fetcher.Env) (b : Fetcher.BaseTile) (done : bool) (n : nat) :
  _saveTilesImpl base url_of db w tiles name = Some j0 ->
  run j0 cbs = Some j ->
  tiles !! i = Some tile ->
  status j !! i = Some (Storing value) ->
  step j (put_settled i) = Some j' ->
  fired j' <> fired j ->
  DBManager.url value <> "" ->
  useCache base = true ->
  DBManager.request_error (browser j') (DBManager.requested (browser j'))
    = false ->
  let st := Fetcher.mkState (baseLayer j') (Some (cacheDB j')) (browser j') n in
  let r := Fetcher.resolve E b tile done st in
  Fetcher.src (Fetcher.value_of r) = Some (DBManager.url value)
  /\ List.filter Fetcher.is_request (Fetcher.trace_of r)
     = [Fetcher.NetRequest Fetcher.TileImg (Fetcher.getTileUrl E tile)]
  /\ DBManager.key value = _getTileKey (baseLayer j') tile
  /\ DBManager.mapName value
     = Some (match name with
             | Some s => if String.eqb s "" then "default" else s
             | None => "default"
             end).
Proof.
  intros Hstart Hrun Htile Hi Hstep Hfired Hurl Huse Hok st r.
  destruct (saveTilesImpl_static _ _ _ _ _ _ _ Hstart)
    as (Hprefix0 & Huse0 & Hstore0 & _ & Htiles0 & Hname0).
  destruct (run_static _ _ _ Hrun) as (Hl & _ & Ht & Hm).
  destruct (step_static _ _ _ Hstep) as (Hl' & _ & _ & _).
  pose proof (run_stores_own_tile _ _ _
                (saveTilesImpl_stores_own_tile _ _ _ _ _ _ _ Hstart) Hrun
                i value Hi) as (tile' & Htile' & Hkey & Hmap).
  rewrite Ht, Htiles0, Htile in Htile'. injection Htile' as <-.
  assert (Hkey' : DBManager.key value = _getTileKey (baseLayer j') tile).
  { unfold _getTileKey. by rewrite Hl'. }
  simpl in Hstep. rewrite Hi in Hstep.
  destruct (DBManager.put (cacheDB j) (browser j)
              (cacheStoreName (baseLayer j)) value)
    as [[[[]|reason] db'] w'] eqn:Hput;
    [|injection Hstep as <-; by destruct Hfired].
  assert (Hdb : cacheDB j' = db' /\ browser j' = w'
                /\ baseLayer j' = baseLayer j).
  { destruct (_ =? _)%Z; by injection Hstep as <-. }
  destruct Hdb as (Hdb & Hw & _).
  destruct (put_records _ _ _ _ _ _ Hput) as (conn & Hconn & Hrec & _).
  assert (Hget : DBManager.get db' w' (cacheStoreName (baseLayer j'))
                   (_getTileKey (baseLayer j') tile)
                 = (DBManager.Resolved (Some value), db',
                    DBManager.count_request w')).
  { rewrite <- Hkey', Hl'.
    rewrite (get_held db' w' conn _ _ Hconn); [by rewrite Hrec|congruence|].
    unfold Records.record in Hrec. by destruct (DBManager.objectStore _ _ _). }
  assert (Hread : Fetcher._getTileFromCache
                    (_getTileKey (Fetcher.layer st) tile) st
                  = (Some (DBManager.url value),
                     Fetcher.mkState (baseLayer j') (Some db')
                       (DBManager.count_request w') n,
                     [Fetcher.CacheGet (cacheStoreName (baseLayer j'))
                        (_getTileKey (baseLayer j') tile)])).
  { apply (read_hit _ st (cacheDB j') value); [done| |done].
    simpl. by rewrite Hdb, Hw. }
  assert (Huse' : useCache (Fetcher.layer st) = true).
  { simpl. by rewrite Hl', Hl, Huse0. }
  pose proof (resolve_hit E b tile done st _ _ _ Huse' Hread) as Hr.
  fold r in Hr. rewrite Hr.
  unfold Fetcher.value_of, Fetcher.trace_of; cbn [fst snd Fetcher.src].
  split; [done|]. split.
  - simpl. rewrite !List.filter_app, filter_request_early. simpl.
    by rewrite filter_request_on_base_load.
  - split; [done|]. by rewrite Hmap, Hm, Hname0.
Qed.


(** The third of five tiles is stored, then resolved with the network down. *)
Lemma downloaded_tile_is_served_witness :
  let j := Examples.after Examples.world_0_1
             [img_onload 2 (Some Examples.png) 1700000000000] in
  let j' := Examples.after Examples.world_0_1 (Examples.stored 2) in
  let st := Fetcher.mkState (baseLayer j') (Some (cacheDB j')) (browser j') 0 in
  let r := Fetcher.resolve Examples.offline Examples.plain_tile
             Examples.tile_1_0_1 true st in
  Fetcher.src (Fetcher.value_of r) = Some Examples.png
  /\ List.filter Fetcher.is_request (Fetcher.trace_of r)
     = [Fetcher.NetRequest Fetcher.TileImg
          (Examples.tile_url Examples.tile_1_0_1)].
Proof.
  intros j j' st r.
  pose (value := DBManager.mkEntry
                   (tile_key (_cacheKeyPrefix Examples.caching_layer)
                             Examples.tile_1_0_1)
                   Examples.png 1700000000000 (Some "default")).
  destruct (downloaded_tile_is_served Examples.caching_layer Examples.tile_url
              (Some (DBManager.initialize None)) Examples.fresh_browser
              Examples.world_0_1 None (Examples.started Examples.world_0_1)
              [img_onload 2 (Some Examples.png) 1700000000000] j j' 2
              Examples.tile_1_0_1 value Examples.offline Examples.plain_tile
              true 0) as (H1 & H2 & _); try (vm_compute; reflexivity).
  - vm_compute. discriminate.
  - vm_compute. discriminate.
  - split; [exact H1|exact H2].
Defined.

End BatchFacts.

(** ** The simulated download of map_layer_toggle.js *)

Section ToggleFacts.
Import TileKey Enumerator Toggle.

Lemma fold_left_count (b : LatLngBounds) (zs : list Z) : forall (a : Z),
  fold_left (fun tilesCount z => (tilesCount + tiles_in b z)%Z) zs a
  = (a + foldr (fun z acc => (tiles_in b z + acc)%Z) 0%Z zs)%Z.
Proof.
  induction zs as [|z zs IH]; intros a; cbn [fold_left foldr]; [lia|].
  rewrite IH. lia.
Qed.

Lemma tiles_in_pos (b : LatLngBounds) (z : Z) : (1 <= tiles_in b z)%Z.
Proof.
  assert (H : forall a1 a2 c1 c2 : Z,
             (1 <= (Z.max a1 a2 - Z.min a1 a2 + 1)
                   * (Z.max c1 c2 - Z.min c1 c2 + 1))%Z).
  { intros a1 a2 c1 c2.
    assert (1 <= Z.max a1 a2 - Z.min a1 a2 + 1)%Z by lia.
    assert (1 <= Z.max c1 c2 - Z.min c1 c2 + 1)%Z by lia. nia. }
  apply H.
Qed.

(** The timers of one zoom level are as many as [tilesCount] adds. *)
Lemma length_level_timers (layer : LayerId) (b : LatLngBounds) (z : Z) :
  Z.of_nat (length (level_timers layer b z)) = tiles_in b z.
Proof.
  unfold level_timers, tiles_in. cbv zeta.
  rewrite (length_flat_map_const _ _
             (length (range (yMin (tile_range b z)) (yMax (tile_range b z)))))
    by (intros; by rewrite length_map).
  rewrite !length_range, Nat2Z.inj_mul.
  unfold tile_range. cbv zeta. cbn [xMin xMax yMin yMax].
  rewrite !Z2Nat.id by lia. done.
Qed.

Lemma length_timers (layer : LayerId) (b : LatLngBounds) (zs : list Z) :
  Z.of_nat (length (flat_map (level_timers layer b) zs))
  = foldr (fun z acc => (tiles_in b z + acc)%Z) 0%Z zs.
Proof.
  induction zs as [|z zs IH]; cbn [flat_map foldr]; [done|].
  by rewrite length_app, Nat2Z.inj_add, IH, length_level_timers.
Qed.

Lemma timers_count (layer : LayerId) (b : LatLngBounds) (lo hi : Z) :
  Z.of_nat (length (downloadLayerTiles layer b lo hi)) = count_tiles b lo hi
  /\ Forall (is_tile_timer layer) (downloadLayerTiles layer b lo hi)
  /\ ((lo <= hi)%Z -> (hi - lo + 1 <= count_tiles b lo hi)%Z).
Proof.
  unfold downloadLayerTiles, count_tiles.
  rewrite length_timers, fold_left_count. split; [lia|]. split.
  - apply Forall_forall. intros t Ht. apply list_elem_of_In in Ht.
    apply in_flat_map in Ht as (z & _ & Ht). unfold level_timers in Ht.
    apply in_flat_map in Ht as (tx & _ & Ht).
    apply in_map_iff in Ht as (ty & <- & _). done.
  - intros Hle. rewrite Z.add_0_l.
    assert (Hlen : forall zs,
              (Z.of_nat (length zs)
               <= foldr (fun z acc => (tiles_in b z + acc)%Z) 0%Z zs)%Z).
    { induction zs as [|z zs IH]; cbn [length foldr]; [lia|].
      pose proof (tiles_in_pos b z). lia. }
    specialize (Hlen (range lo hi)). rewrite length_range in Hlen. lia.
Qed.



(** *** The page and the control list the same tiles *)

Lemma tiles_of_app (l1 l2 : list Timer) :
  tiles_of (l1 ++ l2) = (tiles_of l1 ++ tiles_of l2)%list.
Proof. unfold tiles_of. apply flat_map_app. Qed.

Lemma tiles_of_level (layer : LayerId) (b : LatLngBounds) (z : Z) :
  tiles_of (level_timers layer b z) = tiles_at_zoom b z.
Proof.
  unfold level_timers, tiles_at_zoom, tile_range, latLngToTile, _latLngToTile.
  cbv zeta. cbn [xMin xMax yMin yMax x y].
  rewrite (Z.min_comm (Zfloor ((lng (getNorthEast b) + 180) / 360 * _))).
  rewrite (Z.max_comm (Zfloor ((lng (getNorthEast b) + 180) / 360 * _))).
  match goal with
  | |- tiles_of (flat_map _ ?cols) = flat_map _ ?cols' =>
      generalize cols
  end.
  intros cols. induction cols as [|tx cols IH]; cbn [flat_map]; [done|].
  rewrite tiles_of_app, IH. f_equal.
  match goal with |- tiles_of (map _ ?rows) = _ => generalize rows end.
  intros rows. induction rows as [|ty rows IHr]; [done|].
  cbn [map]. by rewrite <- IHr.
Qed.

(** X19.  The simulated download of the page visits, for each layer, exactly
    the tiles the control's [_calculateTilesForArea] lists for the same box
    when every zoom level from [minZoom] to [maxZoom] is asked for, in the
    same order: the two copies of the corner-to-tile computation agree,
    although the page starts from the north-west and south-east corners and
    the control from the north-east and south-west ones. *)
Theorem page_and_control_list_the_same_tiles
    (layer : LayerId) (b : LatLngBounds) (lo hi : Z) :
  tiles_of (downloadLayerTiles layer b lo hi)
  = _calculateTilesForArea (Some (range lo hi)) b lo hi.
Proof.
  unfold downloadLayerTiles, _calculateTilesForArea. cbn [default].
  assert (Hall : forall zs, (forall z, In z zs -> (lo <= z <= hi)%Z) ->
    tiles_of (flat_map (level_timers layer b) zs)
    = flat_map (fun zoom => if ((zoom <? lo) || (zoom >? hi))%Z then []
                            else tiles_at_zoom b zoom) zs).
  { induction zs as [|z zs IH]; intros Hin; cbn [flat_map]; [done|].
    rewrite tiles_of_app, IH by (intros z' Hz'; apply Hin; by right).
    f_equal. pose proof (Hin z (or_introl eq_refl)) as Hz.
    replace (z <? lo)%Z with false by (symmetry; apply Z.ltb_ge; lia).
    replace (z >? hi)%Z with false
      by (symmetry; rewrite Z.gtb_ltb; apply Z.ltb_ge; lia).
    apply tiles_of_level. }
  apply Hall. intros z Hz. by apply in_range_iff.
Qed.


(** *** From the click to the alert *)

Lemma length_delete_Z {A} (l : list A) (i : nat) (t : A) :
  l !! i = Some t ->
  Z.of_nat (length (delete i l)) = (Z.of_nat (length l) - 1)%Z.
Proof.
  intros Hi. rewrite length_delete by done.
  apply lookup_lt_Some in Hi. lia.
Qed.

Lemma nil_of_length_0 {A} (l : list A) : Z.of_nat (length l) = 0%Z -> l = [].
Proof. destruct l; [done|simpl; lia]. Qed.

Ltac page_fields :=
  cbn [bounds minZoom maxZoom tilesCount downloadedTiles shown width text
       alerts pending show_progress schedule].

Lemma stage_start (b : LatLngBounds) (zoom : Z) (width0 : Q) (text0 : Z) :
  (-2 <= zoom <= 21)%Z ->
  let lo := Z.max (zoom - 2) 0 in
  let hi := Z.min (zoom + 2) 19 in
  (1 <= count_tiles b lo hi)%Z
  /\ Stage b lo hi (count_tiles b lo hi) 0
           (downloadCurrentMapArea b zoom width0 text0).
Proof.
  intros Hzoom lo hi.
  destruct (timers_count satelliteLayer b lo hi) as (Hlen & Hall & Hpos).
  assert (Hle : (lo <= hi)%Z) by (unfold lo, hi; lia).
  assert (Hn : (1 <= count_tiles b lo hi)%Z) by (specialize (Hpos Hle); lia).
  split; [done|].
  set (n := count_tiles b lo hi) in *.
  assert (H0 : (0 =? 2 * n + 1)%Z = false) by (apply Z.eqb_neq; lia).
  constructor; unfold downloadCurrentMapArea; page_fields; fold lo hi n;
    rewrite ?H0; try done; try lia.
  intros _. split; [done|lia].
Qed.

Lemma stage_step (b : LatLngBounds) (lo hi k : Z) (i : nat) (p p' : Page) :
  let n := count_tiles b lo hi in
  (1 <= n)%Z -> Stage b lo hi n k p -> fire i p = Some p' ->
  Stage b lo hi n (k + 1) p'.
Proof.
  intros n Hn
    [Hb Hlo Hhi Hc Hr Hd Ha Hs Hsat Hstreet Hhide Hdone Hreset].
  unfold fire. destruct (pending p !! i) as [t|] eqn:Hi; [|done].
  pose proof (length_delete_Z _ _ _ Hi) as Hlen.
  destruct (timers_count streetLayer b lo hi) as (Hlen' & Hall' & _).
  fold n in Hlen'.
  destruct (decide (k < n)%Z) as [Hk|Hk];
    [|destruct (decide (k < 2 * n)%Z) as [Hk2|Hk2]].
  - (* a satellite timer *)
    destruct (Hsat Hk) as [Hall Hpend].
    pose proof (proj1 (Forall_lookup _ _) Hall i t Hi) as Ht.
    destruct t as [[|] c|]; try done. clear Ht.
    cbn [show_progress tilesCount downloadedTiles].
    rewrite Hc, Hd, Z.min_l by lia.
    assert (Hk1 : (k + 1 =? 2 * n + 1)%Z = false) by (apply Z.eqb_neq; lia).
    assert (Hk0 : (k =? 2 * n + 1)%Z = false) by (apply Z.eqb_neq; lia).
    rewrite Hk0 in Ha, Hs.
    destruct (n <=? k + 1)%Z eqn:Hlast; intros [= <-].
    + apply Z.leb_le in Hlast.
      assert (Hrest : delete i (pending p) = []).
      { apply nil_of_length_0. lia. }
      constructor; page_fields;
        rewrite ?Hk1, ?Hrest, ?Hb, ?Hlo, ?Hhi, ?Hc, ?Hd, ?app_nil_l;
        rewrite ?(Z.min_l k (2 * n)) by lia;
        try done; try lia.
      intros _. split; [done|lia].
    + apply Z.leb_gt in Hlast.
      constructor; page_fields; rewrite ?Hk1, ?Hc, ?Hd;
        rewrite ?(Z.min_l k (2 * n)) by lia; try done; try lia.
      intros _. split; [by apply Forall_delete|lia].
  - (* a street timer *)
    destruct (Hstreet ltac:(lia)) as [Hall Hpend].
    pose proof (proj1 (Forall_lookup _ _) Hall i t Hi) as Ht.
    destruct t as [[|] c|]; try done. clear Ht.
    cbn [show_progress tilesCount downloadedTiles].
    rewrite Hc, Hd, Z.min_l by lia.
    assert (Hk1 : (k + 1 =? 2 * n + 1)%Z = false) by (apply Z.eqb_neq; lia).
    assert (Hk0 : (k =? 2 * n + 1)%Z = false) by (apply Z.eqb_neq; lia).
    rewrite Hk0 in Ha, Hs.
    destruct (n * 2 <=? k + 1)%Z eqn:Hlast; intros [= <-].
    + apply Z.leb_le in Hlast.
      assert (Hrest : delete i (pending p) = []).
      { apply nil_of_length_0. lia. }
      constructor; page_fields; rewrite ?Hk1, ?Hrest, ?Hc, ?Hd, ?app_nil_l;
        rewrite ?(Z.min_l k (2 * n)) by lia; try done; try lia.
    + apply Z.leb_gt in Hlast.
      constructor; page_fields; rewrite ?Hk1, ?Hc, ?Hd;
        rewrite ?(Z.min_l k (2 * n)) by lia; try done; try lia.
      intros _. split; [by apply Forall_delete|lia].
  - (* the timer that hides the progress box *)
    assert (Hk' : k = (2 * n)%Z \/ k = (2 * n + 1)%Z) by lia.
    destruct Hk' as [Hk'|Hk'].
    + rewrite (Hhide Hk') in Hi.
      destruct i as [|i]; [|done]. injection Hi as <-. intros [= <-].
      assert (Hk1 : (k + 1 =? 2 * n + 1)%Z = true) by (apply Z.eqb_eq; lia).
      assert (Hk0 : (k =? 2 * n + 1)%Z = false) by (apply Z.eqb_neq; lia).
      rewrite Hk0 in Ha. rewrite (Hhide Hk').
      constructor; page_fields; rewrite ?Hk1, ?Ha; try done; try lia.
    + by rewrite (Hdone Hk') in Hi.
Qed.

Lemma stage_run (b : LatLngBounds) (lo hi : Z) (steps : list nat) :
  forall (k : Z) (p p' : Page),
  (1 <= count_tiles b lo hi)%Z ->
  Stage b lo hi (count_tiles b lo hi) k p -> run p steps = Some p' ->
  Stage b lo hi (count_tiles b lo hi) (k + Z.of_nat (length steps)) p'.
Proof.
  induction steps as [|i steps IH]; intros k p p' Hn Hst; cbn [run length].
  - intros [= <-]. by rewrite Z.add_0_r.
  - destruct (fire i p) as [p1|] eqn:Hfire; [|done]. intros Hrun.
    pose proof (stage_step _ _ _ _ _ _ _ Hn Hst Hfire) as Hst1.
    pose proof (IH _ _ _ Hn Hst1 Hrun) as Hst'.
    by replace (k + Z.of_nat (S (length steps)))%Z
      with (k + 1 + Z.of_nat (length steps))%Z by lia.
Qed.


(** X21.  Above zoom 21 (or below -2) the zoom range is empty: no tile is
    counted and no timer is set, so nothing ever fires; the progress box,
    once shown, is never hidden and no alert is raised. *)
Theorem out_of_range_zoom_shows_progress_forever
    (b : LatLngBounds) (zoom : Z) (width0 : Q) (text0 : Z) :
  (zoom < -2 \/ 21 < zoom)%Z ->
  let p := downloadCurrentMapArea b zoom width0 text0 in
  tilesCount p = 0%Z /\ pending p = [] /\ shown p = true /\ alerts p = 0%nat
  /\ forall steps p', run p steps = Some p' -> p' = p.
Proof.
  intros Hzoom p.
  assert (Hempty : range (Z.max (zoom - 2) 0) (Z.min (zoom + 2) 19) = []).
  { unfold range. replace (Z.to_nat _) with 0%nat by lia. done. }
  assert (Hpend : pending p = []).
  { unfold p, downloadCurrentMapArea, downloadLayerTiles. page_fields.
    by rewrite Hempty. }
  split; [|split; [done|split; [done|split; [done|]]]].
  - unfold p, downloadCurrentMapArea, count_tiles. page_fields.
    by rewrite Hempty.
  - intros [|i steps] p'; cbn [run]; [by intros [= <-]|].
    unfold fire. by rewrite Hpend.
Qed.


(** Firing the first pending timer is possible until the alert. *)
Lemma run_first_timers (b : LatLngBounds) (lo hi : Z) (m : nat) :
  forall (k : Z) (p : Page),
  (1 <= count_tiles b lo hi)%Z ->
  Stage b lo hi (count_tiles b lo hi) k p ->
  (k + Z.of_nat m <= 2 * count_tiles b lo hi + 1)%Z ->
  is_Some (run p (replicate m 0%nat)).
Proof.
  induction m as [|m IH]; intros k p Hn Hst Hk; cbn [replicate run]; [done|].
  assert (Hfire : is_Some (fire 0 p)).
  { destruct Hst as [_ _ _ _ _ _ _ _ Hsat Hstreet Hhide _ _].
    unfold fire. destruct (pending p) as [|t rest] eqn:Hp.
    - destruct (decide (k < count_tiles b lo hi)%Z) as [Hk1|Hk1];
        [|destruct (decide (k < 2 * count_tiles b lo hi)%Z) as [Hk2|Hk2]].
      + destruct (Hsat Hk1) as [_ Hl]. simpl in Hl. lia.
      + destruct (Hstreet ltac:(lia)) as [_ Hl]. simpl in Hl. lia.
      + by specialize (Hhide ltac:(lia)).
    - cbn [lookup list_lookup]. destruct t as [[|] c|]; cbv zeta;
        [| |by eexists]; destruct (_ <=? _)%Z; by eexists. }
  destruct Hfire as [p1 Hfire]. rewrite Hfire.
  apply (IH (k + 1)%Z); [done| |lia].
  by apply (stage_step _ _ _ _ _ _ _ Hn Hst Hfire).
Qed.

Lemma tiles_in_point (c : LatLng) (z : Z) : tiles_in (mkBounds c c) z = 1%Z.
Proof.
  unfold tiles_in, tile_range. cbv zeta. cbn [xMin xMax yMin yMax].
  cbn [getNorthEast getSouthWest]. rewrite !Z.max_id, !Z.min_id. lia.
Qed.


(** The text after the 23rd of 40 timers: the doubles give
    57.49999999999999, which [Math.round] takes to 57, where the exact
    quotient 57.5 would go to 58; after the last of the 40 it is 100. *)
Example text_after_23_of_40 (b : LatLngBounds) :
  let p := mkPage b 0 0 20 22 true 0 0 0 [] in
  text (show_progress p []) = 57%Z
  /\ Scheduler.Math_round (inject_Z 23 / inject_Z (20 * 2) * 100)%Q = 58%Z.
Proof. split; by vm_compute. Qed.

Example text_after_40_of_40 (b : LatLngBounds) :
  let p := mkPage b 0 0 20 39 true 0 0 0 [] in
  text (show_progress p []) = 100%Z.
Proof. by vm_compute. Qed.

(** Zoom 22. *)
Lemma out_of_range_zoom_shows_progress_forever_witness :
  let p := downloadCurrentMapArea Examples.world_bounds 22 0 0 in
  tilesCount p = 0%Z /\ pending p = [] /\ shown p = true /\ alerts p = 0%nat
  /\ forall steps p', run p steps = Some p' -> p' = p.
Proof.
  apply (out_of_range_zoom_shows_progress_forever Examples.world_bounds 22 0 0).
  lia.
Defined.

End ToggleFacts.

(** ** The control: opening, saving, removing *)

Section ControlFacts.
Import TileKey Enumerator Control Records.

(** [openDB] on a control that holds an open manager. *)
Lemma openDB_again (this : SaveTiles) (w : World) m db :
  _dbManager this = Some m -> DBManager._db m = Some db ->
  openDB this w
  = (DBManager.Resolved db,
     mkSaveTiles (options this) (Some m) (_tilesforSave this) (_map this),
     say (mkWorld (baseLayer w) (layerDB w) (getTileUrl w) (browser w)
                  (effects w)) [LogDatabaseOpened]).
Proof.
  intros Hm Hdb. unfold openDB. rewrite Hm.
  by rewrite (open_held m (browser w) db Hdb).
Qed.

(** What [openDB] leaves behind, whatever its outcome. *)
Lemma openDB_shape (this : SaveTiles) (w : World) r this1 w1 :
  openDB this w = (r, this1, w1) ->
  let m0 := default (DBManager.initialize (dbName (options this)))
                    (_dbManager this) in
  exists m1,
    DBManager.open m0 (browser w) = (r, m1, browser w1)
    /\ _dbManager this1 = Some m1
    /\ options this1 = options this /\ _tilesforSave this1 = _tilesforSave this
    /\ _map this1 = _map this
    /\ baseLayer w1 = baseLayer w /\ getTileUrl w1 = getTileUrl w
    /\ layerDB w1 = match _dbManager this, baseLayer w, layerDB w with
                    | None, Some _, NoDB => ControlDB
                    | _, _, d => d
                    end
    /\ effects w1 = (effects w ++ match r with
                                  | DBManager.Resolved _ => [LogDatabaseOpened]
                                  | DBManager.Rejected _ => []
                                  end)%list.
Proof.
  intros H m0. unfold openDB in H.
  assert (Hw0 : forall w0,
            w0 = match baseLayer w, layerDB w with
                 | Some _, NoDB =>
                     mkWorld (baseLayer w) ControlDB (getTileUrl w) (browser w)
                             (effects w)
                 | _, _ => w
                 end ->
            browser w0 = browser w /\ baseLayer w0 = baseLayer w
            /\ getTileUrl w0 = getTileUrl w /\ effects w0 = effects w
            /\ layerDB w0 = match baseLayer w, layerDB w with
                            | Some _, NoDB => ControlDB
                            | _, d => d
                            end).
  { intros w0 ->. by destruct (baseLayer w) eqn:Hl0, (layerDB w) eqn:Hd0. }
  destruct (_dbManager this) as [m|] eqn:Hm; simpl in m0; subst m0.
  - destruct (DBManager.open m (browser w)) as [[r0 m'] b'] eqn:Hopen.
    exists m'.
    destruct r0; injection H as <- <- <-; simpl; rewrite ?app_nil_r;
      repeat split; done.
  - match type of H with
    | context [DBManager.open _ (browser ?W)] =>
        destruct (Hw0 W eq_refl) as (Hb & Hl & Hu & He & Hd);
        set (w0 := W) in *
    end.
    clearbody w0. rewrite Hb in H.
    destruct (DBManager.open _ (browser w)) as [[r0 m'] b'] eqn:Hopen.
    exists m'.
    destruct r0; injection H as <- <- <-; simpl;
      rewrite ?app_nil_r, ?Hl, ?Hu, ?He, ?Hd; repeat split; done.
Qed.

(** Opening changes no record. *)
Lemma openDB_frame (this : SaveTiles) (w : World) r this1 w1 :
  openDB this w = (r, this1, w1) ->
  forall db s k, record (browser w1) db s k = record (browser w) db s k.
Proof.
  intros H. destruct (openDB_shape _ _ _ _ _ H) as (m1 & Hopen & _).
  by destruct (open_frame _ _ _ _ _ Hopen) as (Hrec & _).
Qed.

(** A manager without connection opens one where IndexedDB works. *)
Lemma open_first (m : DBManager.Manager) (b : DBManager.Browser) :
  DBManager._db m = None ->
  DBManager.indexedDB b = true -> DBManager.open_error b = false ->
  DBManager.open m b
  = (DBManager.Resolved (DBManager.dbName m),
     DBManager.mkManager (DBManager.dbName m) (Some (DBManager.dbName m)),
     DBManager.backend_open (DBManager.dbName m) b).
Proof. unfold DBManager.open. by intros -> -> ->. Qed.

Lemma tiles_to_save_same (this this' : SaveTiles) :
  options this' = options this -> _map this' = _map this ->
  tiles_to_save this' = tiles_to_save this.
Proof. unfold tiles_to_save, save_bounds. by intros -> ->. Qed.

Lemma fold_min_bound (l : list Z) : forall z,
  (fold_left Z.min l z <= z)%Z
  /\ Forall (fun i => (fold_left Z.min l z <= i)%Z) l.
Proof.
  induction l as [|a l IH]; intros z; cbn [fold_left].
  - split; [lia|constructor].
  - destruct (IH (Z.min z a)) as [H1 H2]. split; [lia|].
    constructor; [lia|done].
Qed.

Lemma fold_max_bound (l : list Z) : forall z,
  (z <= fold_left Z.max l z)%Z
  /\ Forall (fun i => (i <= fold_left Z.max l z)%Z) l.
Proof.
  induction l as [|a l IH]; intros z; cbn [fold_left].
  - split; [lia|constructor].
  - destruct (IH (Z.max z a)) as [H1 H2]. split; [lia|].
    constructor; [lia|done].
Qed.

(** [Math.min] and [Math.max] of an array bound its elements. *)
Lemma Math_min_least (zs : list Z) (lo : Z) :
  Math_min zs = Some lo -> Forall (fun z => (lo <= z)%Z) zs.
Proof.
  destruct zs as [|z l]; [done|]. intros [= <-].
  destruct (fold_min_bound l z). by constructor.
Qed.

Lemma Math_max_greatest (zs : list Z) (hi : Z) :
  Math_max zs = Some hi -> Forall (fun z => (z <= hi)%Z) zs.
Proof.
  destruct zs as [|z l]; [done|]. intros [= <-].
  destruct (fold_max_bound l z). by constructor.
Qed.

(** Between bounds that hold of every listed level, no level is skipped. *)
Lemma calculate_listed (zs : list Z) (b : LatLngBounds) (lo hi : Z) :
  Forall (fun z => (lo <= z <= hi)%Z) zs ->
  _calculateTilesForArea (Some zs) b lo hi = flat_map (tiles_at_zoom b) zs.
Proof.
  unfold _calculateTilesForArea. cbv zeta.
  change (default [lo; hi] (Some zs)) with zs.
  induction 1 as [|z l Hz _ IH]; cbn [flat_map]; [done|].
  rewrite IH, Z.gtb_ltb.
  destruct (Z.ltb_spec z lo), (Z.ltb_spec hi z); try lia. done.
Qed.

(** X22.  [openDB] creates the control's manager once and never replaces a
    store the layer has.  After any call the control holds a manager; a
    base layer without [cacheDB] was given the control's manager, a layer
    with a [cacheDB] kept its own; and when the call resolved, a second
    call resolves with the same connection, makes no further
    [indexedDB.open] call and changes nothing but the log. *)
Theorem openDB_keeps_one_manager (this : SaveTiles) (w : World) r this1 w1 :
  openDB this w = (r, this1, w1) ->
  is_Some (_dbManager this1)
  /\ (layerDB w <> NoDB -> layerDB w1 = layerDB w)
  /\ (_dbManager this = None -> is_Some (baseLayer w) -> layerDB w = NoDB ->
      layerDB w1 = ControlDB /\ layer_manager this1 w1 = _dbManager this1)
  /\ (forall db, r = DBManager.Resolved db ->
      exists w2,
        openDB this1 w1 = (DBManager.Resolved db, this1, w2)
        /\ browser w2 = browser w1 /\ layerDB w2 = layerDB w1
        /\ effects w2 = (effects w1 ++ [LogDatabaseOpened])%list).
Proof.
  intros H.
  destruct (openDB_shape _ _ _ _ _ H)
    as (m1 & Hopen & Hm1 & Ho & Ht & Hmap & Hl & Hu & Hd & He).
  split; [by rewrite Hm1|]. split; [|split].
  - intros Hne. rewrite Hd.
    destruct (_dbManager this), (baseLayer w), (layerDB w); done.
  - intros Hnone [l Hbase] Hno. rewrite Hd, Hnone, Hbase, Hno.
    split; [done|]. unfold layer_manager. by rewrite Hd, Hnone, Hbase, Hno.
  - intros db ->.
    pose proof (open_resolved_holds _ _ _ _ _ Hopen) as Hheld.
    rewrite (openDB_again this1 w1 m1 db Hm1 Hheld).
    assert (Hthis : mkSaveTiles (options this1) (Some m1) (_tilesforSave this1)
                                (_map this1) = this1).
    { destruct this1; simpl in *. by subst. }
    rewrite Hthis. eexists. split; [reflexivity|done].
Qed.

Lemma openDB_keeps_one_manager_witness :
  let p := openDB new_control new_page in
  is_Some (_dbManager p.1.2)
  /\ (layerDB new_page <> NoDB -> layerDB p.2 = layerDB new_page)
  /\ (_dbManager new_control = None -> is_Some (baseLayer new_page) ->
      layerDB new_page = NoDB ->
      layerDB p.2 = ControlDB /\ layer_manager p.1.2 p.2 = _dbManager p.1.2)
  /\ (forall db, p.1.1 = DBManager.Resolved db ->
      exists w2,
        openDB p.1.2 p.2 = (DBManager.Resolved db, p.1.2, w2)
        /\ browser w2 = browser p.2 /\ layerDB w2 = layerDB p.2
        /\ effects w2 = (effects p.2 ++ [LogDatabaseOpened])%list).
Proof.
  intros p.
  apply (openDB_keeps_one_manager new_control new_page p.1.1 p.1.2 p.2).
  unfold p. by destruct (openDB new_control new_page) as [[? ?] ?].
Defined.



Lemma calculated_same (this this' : SaveTiles) :
  options this' = options this -> _map this' = _map this ->
  calculated this' = calculated this.
Proof.
  intros Ho Hm. unfold calculated.
  rewrite (tiles_to_save_same _ _ Ho Hm). unfold save_bounds.
  by rewrite Ho, Hm.
Qed.

(** Where tiles are computed there are bounds. *)
Lemma tiles_to_save_bounds (this : SaveTiles) (tiles : list Coords) :
  tiles_to_save this = Some tiles -> is_Some (save_bounds this).
Proof.
  unfold tiles_to_save. cbv zeta. by destruct (save_bounds this).
Qed.

(** When the computation of the tiles throws. *)
Lemma calculated_throws (this : SaveTiles) :
  (exists e, calculated this = Some (Throws e))
  <-> tiles_to_save this = None
      \/ exists b tiles,
           save_bounds this = Some b /\ tiles_to_save this = Some tiles
           /\ row_kind (lat (getNorthEast b)) = NumberRow
           /\ row_kind (lat (getSouthWest b)) = NumberRow
           /\ (max_array_length < Z.of_nat (length tiles))%Z.
Proof.
  unfold calculated.
  destruct (tiles_to_save this) as [tiles|] eqn:Ht.
  - destruct (tiles_to_save_bounds _ _ Ht) as [b Hb]. rewrite Hb.
    unfold pushed. split.
    + intros [e He]. right. exists b, tiles.
      destruct (row_kind (lat (getNorthEast b))),
               (row_kind (lat (getSouthWest b))); try done.
      destruct (Z.leb_spec (Z.of_nat (length tiles)) max_array_length);
        [done|]. by repeat split.
    + intros [?|(b' & tiles' & [= <-] & [= <-] & -> & -> & Hlong)]; [done|].
      rewrite (proj2 (Z.leb_gt _ _) Hlong). by eexists.
  - split; [by left|]. intros _.
    destruct (save_bounds this); by eexists.
Qed.

(** A click, by how [openDB] ended. *)
Lemma saveTiles_cases (this : SaveTiles) (w : World) r this1 w1 :
  openDB this w = (r, this1, w1) ->
  _saveTiles this w
  = match r with
    | DBManager.Rejected _ =>
        Some (SaveAlerted, this1,
              say w1 [LogErrorOpeningBeforeSave; AlertNoStorage])
    | DBManager.Resolved _ =>
        match calculated this with
        | None => None
        | Some (Throws _) =>
            Some (SaveAlerted, this1,
                  say w1 [LogErrorOpeningBeforeSave; AlertNoStorage])
        | Some (Returns tiles) =>
            let this2 := mkSaveTiles (options this) (_dbManager this1)
                                     (Some tiles) (_map this) in
            if confirm (options this)
            then Some (SaveAwaitsConfirm, this2, say w1 [CallConfirm])
            else
              match baseLayer w with
              | None =>
                  Some (SaveAlerted, this2,
                        say w1 [LogErrorOpeningBeforeSave; AlertNoStorage])
              | Some layer =>
                  match Scheduler._saveTilesImpl layer (getTileUrl w)
                          (layer_manager this2 w1) (browser w1) tiles None with
                  | None =>
                      Some (SaveWithoutCacheDB, this2,
                            say w1 [LogNoCacheDBForSaving])
                  | Some j => Some (SaveStarted j, this2, with_saveToCache w1)
                  end
              end
        end
    end.
Proof.
  intros H. unfold _saveTiles. rewrite H.
  destruct (openDB_shape _ _ _ _ _ H)
    as (m1 & _ & _ & Ho & _ & Hmap & Hl & Hu & _).
  rewrite (calculated_same this this1 Ho Hmap).
  unfold saveTilesImpl_call. cbn [options _map baseLayer getTileUrl].
  rewrite Ho, Hmap, Hl, Hu. destruct r; [|done].
  destruct (calculated this) as [[tiles|e]|]; [|done..].
  destruct (confirm (options this)); [done|].
  by destruct (baseLayer w).
Qed.



(** The one tile of the point (0, 0) at zoom 1. *)
Lemma tiles_at_origin :
  tiles_at_zoom Examples.origin_bounds 1 = [mkCoords 1 1 1].
Proof.
  unfold tiles_at_zoom. cbv zeta.
  cbn [Examples.origin_bounds getNorthEast getSouthWest lat lng].
  assert (Ht : _latLngToTile 0 0 1 = mkTileXY 1 1).
  { unfold _latLngToTile. cbv zeta. fold (mercator 0). rewrite mercator_0.
    change (powerRZ 2 1) with (2 * 1)%R.
    pose proof PI_RGT_0 as Hpi.
    replace ((0 + 180) / 360 * (2 * 1))%R with (IZR 1) by lra.
    replace ((1 - 0 / PI) / 2 * (2 * 1))%R with (IZR 1) by (field; lra).
    by rewrite ZfloorZ. }
  rewrite Ht. reflexivity.
Qed.



(** What [_rmTilesImpl] does when it reaches [clear]. *)
Lemma rmTilesImpl_shape (this : SaveTiles) (w : World) out this1 w1 :
  _rmTilesImpl this w = Some (out, this1, w1) ->
  exists layer,
    baseLayer w = Some layer /\ baseLayer w1 = Some layer
    /\ ((out = RemoveWithoutCacheDB /\ layer_manager this w = None
         /\ browser w1 = browser w)
        \/ exists m r m',
             layer_manager this w = Some m
             /\ DBManager.clear m (browser w) (cacheStoreName layer)
                = (r, m', browser w1)
             /\ layer_manager this1 w1 = Some m'
             /\ match r with
                | DBManager.Resolved _ =>
                    out = Removed
                    /\ effects w1 = (effects w ++ [FireRemoveComplete])%list
                | DBManager.Rejected reason =>
                    out = RemoveFailed reason
                    /\ effects w1 = (effects w ++ [LogErrorClearing])%list
                end).
Proof.
  unfold _rmTilesImpl. destruct (baseLayer w) as [layer|] eqn:Hl; [|done].
  destruct (layer_manager this w) as [m|] eqn:Hm.
  - destruct (DBManager.clear m (browser w) (cacheStoreName layer))
      as [[r m'] b'] eqn:Hclear.
    destruct (set_layer_manager this w m' b') as [this' w'] eqn:Hset.
    assert (Hs : layer_manager this' w' = Some m' /\ browser w' = b'
                 /\ baseLayer w' = Some layer /\ effects w' = effects w).
    { unfold set_layer_manager in Hset. unfold layer_manager.
      destruct (layerDB w); injection Hset as <- <-; by rewrite <- Hl. }
    destruct Hs as (Hs1 & Hs2 & Hs3 & Hs4).
    intros H. exists layer. split; [done|].
    destruct r as [[]|reason]; injection H as <- <- <-;
      (split; [done|]); right; eexists m, _, m';
      cbn [say browser effects]; rewrite Hs2, Hs4;
      (split; [done|]); (split; [exact Hclear|]); by split.
  - intros [= <- <- <-]. exists layer. split; [done|]. split; [done|].
    by left.
Qed.

(** A click on 'Remove tiles' that ended with [removecomplete]. *)
Lemma rmTiles_removed (this : SaveTiles) (w : World) this1 w1 :
  _rmTiles this w = (Removed, this1, w1) ->
  exists layer m conn,
    baseLayer w = Some layer /\ baseLayer w1 = Some layer
    /\ layer_manager this1 w1 = Some m /\ DBManager._db m = Some conn
    /\ (forall k, record (browser w1) conn (cacheStoreName layer) k = None)
    /\ (forall db s k, (db, s) <> (conn, cacheStoreName layer) ->
          record (browser w1) db s k = record (browser w) db s k)
    /\ exists pre, effects w1 = (pre ++ [FireRemoveComplete])%list.
Proof.
  intros H. unfold _rmTiles in H.
  destruct (openDB this w) as [[r t1] w0] eqn:Hopen.
  pose proof (openDB_frame _ _ _ _ _ Hopen) as Hframe.
  destruct (openDB_shape _ _ _ _ _ Hopen)
    as (m1 & _ & _ & _ & _ & _ & Hl & _).
  destruct r as [db|reason]; [|done].
  destruct (confirmRemoval (options t1)); [done|].
  destruct (_rmTilesImpl t1 w0) as [[[out' this'] w']|] eqn:Himpl; [|done].
  injection H as -> -> ->.
  destruct (rmTilesImpl_shape _ _ _ _ _ Himpl)
    as (layer & Hl0 & Hl1
        & [(? & _)|(m & r & m' & Hm & Hclear & Hm' & Hr)]); [done|].
  rewrite Hl in Hl0.
  destruct r as [[]|reason]; destruct Hr as [Hout He]; [|done].
  destruct (clear_records _ _ _ _ _ Hclear)
    as (conn & Hconn & _ & Hempty & Hother & _).
  exists layer, m', conn. repeat (split; [done|]).
  split; [|by eexists].
  intros db0 s k Hne. by rewrite (Hother db0 s k Hne).
Qed.

(** X26.  What a click on 'Remove tiles' does to the records.  When it ends
    with [removecomplete] fired, the object store named by the layer's
    [cacheStoreName], in the database the layer's manager is connected to,
    holds no record at all, whatever key prefix or map name the records had,
    and every other store has the records it had.  In every other outcome
    (the alert, the [confirmRemoval] callback, a rejected [clear]) no record
    has changed.  On a control that had no manager yet the guard 'No cacheDB
    provided for removing tiles' is never what the click ends in. *)
Theorem remove_click_clears_the_layer_store
    (this : SaveTiles) (w : World) out this1 w1 :
  _rmTiles this w = (out, this1, w1) ->
  (out = Removed ->
     exists layer m conn,
       baseLayer w = Some layer
       /\ layer_manager this1 w1 = Some m /\ DBManager._db m = Some conn
       /\ (forall k, record (browser w1) conn (cacheStoreName layer) k = None)
       /\ (forall db s k, (db, s) <> (conn, cacheStoreName layer) ->
             record (browser w1) db s k = record (browser w) db s k)
       /\ exists pre, effects w1 = (pre ++ [FireRemoveComplete])%list)
  /\ (out <> Removed ->
      forall db s k, record (browser w1) db s k = record (browser w) db s k)
  /\ (_dbManager this = None -> out <> RemoveWithoutCacheDB).
Proof.
  intros H. split.
  { intros ->.
    destruct (rmTiles_removed _ _ _ _ H)
      as (layer & m & conn & Hl & _ & Hm & Hconn & Hempty & Hother & He).
    by exists layer, m, conn. }
  unfold _rmTiles in H.
  destruct (openDB this w) as [[r t1] w0] eqn:Hopen.
  pose proof (openDB_frame _ _ _ _ _ Hopen) as Hframe.
  destruct (openDB_shape _ _ _ _ _ Hopen)
    as (m1 & _ & Hm1 & _ & _ & _ & Hl & _ & Hd & _).
  destruct r as [db|reason];
    [|injection H as <- <- <-; by split].
  destruct (confirmRemoval (options t1));
    [injection H as <- <- <-; by split|].
  destruct (_rmTilesImpl t1 w0) as [[[out' this'] w']|] eqn:Himpl;
    [|injection H as <- <- <-; by split].
  injection H as -> -> ->.
  destruct (rmTilesImpl_shape _ _ _ _ _ Himpl)
    as (layer & Hl0 & Hl1
        & [(-> & Hnone & Hb)|(m & r & m' & Hm & Hclear & Hm' & Hr)]);
    rewrite Hl in Hl0.
  - split; [intros _ db0 s k; by rewrite Hb|].
    intros Hfresh _. unfold layer_manager in Hnone.
    rewrite Hd, Hfresh, Hl0, Hm1 in Hnone. by destruct (layerDB w).
  - destruct r as [[]|reason]; destruct Hr as [-> He]; [done|].
    pose proof (clear_rejected_frame _ _ _ _ _ _ Hclear) as Hsame.
    split; [|done]. intros _ db0 s k. by rewrite Hsame.
Qed.

(** A new control on a page whose layer has no [cacheDB], in a new browser:
    the click ends with [removecomplete]. *)
Lemma remove_click_clears_the_layer_store_witness :
  let p := _rmTiles new_control new_page in
  p.1.1 = Removed
  /\ (p.1.1 = Removed ->
      exists layer m conn,
        baseLayer new_page = Some layer
        /\ layer_manager p.1.2 p.2 = Some m /\ DBManager._db m = Some conn
        /\ (forall k, record (browser p.2) conn (cacheStoreName layer) k = None)
        /\ (forall db s k, (db, s) <> (conn, cacheStoreName layer) ->
              record (browser p.2) db s k = record (browser new_page) db s k)
        /\ exists pre, effects p.2 = (pre ++ [FireRemoveComplete])%list)
  /\ (p.1.1 <> Removed ->
      forall db s k,
        record (browser p.2) db s k = record (browser new_page) db s k)
  /\ (_dbManager new_control = None -> p.1.1 <> RemoveWithoutCacheDB).
Proof.
  intros p. split; [vm_compute; reflexivity|].
  apply (remove_click_clears_the_layer_store new_control new_page
           p.1.1 p.1.2 p.2).
  unfold p. by destruct (_rmTiles new_control new_page) as [[? ?] ?].
Defined.

(** A read through a connected manager leaves the manager as it is and
    resolves with the record under the key. *)
Lemma get_connected (m : DBManager.Manager) (b : DBManager.Browser)
    conn s k r m' b' :
  DBManager._db m = Some conn ->
  DBManager.get m b s k = (r, m', b') ->
  m' = m /\ forall e, r = DBManager.Resolved e -> e = record b conn s k.
Proof.
  intros Hc. unfold DBManager.get. rewrite (open_held _ _ _ Hc).
  unfold record. destruct (DBManager.objectStore b conn s) as [objs|];
    [destruct (DBManager.request_error b _)|];
    intros [= <- <- <-]; (split; [done|]); by intros e [= <-].
Qed.

(** The states of a layer whose store is empty. *)
Lemma read_empty_store (layer0 : Layer) (m : DBManager.Manager) conn
    k (st : Fetcher.State) v st' t :
  DBManager._db m = Some conn ->
  (Fetcher.cacheDB st = Some m /\ Fetcher.layer st = layer0
   /\ forall k', record (Fetcher.browser st) conn (cacheStoreName layer0) k'
                 = None) ->
  Fetcher._getTileFromCache k st = (v, st', t) ->
  v = None
  /\ (Fetcher.cacheDB st' = Some m /\ Fetcher.layer st' = layer0
      /\ forall k', record (Fetcher.browser st') conn (cacheStoreName layer0) k'
                    = None).
Proof.
  intros Hconn (Hdb & Hlayer & Hempty) Hread.
  pose proof (read_frame _ _ _ _ _ Hread) as Hframe.
  unfold Fetcher._getTileFromCache in Hread. rewrite Hdb in Hread.
  destruct (DBManager.get m (Fetcher.browser st)
              (cacheStoreName (Fetcher.layer st)) k)
    as [[r m'] b'] eqn:Hget.
  destruct (get_connected _ _ _ _ _ _ _ _ Hconn Hget) as [-> Hr].
  assert (Hst : Fetcher.cacheDB st' = Some m /\ Fetcher.layer st' = layer0).
  { destruct r; injection Hread as _ <- _; by split. }
  split; [|split; [tauto|split; [tauto|]]].
  - destruct r as [e|reason]; injection Hread as <- _ _; [|done].
    rewrite (Hr e eq_refl), Hlayer, Hempty. done.
  - intros k'. by rewrite Hframe.
Qed.

(** X27.  After a removal, tiles come from the network again.  When a click
    on 'Remove tiles' ended with [removecomplete] and the layer uses the
    cache, every tile the layer then creates is shown at its network URL,
    after at least one network request. *)
Theorem removed_tiles_come_from_the_network
    (this : SaveTiles) (w : World) this1 w1 (layer : Layer)
    (E : Fetcher.Env) (base : Fetcher.BaseTile) (coords : Coords)
    (done : bool) (n : nat) :
  _rmTiles this w = (Removed, this1, w1) ->
  baseLayer w1 = Some layer ->
  useCache layer = true ->
  let r := Fetcher.resolve E base coords done (fetcher_state this1 w1 layer n) in
  Fetcher.src (Fetcher.value_of r) = Some (Fetcher.getTileUrl E coords)
  /\ (1 <= Fetcher.count Fetcher.is_request (Fetcher.trace_of r))%nat.
Proof.
  intros H Hlayer Huse r.
  destruct (rmTiles_removed _ _ _ _ H)
    as (layer' & m & conn & _ & Hl1 & Hm & Hconn & Hempty & _).
  assert (layer' = layer) as -> by congruence.
  set (st := fetcher_state this1 w1 layer n) in *.
  assert (Hst : Fetcher.cacheDB st = Some m /\ Fetcher.layer st = layer
                /\ forall k', record (Fetcher.browser st) conn
                                     (cacheStoreName layer) k' = None).
  { unfold st, fetcher_state. by cbn. }
  destruct (resolve_cases E base coords done st Huse)
    as [(c & st1 & t1 & Hr1 & _)
       |[(st1 & t1 & Hr1 & _ & Hsrc & _ & Ht)
        |[(st1 & t1 & r' & st2 & t2 & Hr1 & _ & _ & Hsrc & _ & Ht)
         |[(st1 & t1 & st3 & t3 & Hr1 & _ & _ & Hsrc & _ & Ht)
          |(st1 & t1 & c & st3 & t3 & r' & st4 & t4 & Hr1 & _ & Hr3 & _)]]]].
  - by destruct (read_empty_store _ _ _ _ _ _ _ _ Hconn Hst Hr1).
  - split; [exact Hsrc|]. unfold r. rewrite Ht, count_cons. simpl. lia.
  - split; [exact Hsrc|]. unfold r. rewrite Ht, count_cons. simpl. lia.
  - split; [exact Hsrc|]. unfold r. rewrite Ht, count_cons. simpl. lia.
  - destruct (read_empty_store _ _ _ _ _ _ _ _ Hconn Hst Hr1) as [_ Hst1].
    assert (Hb : Fetcher.cacheDB (Fetcher.bump st1) = Some m
                 /\ Fetcher.layer (Fetcher.bump st1) = layer
                 /\ forall k', record (Fetcher.browser (Fetcher.bump st1)) conn
                                      (cacheStoreName layer) k' = None)
      by exact Hst1.
    by destruct (read_empty_store _ _ _ _ _ _ _ _ Hconn Hb Hr3).
Qed.

(** The tile (1, 0, 1) after a removal on a new page, with the network up. *)
Lemma removed_tiles_come_from_the_network_witness :
  let p := _rmTiles new_control new_page in
  let r := Fetcher.resolve Examples.online Examples.plain_tile
             Examples.tile_1_0_1 true
             (fetcher_state p.1.2 p.2 Examples.caching_layer 0) in
  Fetcher.src (Fetcher.value_of r)
  = Some (Fetcher.getTileUrl Examples.online Examples.tile_1_0_1)
  /\ (1 <= Fetcher.count Fetcher.is_request (Fetcher.trace_of r))%nat.
Proof.
  intros p.
  apply (removed_tiles_come_from_the_network new_control new_page p.1.2 p.2
           Examples.caching_layer Examples.online Examples.plain_tile
           Examples.tile_1_0_1 true 0).
  - assert (Hout : p.1.1 = Removed) by (vm_compute; reflexivity).
    unfold p in *.
    destruct (_rmTiles new_control new_page) as [[out this1] w1].
    cbn in Hout. by rewrite Hout.
  - vm_compute; reflexivity.
  - reflexivity.
Defined.

End ControlFacts.
